(** * acp4all-go: the pure core of the ACP bridge

    The bridge lets a client that speaks the Agent Client Protocol drive
    a coding-agent CLI.  This development embeds the pure functions its
    behaviour rests on and proves what the specification says of them:

    - byte-limited line extraction and Markdown fencing
      ([extractLinesWithByteLimit], [markdownEscape]);
    - the diff engine ([createUnifiedDiff], [computeDiffHunks],
      [parseUnifiedDiff]);
    - the permission rule engine ([parseRule], [matchesRule],
      [mergeSettings], [CheckPermission]);
    - the end of a prompt turn ([handleResult]);
    - the description of a tool call ([toolInfoFromToolUse]).

    A Go [string] is a byte sequence and is modelled by [string], a list
    of 8-bit characters; [len] is [String.length].  Slice indices,
    lengths and counters are [nat]; an [int] that can be negative or is
    supplied by a caller is a [Z], with the 64-bit wrap-around written
    out where the code computes with it.  A [map[string]any] is a
    [gmap string any].  A loop is a recursive function on the data it
    walks or, where it walks indices, on a bound of its iterations.
    What lies outside the repository (the platform's path functions, the
    glob library, the JSON encoder) is a parameter. *)

From Stdlib Require Import String Ascii List ZArith Lia Bool Arith.
From Stdlib Require Import DecimalString DecimalPos SpecFloat.
From stdpp Require Import base strings gmap.
Import ListNotations.

Set Warnings "-register-all".
Local Open Scope list_scope.
Local Open Scope string_scope.

(** ** Characters that cannot be written inside a literal *)

Definition LF : ascii := ascii_of_nat 10.
Definition DQUOTE : ascii := ascii_of_nat 34.
Definition BACKSLASH : ascii := ascii_of_nat 92.
Definition nl : string := String LF EmptyString.
Definition dq : string := String DQUOTE EmptyString.

(** Go's [append(s, x)] for a single element. *)
Definition append1 {A : Type} (s : list A) (x : A) : list A := (s ++ [x])%list.

(** ** Go's [strings] package, on byte strings *)

Module strings.

Fixpoint HasPrefix (s prefix : string) {struct prefix} : bool :=
  match prefix with
  | EmptyString => true
  | String p prefix' =>
      match s with
      | EmptyString => false
      | String c s' => Ascii.eqb c p && HasPrefix s' prefix'
      end
  end.

(** [s[n:]] and [s[:n]] for [n <= len(s)]. *)
Fixpoint from (n : nat) (s : string) : string :=
  match n with
  | O => s
  | S n' => match s with
            | EmptyString => EmptyString
            | String _ s' => from n' s'
            end
  end.

Fixpoint upto (n : nat) (s : string) : string :=
  match n with
  | O => EmptyString
  | S n' => match s with
            | EmptyString => EmptyString
            | String c s' => String c (upto n' s')
            end
  end.

Definition HasSuffix (s suffix : string) : bool :=
  (String.length suffix <=? String.length s)%nat &&
  String.eqb (from (String.length s - String.length suffix) s) suffix.

(** [strings.Index]: byte offset of the first occurrence of [sep],
    [None] where Go returns -1. *)
Fixpoint Index (s sep : string) : option nat :=
  if HasPrefix s sep then Some 0
  else match s with
       | EmptyString => None
       | String _ s' => option_map S (Index s' sep)
       end.

Definition Contains (s substr : string) : bool :=
  match Index s substr with
  | Some _ => true
  | None => false
  end.

Definition TrimPrefix (s prefix : string) : string :=
  if HasPrefix s prefix then from (String.length prefix) s else s.

(** [strings.Split(s, sep)] for a one-byte separator: always at least
    one field. *)
Fixpoint SplitByte (s : string) (sep : ascii) : list string :=
  match s with
  | EmptyString => [EmptyString]
  | String c s' =>
      if Ascii.eqb c sep then EmptyString :: SplitByte s' sep
      else match SplitByte s' sep with
           | [] => [String c EmptyString]
           | f :: fs => String c f :: fs
           end
  end.

Fixpoint Join (elems : list string) (sep : string) : string :=
  match elems with
  | [] => EmptyString
  | [e] => e
  | e :: rest => e ++ sep ++ Join rest sep
  end.

(** The part of [s] before the first [sep], all of [s] when there is
    none: [strings.SplitN(s, sep, 2)[0]]. *)
Definition SplitN2_first (s sep : string) : string :=
  match Index s sep with
  | Some i => upto i s
  | None => s
  end.

(** [strings.ReplaceAll(s, old, new)] for a one-byte [old]. *)
Fixpoint ReplaceAllByte (s : string) (old : ascii) (new : string) : string :=
  match s with
  | EmptyString => EmptyString
  | String c s' =>
      if Ascii.eqb c old then new ++ ReplaceAllByte s' old new
      else String c (ReplaceAllByte s' old new)
  end.

Fixpoint Repeat (s : string) (count : nat) : string :=
  match count with
  | O => EmptyString
  | S n => s ++ Repeat s n
  end.

End strings.

(** ** [fmt]'s [%d] verb *)

Module fmt.

Definition d (z : Z) : string := NilEmpty.string_of_int (Z.to_int z).
Definition dn (n : nat) : string := d (Z.of_nat n).

End fmt.

(** ** Line extraction and Markdown fencing *)

(** ExtractLinesResult holds the result of extracting lines with a limit. *)
Record ExtractLinesResult : Type := mkExtractLinesResult {
  Content : string;
  WasLimited : bool;
  LinesRead : nat
}.

(** The [for] loop of [extractLinesWithByteLimit].  The state is
    [(linesSeen, index, contentLength)]; the result is the state at the
    [break] together with [wasLimited].  [fuel] bounds the number of
    iterations; [None] means the bound was reached. *)
Fixpoint extractLoop (fuel : nat) (fullContent : string) (maxContentLength : Z)
    (linesSeen index contentLength : nat) : option (nat * nat * bool) :=
  match fuel with
  | O => None
  | S fuel' =>
      match strings.Index (strings.from index fullContent) nl with
      | None =>
          (* Last line in file (no trailing newline) *)
          if (0 <? linesSeen)%nat &&
             (Z.of_nat (String.length fullContent) >? maxContentLength)%Z
          then Some (linesSeen, contentLength, true)
          else Some (S linesSeen, String.length fullContent, false)
      | Some k =>
          let nextIndex := (k + index)%nat in
          let newContentLength := (nextIndex + 1)%nat in
          if (0 <? linesSeen)%nat &&
             (Z.of_nat newContentLength >? maxContentLength)%Z
          then Some (linesSeen, contentLength, true)
          else extractLoop fuel' fullContent maxContentLength
                 (S linesSeen) newContentLength newContentLength
      end
  end.

(** extractLinesWithByteLimit extracts lines from content up to
    maxContentLength characters.  The first line is always included even
    if it exceeds the limit.  Every iteration of the loop but the last
    consumes a newline, so [len(fullContent) + 1] iterations are enough:
    the result is never [None] (first part of the theorem on this
    function). *)
Definition extractLinesWithByteLimit (fullContent : string) (maxContentLength : Z)
    : option ExtractLinesResult :=
  if String.eqb fullContent EmptyString then
    Some {| Content := EmptyString; WasLimited := false; LinesRead := 1 |}
  else
    match extractLoop (S (String.length fullContent)) fullContent maxContentLength 0 0 0 with
    | Some (linesSeen, contentLength, wasLimited) =>
        Some {| Content := strings.upto contentLength fullContent;
                WasLimited := wasLimited;
                LinesRead := linesSeen |}
    | None => None
    end.

(** [markdownFenceRe] is [(?m)^`{3,}]: at the start of the text or just
    after a newline, the longest run of at least three backticks. *)
Fixpoint tickRun (s : string) : nat :=
  match s with
  | String "`" s' => S (tickRun s')
  | _ => O
  end.

(** [markdownFenceRe.FindAllString(text, -1)]: the successive leftmost
    matches.  [bol] tells whether the current position is the beginning
    of a line.  A match is followed by no other match on its line, since
    the byte before any later position of the line is not a newline. *)
Fixpoint fenceMatches (bol : bool) (s : string) : list string :=
  match s with
  | EmptyString => []
  | String c s' =>
      let rest := fenceMatches (Ascii.eqb c LF) s' in
      if bol && (3 <=? tickRun s)%nat
      then strings.Repeat "`" (tickRun s) :: rest
      else rest
  end.

Definition markdownFenceRe_FindAllString (text : string) : list string :=
  fenceMatches true text.

(** [for len(match) >= len(fence) { fence += "`" }]: the loop adds one
    backtick per iteration, so [len(match) + 1] iterations reach the
    exit condition. *)
Fixpoint growFence (fuel : nat) (m fence : string) : string :=
  match fuel with
  | O => fence
  | S fuel' =>
      if (String.length fence <=? String.length m)%nat
      then growFence fuel' m (fence ++ "`")
      else fence
  end.

Definition markdownEscape (text : string) : string :=
  let fence :=
    fold_left (fun fence m => growFence (S (String.length m)) m fence)
              (markdownFenceRe_FindAllString text) "```" in
  let trailing := if strings.HasSuffix text nl then EmptyString else nl in
  fence ++ nl ++ text ++ trailing ++ fence.

(** decodeProjectPath decodes an encoded project path by replacing the
    leading dash with "/" and all remaining dashes with "/". *)
Definition decodeProjectPath (encoded : string) : string :=
  match encoded with
  | EmptyString => encoded
  | String c rest =>
      if Ascii.eqb c "-" then "/" ++ strings.ReplaceAllByte rest "-" "/"
      else strings.ReplaceAllByte encoded "-" "/"
  end.

(** ** Computing a unified diff *)

Module mcp_server.

Record diffHunk : Type := mkDiffHunk {
  oldStart : nat;
  oldCount : nat;
  newStart : nat;
  newCount : nat;
  lines : list string
}.

(** splitLines splits content into lines. *)
Definition splitLines (content : string) : list string :=
  if String.eqb content EmptyString then [] else strings.SplitByte content LF.

(** One row of the LCS table.  [below] holds [lcs[i+1][j..n]] and the
    result holds [lcs[i][j..n]] for the old line [x] and the new lines
    [newLines[j..]]; the row is filled from the right, as the inner
    loop of the source does. *)
Fixpoint lcsRow (x : string) (newLines : list string) (below : list nat) : list nat :=
  match newLines with
  | [] => [0]
  | y :: newLines' =>
      let right := lcsRow x newLines' (tl below) in
      (if String.eqb x y then nth 1 below 0 + 1
       else if (hd 0 right <? hd 0 below)%nat then hd 0 below
       else hd 0 right) :: right
  end.

(** The table [lcs], rows [0..m], each of [n+1] entries; it is filled
    from the last row up. *)
Fixpoint lcsTable (oldLines newLines : list string) : list (list nat) :=
  match oldLines with
  | [] => [repeat 0 (S (length newLines))]
  | x :: oldLines' =>
      let t := lcsTable oldLines' newLines in
      lcsRow x newLines (hd [] t) :: t
  end.

Definition at2 (lcs : list (list nat)) (i j : nat) : nat := nth j (nth i lcs []) 0.

Record diffOp : Type := mkDiffOp {
  op : ascii;
  line : string;
  oldN : nat;
  newN : nat
}.

(** The three loops that build [ops]: while both sides have lines the
    table decides; then the rest of the old lines are deletions and the
    rest of the new lines insertions.  Every iteration advances [i] or
    [j], so [m + n] iterations are enough. *)
Fixpoint editScript (fuel : nat) (oldLines newLines : list string)
    (lcs : list (list nat)) (i j : nat) : list diffOp :=
  match fuel with
  | O => []
  | S fuel' =>
      let m := length oldLines in
      let n := length newLines in
      if (i <? m)%nat && (j <? n)%nat then
        if String.eqb (nth i oldLines EmptyString) (nth j newLines EmptyString) then
          mkDiffOp " " (nth i oldLines EmptyString) i j
            :: editScript fuel' oldLines newLines lcs (i + 1) (j + 1)
        else if (at2 lcs i (j + 1) <=? at2 lcs (i + 1) j)%nat then
          mkDiffOp "-" (nth i oldLines EmptyString) i j
            :: editScript fuel' oldLines newLines lcs (i + 1) j
        else
          mkDiffOp "+" (nth j newLines EmptyString) i j
            :: editScript fuel' oldLines newLines lcs i (j + 1)
      else if (i <? m)%nat then
        mkDiffOp "-" (nth i oldLines EmptyString) i j
          :: editScript fuel' oldLines newLines lcs (i + 1) j
      else if (j <? n)%nat then
        mkDiffOp "+" (nth j newLines EmptyString) i j
          :: editScript fuel' oldLines newLines lcs i (j + 1)
      else []
  end.

Definition contextLines : nat := 3.

Definition noOp : diffOp := mkDiffOp " " EmptyString 0 0.
Definition opAt (ops : list diffOp) (i : nat) : diffOp := nth i ops noOp.
Definition isEqualOp (o : diffOp) : bool := Ascii.eqb o.(op) " ".

(** Appends a context line to a hunk; with [setStart] the first such
    line also fixes the hunk's start (the leading-context loop). *)
Definition addContext (setStart : bool) (h : diffHunk) (o : diffOp) : diffHunk :=
  if isEqualOp o then
    let oc := S h.(oldCount) in
    let nc := S h.(newCount) in
    let first := setStart && (oc =? 1)%nat && (nc =? 1)%nat in
    {| oldStart := if first then o.(oldN) else h.(oldStart);
       oldCount := oc;
       newStart := if first then o.(newN) else h.(newStart);
       newCount := nc;
       lines := append1 h.(lines) (" " ++ o.(line)) |}
  else h.

(** A new hunk for the change at [idx]: up to [contextLines] lines of
    leading context. *)
Definition openHunk (ops : list diffOp) (idx : nat) (o : diffOp) : diffHunk :=
  let start := if (idx <? contextLines)%nat then 0 else idx - contextLines in
  let h := fold_left (fun h ci => addContext true h (opAt ops ci))
                     (seq start (idx - start)) (mkDiffHunk 0 0 0 0 []) in
  if (h.(oldCount) =? 0)%nat && (h.(newCount) =? 0)%nat then
    {| oldStart := o.(oldN); oldCount := h.(oldCount);
       newStart := o.(newN); newCount := h.(newCount);
       lines := h.(lines) |}
  else h.

Definition addChange (h : diffHunk) (o : diffOp) : diffHunk :=
  {| oldStart := h.(oldStart);
     oldCount := if Ascii.eqb o.(op) "-" then S h.(oldCount) else h.(oldCount);
     newStart := h.(newStart);
     newCount := if Ascii.eqb o.(op) "-" then h.(newCount) else S h.(newCount);
     lines := append1 h.(lines) (String o.(op) o.(line)) |}.

(** The index of the next change after [idx], looked for in
    [idx+1 .. min(idx + 2*contextLines + 1, len(ops)) - 1]. *)
Definition nextChange (ops : list diffOp) (idx : nat) : option nat :=
  let limit := Nat.min (idx + 2 * contextLines + 1) (length ops) in
  find (fun ni => negb (isEqualOp (opAt ops ni))) (seq (idx + 1) (limit - (idx + 1))).

(** One iteration of the grouping loop on [(hunks, currentHunk)]. *)
Definition groupStep (ops : list diffOp)
    (st : list diffHunk * option diffHunk) (idx : nat)
    : list diffHunk * option diffHunk :=
  let '(hunks, currentHunk) := st in
  let o := opAt ops idx in
  if negb (isEqualOp o) then
    let h := match currentHunk with
             | None => openHunk ops idx o
             | Some h => h
             end in
    (hunks, Some (addChange h o))
  else
    match currentHunk with
    | None => (hunks, None)
    | Some h =>
        match nextChange ops idx with
        | Some _ => (hunks, Some (addContext false h o))
        | None =>
            let trailEnd :=
              if (length ops <=? idx + contextLines)%nat then length ops - 1
              else idx + contextLines in
            let h' := fold_left (fun h ci => addContext false h (opAt ops ci))
                                (seq idx (trailEnd + 1 - idx)) h in
            (append1 hunks h', None)
        end
    end.

(** computeDiffHunks computes unified diff hunks between old and new
    line slices. *)
Definition computeDiffHunks (oldLines newLines : list string) : list diffHunk :=
  let lcs := lcsTable oldLines newLines in
  let ops := editScript (length oldLines + length newLines) oldLines newLines lcs 0 0 in
  let '(hunks, currentHunk) :=
    fold_left (groupStep ops) (seq 0 (length ops)) ([], None) in
  match currentHunk with
  | Some h => append1 hunks h
  | None => hunks
  end.

Definition hunkText (hunk : diffHunk) : string :=
  "@@ -" ++ fmt.dn (hunk.(oldStart) + 1) ++ "," ++ fmt.dn hunk.(oldCount) ++
  " +" ++ fmt.dn (hunk.(newStart) + 1) ++ "," ++ fmt.dn hunk.(newCount) ++ " @@" ++ nl ++
  fold_right (fun l acc => l ++ nl ++ acc) EmptyString hunk.(lines).

(** createUnifiedDiff creates a unified diff patch between old and new
    content. *)
Definition createUnifiedDiff (filename oldContent newContent : string) : string :=
  let oldLines := splitLines oldContent in
  let newLines := splitLines newContent in
  let hunks := computeDiffHunks oldLines newLines in
  if (length hunks =? 0)%nat then EmptyString
  else
    "--- a/" ++ filename ++ nl ++
    "+++ b/" ++ filename ++ nl ++
    fold_right (fun hunk acc => hunkText hunk ++ acc) EmptyString hunks.

(** stripCommonPrefix removes the common prefix of b relative to a.  The
    index [i] of the source advances while both texts have a byte at
    [i] and the bytes are equal; here both texts are walked together. *)
Fixpoint stripCommonPrefix (a b : string) : string :=
  match a, b with
  | String x a', String y b' =>
      if Ascii.eqb x y then stripCommonPrefix a' b' else b
  | _, _ => b
  end.

Definition CR : ascii := ascii_of_nat 13.

(** countLines counts the number of line breaks in text, handling \r\n,
    \r, and \n line endings. *)
Fixpoint countLines (text : string) : nat :=
  match text with
  | EmptyString => 0
  | String c rest =>
      if Ascii.eqb c CR then
        match rest with
        | String d rest' =>
            if Ascii.eqb d LF then S (countLines rest') else S (countLines rest)
        | EmptyString => 1
        end
      else if Ascii.eqb c LF then S (countLines rest)
      else countLines rest
  end.

End mcp_server.

(** ** Dynamically typed values: [any] *)

(** The dynamic types that the bridge inspects in a decoded JSON value
    ([map[string]any]): [nil], [string], [bool], [float64], [int],
    [json.Number], [[]any] and [map[string]any]. *)
Inductive any : Type :=
| Nil
| Str (s : string)
| Bool (b : bool)
| Float64 (f : SpecFloat.spec_float)
| Int (z : Z)
| Number (s : string)
| Slice (l : list any)
| Map (m : gmap string any).

Definition ACPToolNamePrefix : string := "mcp__acp__".

(** ** tools.go: parsing a unified diff, describing a tool call *)

Module tools.

(** toolsDiffHunk represents a single hunk in a unified diff. *)
Record toolsDiffHunk : Type := mkHunk {
  newStart : Z;
  lines : list string
}.

(** toolsDiffPatch represents a parsed unified diff patch. *)
Record toolsDiffPatch : Type := mkPatch {
  oldFileName : string;
  newFileName : string;
  hunks : list toolsDiffHunk
}.

(** A Go [int] is 64 bits wide; arithmetic wraps around. *)
Definition wrap64 (z : Z) : Z := ((z + 2 ^ 63) mod 2 ^ 64 - 2 ^ 63)%Z.

Definition isDigit (c : ascii) : bool :=
  (48 <=? nat_of_ascii c)%nat && (nat_of_ascii c <=? 57)%nat.

(** The digit loop of [parseHunkHeader]: stops at the first byte that is
    not a decimal digit. *)
Fixpoint leadingNumber (n : Z) (numStr : string) : Z :=
  match numStr with
  | EmptyString => n
  | String c rest =>
      if isDigit c
      then leadingNumber (wrap64 (n * 10 + (Z.of_nat (nat_of_ascii c) - 48))) rest
      else n
  end.

(** parseHunkHeader extracts the new start line from a @@ hunk header. *)
Definition parseHunkHeader (line : string) : Z :=
  match strings.Index line "+" with
  | None => 1%Z
  | Some i =>
      let numStr := strings.SplitN2_first (strings.from (i + 1) line) "," in
      let numStr := strings.SplitN2_first numStr " " in
      let n := leadingNumber 0 numStr in
      if (n =? 0)%Z then 1%Z else n
  end.

(** The parser's state: the finished patches, the patch being read and
    the hunk being read. *)
Definition parseState : Type :=
  (list toolsDiffPatch * option toolsDiffPatch * option toolsDiffHunk)%type.

Definition closeHunk (current : toolsDiffPatch) (currentHunk : option toolsDiffHunk)
    : toolsDiffPatch :=
  match currentHunk with
  | Some h => {| oldFileName := current.(oldFileName);
                 newFileName := current.(newFileName);
                 hunks := append1 current.(hunks) h |}
  | None => current
  end.

Definition parseLine (st : parseState) (line : string) : parseState :=
  let '(patches, current, currentHunk) := st in
  let bodyLine :=
    match currentHunk with
    | Some h =>
        if strings.HasPrefix line "+" || strings.HasPrefix line "-"
           || strings.HasPrefix line " "
        then (patches, current, Some (mkHunk h.(newStart) (append1 h.(lines) line)))
        else st
    | None => st
    end in
  if strings.HasPrefix line "--- " then
    let patches' := match current with
                    | Some cur => append1 patches (closeHunk cur currentHunk)
                    | None => patches
                    end in
    (patches', Some (mkPatch (strings.TrimPrefix line "--- ") EmptyString []), None)
  else
    match current with
    | Some cur =>
        if strings.HasPrefix line "+++ " then
          (patches,
           Some {| oldFileName := cur.(oldFileName);
                   newFileName := strings.TrimPrefix line "+++ ";
                   hunks := cur.(hunks) |},
           currentHunk)
        else if strings.HasPrefix line "@@" then
          (patches, Some (closeHunk cur currentHunk),
           Some (mkHunk (parseHunkHeader line) []))
        else bodyLine
    | None => bodyLine
    end.

(** parseUnifiedDiff parses a unified diff string into patches. *)
Definition parseUnifiedDiff (text : string) : list toolsDiffPatch :=
  let lines := strings.SplitByte text LF in
  let '(patches, current, currentHunk) :=
    fold_left parseLine lines ([], None, None) in
  match current with
  | Some cur => append1 patches (closeHunk cur currentHunk)
  | None => patches
  end.

(** The old and new sides of a parsed hunk, as [toolUpdateFromToolResult]
    splits them: removed lines are old text, added lines are new text,
    any other non-empty line is both. *)
Definition hunkSides (h : toolsDiffHunk) : list string * list string :=
  fold_left
    (fun '(oldLines, newLines) line =>
       if strings.HasPrefix line "-" then (append1 oldLines (strings.from 1 line), newLines)
       else if strings.HasPrefix line "+" then (oldLines, append1 newLines (strings.from 1 line))
       else if (0 <? String.length line)%nat
            then (append1 oldLines (strings.from 1 line), append1 newLines (strings.from 1 line))
            else (oldLines, newLines))
    h.(lines) ([], []).

(** The added and the removed lines of a hunk, without their markers. *)
Definition addedLines (hunkLines : list string) : list string :=
  map (strings.from 1) (filter (fun l => strings.HasPrefix l "+") hunkLines).

Definition removedLines (hunkLines : list string) : list string :=
  map (strings.from 1) (filter (fun l => strings.HasPrefix l "-") hunkLines).

(** The closed set of kinds of a tool call ([acp.ToolKind]). *)
Inductive ToolKind : Type :=
| ToolKindRead
| ToolKindEdit
| ToolKindDelete
| ToolKindMove
| ToolKindSearch
| ToolKindExecute
| ToolKindThink
| ToolKindFetch
| ToolKindSwitchMode
| ToolKindOther.

(** The content blocks a tool-call start carries:
    [acp.ToolContent(acp.TextBlock(text))] and
    [acp.ToolDiffContent(path, newText, oldText...)]. *)
Inductive ToolCallContent : Type :=
| ToolContentText (text : string)
| ToolDiffContent (path newText : string) (oldText : option string).

Record ToolCallLocation : Type := mkLocation {
  Path : string;
  Line : option Z
}.

Record ToolInfo : Type := mkToolInfo {
  Title : string;
  Kind : ToolKind;
  Content : list ToolCallContent;
  Locations : list ToolCallLocation
}.

(** inputStr safely extracts a string value from a map. *)
Definition inputStr (input : gmap string any) (key : string) : string :=
  match input !! key with
  | Some (Str s) => s
  | _ => EmptyString
  end.

Definition minInt : Z := (- 2 ^ 63)%Z.

(** [int(n)] for a [float64]: the fraction is discarded.  Where the
    value does not fit an [int] Go leaves the result to the
    implementation; it is taken here as on amd64, the smallest [int]. *)
Definition float64_to_int (f : spec_float) : Z :=
  match f with
  | S754_zero _ => 0%Z
  | S754_finite sign m e =>
      let mag := if (0 <=? e)%Z then (Z.pos m * 2 ^ e)%Z
                 else (Z.pos m / 2 ^ (- e))%Z in
      let z := if sign then (- mag)%Z else mag in
      if (minInt <=? z)%Z && (z <? 2 ^ 63)%Z then z else minInt
  | _ => minInt
  end.

Fixpoint digitsValue (acc : Z) (s : string) : option Z :=
  match s with
  | EmptyString => Some acc
  | String c rest =>
      if isDigit c
      then digitsValue (acc * 10 + (Z.of_nat (nat_of_ascii c) - 48))%Z rest
      else None
  end.

(** [json.Number.Int64]: [strconv.ParseInt(s, 10, 64)]. *)
Definition Number_Int64 (s : string) : option Z :=
  let '(neg, digits) :=
    match s with
    | String "-" rest => (true, rest)
    | String "+" rest => (false, rest)
    | _ => (false, s)
    end in
  if String.eqb digits EmptyString then None
  else match digitsValue 0 digits with
       | Some v =>
           let z := if neg then (- v)%Z else v in
           if (minInt <=? z)%Z && (z <? 2 ^ 63)%Z then Some z else None
       | None => None
       end.

(** inputInt safely extracts an int value from a map; [None] stands for
    the pair [(0, false)]. *)
Definition inputInt (input : gmap string any) (key : string) : option Z :=
  match input !! key with
  | Some (Float64 n) => Some (float64_to_int n)
  | Some (Int n) => Some n
  | Some (Number n) => Number_Int64 n
  | _ => None
  end.

(** inputBool safely extracts a bool value from a map. *)
Definition inputBool (input : gmap string any) (key : string) : bool :=
  match input !! key with
  | Some (Bool b) => b
  | _ => false
  end.

(** inputStrSlice safely extracts a []string from a map; a value that is
    not a slice gives no strings. *)
Definition inputStrSlice (input : gmap string any) (key : string) : list string :=
  match input !! key with
  | Some (Slice arr) =>
      flat_map (fun item => match item with Str s => [s] | _ => [] end) arr
  | _ => []
  end.

Definition nonEmpty (s : string) : bool := negb (String.eqb s EmptyString).

(** A [case] of a [switch] with several values. *)
Definition slices_mem (v : string) (s : list string) : bool := existsb (String.eqb v) s.

Definition textIf (s : string) : list ToolCallContent :=
  if nonEmpty s then [ToolContentText s] else [].

Definition locationIf (path : string) : list ToolCallLocation :=
  if nonEmpty path then [mkLocation path None] else [].

Definition readLocation (input : gmap string any) (filePath : string)
    : list ToolCallLocation :=
  if nonEmpty filePath then
    [mkLocation filePath
       (Some (match inputInt input "offset" with Some offset => offset | None => 0%Z end))]
  else [].

Definition grepLabel (input : gmap string any) : string :=
  let label := "grep" in
  let label := if inputBool input "-i" then label ++ " -i" else label in
  let label := if inputBool input "-n" then label ++ " -n" else label in
  let label := match inputInt input "-A" with
               | Some a => label ++ " -A " ++ fmt.d a | None => label end in
  let label := match inputInt input "-B" with
               | Some b => label ++ " -B " ++ fmt.d b | None => label end in
  let label := match inputInt input "-C" with
               | Some c => label ++ " -C " ++ fmt.d c | None => label end in
  let label :=
    let om := inputStr input "output_mode" in
    if String.eqb om "FilesWithMatches" then label ++ " -l"
    else if String.eqb om "Count" then label ++ " -c"
    else label in
  let label := match inputInt input "head_limit" with
               | Some hl => label ++ " | head -" ++ fmt.d hl | None => label end in
  let label := let g := inputStr input "glob" in
               if nonEmpty g then label ++ " --include=" ++ dq ++ g ++ dq else label in
  let label := let t := inputStr input "type" in
               if nonEmpty t then label ++ " --type=" ++ t else label in
  let label := if inputBool input "multiline" then label ++ " -P" else label in
  let label := let pat := inputStr input "pattern" in
               if nonEmpty pat then label ++ " " ++ dq ++ pat ++ dq else label in
  let label := let p := inputStr input "path" in
               if nonEmpty p then label ++ " " ++ p else label in
  label.

Definition todoTitle (input : gmap string any) : string :=
  match input !! "todos" with
  | Some (Slice todos) =>
      let parts :=
        flat_map (fun t => match t with
                           | Map m => let c := inputStr m "content" in
                                      if nonEmpty c then [c] else []
                           | _ => []
                           end) todos in
      if (0 <? length parts)%nat
      then "Update TODOs: " ++ strings.Join parts ", "
      else "Update TODOs"
  | _ => "Update TODOs"
  end.

Section ToolInfoFromToolUse.

(** [json.MarshalIndent(input, "", "  ")] of the standard library;
    [None] when it returns an error. *)
Variable json_MarshalIndent : gmap string any -> option string.

(** toolInfoFromToolUse converts a tool use name and input to ACP
    ToolInfo. *)
Definition toolInfoFromToolUse (name : string) (input : gmap string any) : ToolInfo :=
  let named := String.eqb name in
  if named "Task" then
    let d := inputStr input "description" in
    mkToolInfo (if nonEmpty d then d else "Task") ToolKindThink
               (textIf (inputStr input "prompt")) []
  else if named "NotebookRead" then
    let path := inputStr input "notebook_path" in
    mkToolInfo (if nonEmpty path then "Read Notebook " ++ path else "Read Notebook")
               ToolKindRead [] (locationIf path)
  else if named "NotebookEdit" then
    let path := inputStr input "notebook_path" in
    mkToolInfo (if nonEmpty path then "Edit Notebook " ++ path else "Edit Notebook")
               ToolKindEdit (textIf (inputStr input "new_source")) (locationIf path)
  else if named "Bash" || named (ACPToolNamePrefix ++ "Bash") then
    let cmd := inputStr input "command" in
    mkToolInfo (if nonEmpty cmd
                then "`" ++ strings.ReplaceAllByte cmd "`" (String BACKSLASH "`") ++ "`"
                else "Terminal")
               ToolKindExecute (textIf (inputStr input "description")) []
  else if named "BashOutput" || named (ACPToolNamePrefix ++ "BashOutput") then
    mkToolInfo "Tail Logs" ToolKindExecute [] []
  else if named "KillShell" || named (ACPToolNamePrefix ++ "KillShell") then
    mkToolInfo "Kill Process" ToolKindExecute [] []
  else if named (ACPToolNamePrefix ++ "Read") then
    let filePath := inputStr input "file_path" in
    let limit := inputInt input "limit" in
    let offset := inputInt input "offset" in
    let fromLine :=
      match offset with
      | Some o => if (o >? 0)%Z
                  then " (from line " ++ fmt.d (wrap64 (o + 1)) ++ ")"
                  else EmptyString
      | None => EmptyString
      end in
    let lineRange :=
      match limit with
      | Some l =>
          if (l >? 0)%Z then
            let start := match offset with
                         | Some o => wrap64 (o + 1)
                         | None => 1%Z
                         end in
            " (" ++ fmt.d start ++ " - " ++ fmt.d (wrap64 (wrap64 (start + l) - 1)) ++ ")"
          else fromLine
      | None => fromLine
      end in
    mkToolInfo ("Read " ++ (if nonEmpty filePath then filePath else "File") ++ lineRange)
               ToolKindRead [] (readLocation input filePath)
  else if named "Read" then
    mkToolInfo "Read File" ToolKindRead []
               (readLocation input (inputStr input "file_path"))
  else if named "LS" then
    let path := inputStr input "path" in
    mkToolInfo ("List the " ++ (if nonEmpty path then "`" ++ path ++ "`" else "current")
                ++ " directory's contents")
               ToolKindSearch [] []
  else if named (ACPToolNamePrefix ++ "Edit") || named "Edit" then
    let filePath := inputStr input "file_path" in
    let content :=
      if nonEmpty filePath then
        let newStr := inputStr input "new_string" in
        match input !! "old_string" with
        | Some _ => [ToolDiffContent filePath newStr (Some (inputStr input "old_string"))]
        | None => [ToolDiffContent filePath newStr None]
        end
      else [] in
    mkToolInfo (if nonEmpty filePath then "Edit `" ++ filePath ++ "`" else "Edit")
               ToolKindEdit content (locationIf filePath)
  else if named (ACPToolNamePrefix ++ "Write") then
    let filePath := inputStr input "file_path" in
    let fileContent := inputStr input "content" in
    let content :=
      if nonEmpty filePath then [ToolDiffContent filePath fileContent None]
      else textIf fileContent in
    mkToolInfo (if nonEmpty filePath then "Write " ++ filePath else "Write")
               ToolKindEdit content (locationIf filePath)
  else if named "Write" then
    let filePath := inputStr input "file_path" in
    let fileContent := inputStr input "content" in
    let content :=
      if nonEmpty filePath then [ToolDiffContent filePath fileContent None] else [] in
    mkToolInfo (if nonEmpty filePath then "Write " ++ filePath else "Write")
               ToolKindEdit content (locationIf filePath)
  else if named "Glob" then
    let p := inputStr input "path" in
    let pat := inputStr input "pattern" in
    let label := "Find" in
    let label := if nonEmpty p then label ++ " `" ++ p ++ "`" else label in
    let label := if nonEmpty pat then label ++ " `" ++ pat ++ "`" else label in
    mkToolInfo label ToolKindSearch [] (locationIf p)
  else if named "Grep" then
    mkToolInfo (grepLabel input) ToolKindSearch [] []
  else if named "WebFetch" then
    let url := inputStr input "url" in
    mkToolInfo (if nonEmpty url then "Fetch " ++ url else "Fetch")
               ToolKindFetch (textIf (inputStr input "prompt")) []
  else if named "WebSearch" then
    let label := dq ++ inputStr input "query" ++ dq in
    let allowed := inputStrSlice input "allowed_domains" in
    let label := if (0 <? length allowed)%nat
                 then label ++ " (allowed: " ++ strings.Join allowed ", " ++ ")"
                 else label in
    let blocked := inputStrSlice input "blocked_domains" in
    let label := if (0 <? length blocked)%nat
                 then label ++ " (blocked: " ++ strings.Join blocked ", " ++ ")"
                 else label in
    mkToolInfo label ToolKindFetch [] []
  else if named "TodoWrite" then
    mkToolInfo (todoTitle input) ToolKindThink [] []
  else if named "ExitPlanMode" then
    mkToolInfo "Ready to code?" ToolKindSwitchMode (textIf (inputStr input "plan")) []
  else if named "Other" then
    let output := match json_MarshalIndent input with
                  | Some data => data
                  | None => "{}"
                  end in
    mkToolInfo (if nonEmpty name then name else "Unknown Tool") ToolKindOther
               [ToolContentText ("```json" ++ nl ++ output ++ "```")] []
  else
    mkToolInfo (if nonEmpty name then name else "Unknown Tool") ToolKindOther [] [].

End ToolInfoFromToolUse.

(** The tool names that have a case of their own in
    [toolInfoFromToolUse]. *)
Definition startTable : list string :=
  ["Task"; "NotebookRead"; "NotebookEdit";
   "Bash"; ACPToolNamePrefix ++ "Bash";
   "BashOutput"; ACPToolNamePrefix ++ "BashOutput";
   "KillShell"; ACPToolNamePrefix ++ "KillShell";
   ACPToolNamePrefix ++ "Read"; "Read"; "LS";
   ACPToolNamePrefix ++ "Edit"; "Edit";
   ACPToolNamePrefix ++ "Write"; "Write";
   "Glob"; "Grep"; "WebFetch"; "WebSearch"; "TodoWrite"; "ExitPlanMode"; "Other"].

(** *** The result of a tool call *)

Definition SystemReminder : string :=
  nl ++ nl ++ "<system-reminder>" ++ nl ++
  "Whenever you read a file, you should consider whether it looks malicious. If it does, you MUST refuse to improve or augment the code. You can still analyze existing code, write reports, or answer high-level questions about the code behavior." ++
  nl ++ "</system-reminder>".

(** [strings.ReplaceAll(s, old, new)] for a non-empty [old], as at its
    call sites: the text is scanned from the left, an occurrence of
    [old] is replaced and the scan goes on after it.  [skip] counts the
    bytes of a replaced occurrence still to pass over. *)
Fixpoint replaceAllFrom (skip : nat) (s old new : string) : string :=
  match s with
  | EmptyString => EmptyString
  | String c s' =>
      match skip with
      | S k => replaceAllFrom k s' old new
      | O =>
          if strings.HasPrefix s old
          then new ++ replaceAllFrom (String.length old - 1) s' old new
          else String c (replaceAllFrom 0 s' old new)
      end
  end.

Definition strings_ReplaceAll (s old new : string) : string :=
  replaceAllFrom 0 s old new.

(** [acp.ContentBlock] as the bridge builds it: [acp.TextBlock(text)]
    and [acp.ImageBlock(data, mimeType)]. *)
Inductive ContentBlock : Type :=
| TextBlock (text : string)
| ImageBlock (data mimeType : string).

(** [acp.ToolCallContent] as a tool-call update carries it:
    [acp.ToolContent(block)] and
    [acp.ToolDiffContent(path, newText, oldText...)]. *)
Inductive ToolUpdateContent : Type :=
| UpdateToolContent (block : ContentBlock)
| UpdateToolDiffContent (path newText : string) (oldText : option string).

(** ToolUpdate: the fields [Title], [Content] and [Locations]. *)
Record ToolUpdate : Type := mkToolUpdate {
  UpdateTitle : option string;
  UpdateContent : list ToolUpdateContent;
  UpdateLocations : list ToolCallLocation
}.

(** ToolUseEntry; [Input] is nil when the block had no object as
    input. *)
Record ToolUseEntry : Type := mkToolUseEntry {
  EntryType : string;
  ID : string;
  Name : string;
  Input : option (gmap string any)
}.

Definition wrapText (isError : bool) (text : string) : ContentBlock :=
  if isError then TextBlock ("```" ++ nl ++ text ++ nl ++ "```") else TextBlock text.

Definition errorText (content : gmap string any) : string :=
  let code := inputStr content "error_code" in
  let msg := inputStr content "error_message" in
  let text := "Error: " ++ code in
  if nonEmpty msg then text ++ " - " ++ msg else text.

Section ToolResults.

(** [json.Marshal] of the standard library; [None] when it returns an
    error. *)
Variable json_Marshal : gmap string any -> option string.

(** toAcpContentBlock converts a tool result content block to an ACP
    ContentBlock. *)
Definition toAcpContentBlock (content : gmap string any) (isError : bool) : ContentBlock :=
  let contentType := inputStr content "type" in
  let named := String.eqb contentType in
  if named "text" then wrapText isError (inputStr content "text")
  else if named "image" then
    match content !! "source" with
    | Some (Map source) =>
        let srcType := inputStr source "type" in
        if String.eqb srcType "base64" then
          ImageBlock (inputStr source "data") (inputStr source "media_type")
        else if String.eqb srcType "url" then
          wrapText isError ("[image: " ++ inputStr source "url" ++ "]")
        else wrapText isError "[image: file reference]"
    | _ => wrapText isError "[image: file reference]"
    end
  else if named "tool_reference" then
    wrapText isError ("Tool: " ++ inputStr content "tool_name")
  else if named "web_search_result" then
    wrapText isError (inputStr content "title" ++ " (" ++ inputStr content "url" ++ ")")
  else if named "web_search_tool_result_error" then
    wrapText isError ("Error: " ++ inputStr content "error_code")
  else if named "web_fetch_result" then
    wrapText isError ("Fetched: " ++ inputStr content "url")
  else if named "web_fetch_tool_result_error" then
    wrapText isError ("Error: " ++ inputStr content "error_code")
  else if named "code_execution_result" || named "bash_code_execution_result" then
    let stdout := inputStr content "stdout" in
    let out := if String.eqb stdout EmptyString then inputStr content "stderr" else stdout in
    wrapText isError ("Output: " ++ out)
  else if named "code_execution_tool_result_error"
          || named "bash_code_execution_tool_result_error" then
    wrapText isError ("Error: " ++ inputStr content "error_code")
  else if named "text_editor_code_execution_view_result" then
    wrapText isError (inputStr content "content")
  else if named "text_editor_code_execution_create_result" then
    if inputBool content "is_file_update" then wrapText isError "File updated"
    else wrapText isError "File created"
  else if named "text_editor_code_execution_str_replace_result" then
    match content !! "lines" with
    | Some (Slice lines) =>
        wrapText isError
          (strings.Join
             (flat_map (fun l => match l with Str s => [s] | _ => [] end) lines) nl)
    | _ => wrapText isError EmptyString
    end
  else if named "text_editor_code_execution_tool_result_error" then
    wrapText isError (errorText content)
  else if named "tool_search_tool_search_result" then
    match content !! "tool_references" with
    | Some (Slice refs) =>
        let names :=
          flat_map (fun r => match r with
                             | Map m => match m !! "tool_name" with
                                        | Some (Str n) => [n]
                                        | _ => []
                                        end
                             | _ => []
                             end) refs in
        let result := if (0 <? length names)%nat then strings.Join names ", " else "none" in
        wrapText isError ("Tools found: " ++ result)
    | _ => wrapText isError "Tools found: none"
    end
  else if named "tool_search_tool_result_error" then
    wrapText isError (errorText content)
  else
    match json_Marshal content with
    | None => wrapText isError "{}"
    | Some data => wrapText isError data
    end.

Definition noUpdate : ToolUpdate := mkToolUpdate None [] [].

(** toAcpContentUpdate converts tool result content to ACP
    ToolCallContent slice. *)
Definition toAcpContentUpdate (content : any) (isError : bool) : ToolUpdate :=
  match content with
  | Slice c =>
      if (length c =? 0)%nat then noUpdate
      else
        let result :=
          flat_map (fun item => match item with
                                | Map m => [UpdateToolContent (toAcpContentBlock m isError)]
                                | _ => []
                                end) c in
        if (0 <? length result)%nat then mkToolUpdate None result [] else noUpdate
  | Map c =>
      match c !! "type" with
      | Some _ => mkToolUpdate None [UpdateToolContent (toAcpContentBlock c isError)] []
      | None => noUpdate
      end
  | Str c =>
      if String.eqb c EmptyString then noUpdate
      else
        let text := if isError then "```" ++ nl ++ c ++ nl ++ "```" else c in
        mkToolUpdate None [UpdateToolContent (TextBlock text)] []
  | _ => noUpdate
  end.

(** The text of a file read as it is shown: without the reminder, in a
    code fence. *)
Definition shownRead (text : string) : ToolUpdateContent :=
  UpdateToolContent
    (TextBlock (markdownEscape (strings_ReplaceAll text SystemReminder EmptyString))).

(** What one hunk of a parsed patch adds to the update of an edit: a
    location and a diff block, unless the hunk has no lines. *)
Definition editHunkUpdate (p : toolsDiffPatch) (h : toolsDiffHunk)
    : list (ToolCallLocation * ToolUpdateContent) :=
  let '(oldLines, newLines) := hunkSides h in
  if (0 <? length oldLines)%nat || (0 <? length newLines)%nat then
    let fileName := if String.eqb p.(newFileName) EmptyString
                    then p.(oldFileName) else p.(newFileName) in
    let oldText := strings.Join oldLines nl in
    let newText := strings.Join newLines nl in
    [(mkLocation fileName (Some h.(newStart)),
      if negb (String.eqb oldText EmptyString)
      then UpdateToolDiffContent fileName newText (Some oldText)
      else UpdateToolDiffContent fileName newText None)]
  else [].

(** toolUpdateFromToolResult converts a tool result to an ACP
    ToolUpdate. *)
Definition toolUpdateFromToolResult (toolResult : gmap string any)
    (toolUse : option ToolUseEntry) : ToolUpdate :=
  let isError := inputBool toolResult "is_error" in
  let content := match toolResult !! "content" with
                 | Some v => v
                 | None => Nil
                 end in
  let errorWithContent :=
    isError && match content with
               | Slice arr => (0 <? length arr)%nat
               | Str s => negb (String.eqb s EmptyString)
               | _ => false
               end in
  if errorWithContent then toAcpContentUpdate content true
  else
    let toolName := match toolUse with
                    | Some entry => entry.(Name)
                    | None => EmptyString
                    end in
    let named := String.eqb toolName in
    if named "Read" || named (ACPToolNamePrefix ++ "Read") then
      match content with
      | Slice (first :: rest) =>
          let result :=
            flat_map (fun item =>
                        match item with
                        | Map m =>
                            match m !! "type" with
                            | Some (Str "text") => [shownRead (inputStr m "text")]
                            | _ => [UpdateToolContent (toAcpContentBlock m false)]
                            end
                        | _ => []
                        end) (first :: rest) in
          if (0 <? length result)%nat then mkToolUpdate None result [] else noUpdate
      | Str s =>
          if negb (String.eqb s EmptyString) then mkToolUpdate None [shownRead s] []
          else noUpdate
      | _ => noUpdate
      end
    else if named (ACPToolNamePrefix ++ "Edit") then
      let pairs :=
        match content with
        | Slice (Map first :: _) =>
            match first !! "text" with
            | Some (Str text) =>
                flat_map (fun p => flat_map (editHunkUpdate p) p.(hunks))
                         (parseUnifiedDiff text)
            | _ => []
            end
        | _ => []
        end in
      mkToolUpdate None (map snd pairs) (map fst pairs)
    else if named (ACPToolNamePrefix ++ "Bash") || named "edit" || named "Edit"
            || named (ACPToolNamePrefix ++ "Write") || named "Write" then
      noUpdate
    else if named "ExitPlanMode" then
      mkToolUpdate (Some "Exited Plan Mode") [] []
    else toAcpContentUpdate content isError.

End ToolResults.

(** *** Session notifications *)

(** ClaudePlanEntry: the fields [Content], [Status] and [ActiveForm]. *)
Record ClaudePlanEntry : Type := mkClaudePlanEntry {
  TodoContent : string;
  TodoStatus : string;
  TodoActiveForm : string
}.

Inductive PlanEntryStatus : Type :=
| PlanEntryStatusPending
| PlanEntryStatusInProgress
| PlanEntryStatusCompleted.

Inductive PlanEntryPriority : Type :=
| PlanEntryPriorityHigh
| PlanEntryPriorityMedium
| PlanEntryPriorityLow.

(** [acp.PlanEntry]. *)
Record PlanEntry : Type := mkPlanEntry {
  EntryContent : string;
  EntryStatus : PlanEntryStatus;
  EntryPriority : PlanEntryPriority
}.

(** planEntries converts Claude plan entries to ACP PlanEntry format. *)
Definition planEntries (todos : list ClaudePlanEntry) : list PlanEntry :=
  map (fun t =>
         let status :=
           if String.eqb t.(TodoStatus) "in_progress" then PlanEntryStatusInProgress
           else if String.eqb t.(TodoStatus) "completed" then PlanEntryStatusCompleted
           else PlanEntryStatusPending in
         mkPlanEntry t.(TodoContent) status PlanEntryPriorityMedium) todos.

Inductive ToolCallStatus : Type :=
| ToolCallStatusPending
| ToolCallStatusInProgress
| ToolCallStatusCompleted
| ToolCallStatusFailed.

(** The [claudeCode] object of the meta data of a tool call. *)
Record ToolMeta : Type := mkToolMeta {
  metaToolName : string;
  metaParentToolCallId : option string
}.

(** [acp.SessionUpdate] as the bridge builds it: message and thought
    chunks, a plan, [acp.StartToolCall(id, title, opts...)] and
    [acp.UpdateToolCall(id, opts...)] with the options it passes. *)
Inductive SessionUpdate : Type :=
| AgentMessageChunk (block : ContentBlock)
| UserMessageChunk (block : ContentBlock)
| AgentThoughtChunk (block : ContentBlock)
| PlanUpdate (entries : list PlanEntry)
| ToolCallStart (id title : string) (kind : ToolKind) (status : ToolCallStatus)
    (content : list ToolCallContent) (locations : list ToolCallLocation)
    (rawInput : option (gmap string any)) (meta : ToolMeta)
| ToolCallUpdate (id : string) (status : ToolCallStatus) (rawOutput : any)
    (title : option string) (content : list ToolUpdateContent)
    (locations : list ToolCallLocation) (meta : ToolMeta).

Record SessionNotification : Type := mkNotification {
  SessionId : string;
  Update : SessionUpdate
}.

(** [m[key].(map[string]any)]. *)
Definition inputMap (m : gmap string any) (key : string) : option (gmap string any) :=
  match m !! key with
  | Some (Map x) => Some x
  | _ => None
  end.

Definition messageUpdate (role : string) (block : ContentBlock) : SessionUpdate :=
  if String.eqb role "assistant" then AgentMessageChunk block else UserMessageChunk block.

Definition todosOf (todosRaw : list any) : list ClaudePlanEntry :=
  flat_map (fun t => match t with
                     | Map m => [mkClaudePlanEntry (inputStr m "content")
                                   (inputStr m "status") (inputStr m "activeForm")]
                     | _ => []
                     end) todosRaw.

Definition toolUseTypes : list string := ["tool_use"; "server_tool_use"; "mcp_tool_use"].

Definition toolResultTypes : list string :=
  ["tool_result"; "tool_search_tool_result"; "web_fetch_tool_result";
   "web_search_tool_result"; "code_execution_tool_result";
   "bash_code_execution_tool_result"; "text_editor_code_execution_tool_result";
   "mcp_tool_result"].

Section Notifications.

Variable json_MarshalIndent : gmap string any -> option string.
Variable json_Marshal : gmap string any -> option string.

(** One iteration of the loop of [toAcpNotifications] over the blocks,
    on the output and the tool-use cache. *)
Definition notifyBlock (role sessionID : string) (parentToolCallID : option string)
    (st : list SessionNotification * gmap string ToolUseEntry) (block : any)
    : list SessionNotification * gmap string ToolUseEntry :=
  let '(output, toolUseCache) := st in
  match block with
  | Map chunk =>
      let chunkType := inputStr chunk "type" in
      let named := String.eqb chunkType in
      if named "text" || named "text_delta" then
        (append1 output
           (mkNotification sessionID
              (messageUpdate role (TextBlock (inputStr chunk "text")))),
         toolUseCache)
      else if named "image" then
        match inputMap chunk "source" with
        | Some source =>
            if String.eqb (inputStr source "type") "base64" then
              (append1 output
                 (mkNotification sessionID
                    (messageUpdate role
                       (ImageBlock (inputStr source "data")
                                   (inputStr source "media_type")))),
               toolUseCache)
            else (output, toolUseCache)
        | None => (output, toolUseCache)
        end
      else if named "thinking" || named "thinking_delta" then
        (append1 output
           (mkNotification sessionID
              (AgentThoughtChunk (TextBlock (inputStr chunk "thinking")))),
         toolUseCache)
      else if slices_mem chunkType toolUseTypes then
        let id := inputStr chunk "id" in
        let name := inputStr chunk "name" in
        let inputRaw := inputMap chunk "input" in
        let toolUseCache := <[id := mkToolUseEntry chunkType id name inputRaw]> toolUseCache in
        if String.eqb name "TodoWrite" then
          match inputRaw with
          | Some input =>
              match input !! "todos" with
              | Some (Slice todosRaw) =>
                  let todos := todosOf todosRaw in
                  if (0 <? length todos)%nat then
                    (append1 output
                       (mkNotification sessionID (PlanUpdate (planEntries todos))),
                     toolUseCache)
                  else (output, toolUseCache)
              | _ => (output, toolUseCache)
              end
          | None => (output, toolUseCache)
          end
        else
          let info := toolInfoFromToolUse json_MarshalIndent name
                        (match inputRaw with Some input => input | None => ∅ end) in
          (append1 output
             (mkNotification sessionID
                (ToolCallStart id info.(Title) info.(Kind) ToolCallStatusPending
                   info.(Content) info.(Locations) inputRaw
                   (mkToolMeta name parentToolCallID))),
           toolUseCache)
      else if slices_mem chunkType toolResultTypes then
        let toolUseID := inputStr chunk "tool_use_id" in
        match toolUseCache !! toolUseID with
        | None => (output, toolUseCache)
        | Some cachedToolUse =>
            if String.eqb cachedToolUse.(Name) "TodoWrite" then (output, toolUseCache)
            else
              let status := if inputBool chunk "is_error"
                            then ToolCallStatusFailed else ToolCallStatusCompleted in
              let tu := toolUpdateFromToolResult json_Marshal chunk (Some cachedToolUse) in
              (append1 output
                 (mkNotification sessionID
                    (ToolCallUpdate toolUseID status
                       (match chunk !! "content" with Some v => v | None => Nil end)
                       tu.(UpdateTitle) tu.(UpdateContent) tu.(UpdateLocations)
                       (mkToolMeta cachedToolUse.(Name) parentToolCallID))),
               toolUseCache)
        end
      else (output, toolUseCache)
  | _ => (output, toolUseCache)
  end.

(** toAcpNotifications converts Claude messages to ACP
    SessionNotification slices; the second component is the tool-use
    cache after the call. *)
Definition toAcpNotifications (content : any) (role sessionID : string)
    (toolUseCache : gmap string ToolUseEntry) (parentToolCallID : option string)
    : list SessionNotification * gmap string ToolUseEntry :=
  match content with
  | Str text =>
      ([mkNotification sessionID (messageUpdate role (TextBlock text))], toolUseCache)
  | Slice blocks =>
      fold_left (notifyBlock role sessionID parentToolCallID) blocks ([], toolUseCache)
  | _ => ([], toolUseCache)
  end.

(** streamEventToAcpNotifications converts Claude stream events to ACP
    notifications. *)
Definition streamEventToAcpNotifications (msg : gmap string any) (sessionID : string)
    (toolUseCache : gmap string ToolUseEntry) (parentToolCallID : option string)
    : list SessionNotification * gmap string ToolUseEntry :=
  match inputMap msg "event" with
  | None => ([], toolUseCache)
  | Some event =>
      let eventType := inputStr event "type" in
      if String.eqb eventType "content_block_start" then
        match inputMap event "content_block" with
        | None => ([], toolUseCache)
        | Some contentBlock =>
            toAcpNotifications (Slice [Map contentBlock]) "assistant" sessionID
              toolUseCache parentToolCallID
        end
      else if String.eqb eventType "content_block_delta" then
        match inputMap event "delta" with
        | None => ([], toolUseCache)
        | Some delta =>
            toAcpNotifications (Slice [Map delta]) "assistant" sessionID
              toolUseCache parentToolCallID
        end
      else ([], toolUseCache)
  end.

End Notifications.

End tools.

(** ** settings.go: the permission rule engine *)

Module settings.

(** PermissionSettings holds permission rules from a settings file. *)
Record PermissionSettings : Type := mkPermissionSettings {
  Allow : list string;
  Deny : list string;
  Ask : list string;
  AdditionalDirectories : list string;
  DefaultMode : string
}.

(** ClaudeCodeSettings represents the structure of a Claude Code
    settings file.  [Permissions] is a pointer and [Env] a map that can
    be nil. *)
Record ClaudeCodeSettings : Type := mkClaudeCodeSettings {
  Permissions : option PermissionSettings;
  Env : option (gmap string string);
  Model : string
}.

(** PermissionDecision represents the outcome of a permission check. *)
Inductive PermissionDecision : Type :=
| PermissionAllow
| PermissionDeny
| PermissionAsk.

(** PermissionCheckResult holds the result of checking a tool invocation
    against the loaded permission rules. *)
Record PermissionCheckResult : Type := mkResult {
  Decision : PermissionDecision;
  Rule : string;
  Source : string
}.

(** parsedRule is the internal representation of a parsed permission
    rule string. *)
Record parsedRule : Type := mkRule {
  toolName : string;
  argument : string;
  isWildcard : bool
}.

Definition shellOperators : list string :=
  ["&&"; "||"; ";"; "|"; "$("; "`"; nl].

Definition fileEditingTools : list string :=
  [ACPToolNamePrefix ++ "Edit"; ACPToolNamePrefix ++ "Write"].

Definition fileReadingTools : list string :=
  [ACPToolNamePrefix ++ "Read"].

Definition slices_Contains (s : list string) (v : string) : bool :=
  existsb (String.eqb v) s.

(** getStringArg safely extracts a string value from a map. *)
Definition getStringArg (input : gmap string any) (key : string) : string :=
  match input !! key with
  | Some (Str s) => s
  | _ => EmptyString
  end.

(** toolArgAccessors maps tool names to functions that extract the
    relevant argument from tool input for permission matching. *)
Definition toolArgAccessors (name : string) : option (gmap string any -> string) :=
  if String.eqb name (ACPToolNamePrefix ++ "Read") then
    Some (fun input => getStringArg input "file_path")
  else if String.eqb name (ACPToolNamePrefix ++ "Edit") then
    Some (fun input => getStringArg input "file_path")
  else if String.eqb name (ACPToolNamePrefix ++ "Write") then
    Some (fun input => getStringArg input "file_path")
  else if String.eqb name (ACPToolNamePrefix ++ "Bash") then
    Some (fun input => getStringArg input "command")
  else None.

(** [\w] of Go's regexp syntax: [0-9A-Za-z_]. *)
Definition isWordByte (c : ascii) : bool :=
  let n := nat_of_ascii c in
  ((48 <=? n) && (n <=? 57) || (65 <=? n) && (n <=? 90) ||
   (97 <=? n) && (n <=? 122) || (n =? 95))%nat.

Fixpoint wordRun (s : string) : nat :=
  match s with
  | String c s' => if isWordByte c then S (wordRun s') else O
  | EmptyString => O
  end.

(** [ruleRegexp.FindStringSubmatch] for [^(\w+)(?:\((.+)\))?$]: groups 1
    and 2 of the match, or [None].  The name is the longest run of word
    bytes (the byte after it must be [(] or the end, neither a word
    byte); what follows is either nothing or a parenthesised, non-empty
    argument free of newlines ([.] does not match a newline) that ends
    the text. *)
Definition ruleRegexp_FindStringSubmatch (rule : string) : option (string * string) :=
  let k := wordRun rule in
  let rest := strings.from k rule in
  if (k =? 0)%nat then None
  else if String.eqb rest EmptyString then Some (strings.upto k rule, EmptyString)
  else
    let arg := strings.upto (String.length rest - 2) (strings.from 1 rest) in
    if strings.HasPrefix rest "(" && strings.HasSuffix rest ")"
       && (3 <=? String.length rest)%nat && negb (strings.Contains arg nl)
    then Some (strings.upto k rule, arg)
    else None.

(** parseRule parses a permission rule string into its components. *)
Definition parseRule (rule : string) : parsedRule :=
  match ruleRegexp_FindStringSubmatch rule with
  | None => mkRule rule EmptyString false
  | Some (toolName, argument) =>
      if negb (String.eqb argument EmptyString) && strings.HasSuffix argument ":*"
      then mkRule toolName (strings.upto (String.length argument - 2) argument) true
      else mkRule toolName argument false
  end.

(** containsShellOperator checks if a string contains shell operators
    that could allow command chaining. *)
Definition containsShellOperator (str : string) : bool :=
  existsb (fun op => strings.Contains str op) shellOperators.

(** What the rule engine takes from outside the repository: the home
    directory ([None] when [os.UserHomeDir] fails), [runtime.GOOS], the
    [path/filepath] functions of the platform, and the glob library
    ([glob.Compile(pattern, '/')] followed by [Match]; [None] when the
    pattern does not compile). *)
Record Platform : Type := mkPlatform {
  os_UserHomeDir : option string;
  runtime_GOOS : string;
  filepath_Join : string -> string -> string;
  filepath_IsAbs : string -> bool;
  filepath_Clean : string -> string;
  glob_Match : string -> string -> option bool
}.

(** The state of a SettingsManager that a permission check reads. *)
Record SettingsManager : Type := mkSettingsManager {
  cwd : string;
  userSettings : ClaudeCodeSettings;
  projectSettings : ClaudeCodeSettings;
  localSettings : ClaudeCodeSettings;
  enterpriseSettings : ClaudeCodeSettings;
  mergedSettings : ClaudeCodeSettings
}.

Section RuleEngine.

Variable P : Platform.

(** normalizePath normalizes a file path for comparison. *)
Definition normalizePath (filePath cwd : string) : string :=
  let filePath :=
    if strings.HasPrefix filePath "~/" then
      match P.(os_UserHomeDir) with
      | Some home => P.(filepath_Join) home (strings.from 2 filePath)
      | None => filePath
      end
    else if strings.HasPrefix filePath "./" then
      P.(filepath_Join) cwd (strings.from 2 filePath)
    else if negb (P.(filepath_IsAbs) filePath) then
      P.(filepath_Join) cwd filePath
    else filePath in
  let cleaned := P.(filepath_Clean) filePath in
  if String.eqb P.(runtime_GOOS) "windows"
  then strings.ReplaceAllByte cleaned BACKSLASH "/"
  else cleaned.

(** matchesGlob checks if a file path matches a glob pattern. *)
Definition matchesGlob (pattern filePath cwd : string) : bool :=
  let normalizedPattern := normalizePath pattern cwd in
  let normalizedPath := normalizePath filePath cwd in
  match P.(glob_Match) normalizedPattern normalizedPath with
  | None => false
  | Some b => b
  end.

(** matchesRule checks if a tool invocation matches a parsed permission
    rule. *)
Definition matchesRule (rule : parsedRule) (tool : string)
    (toolInput : gmap string any) (cwd : string) : bool :=
  let ruleAppliesToTool :=
    if String.eqb rule.(toolName) "Bash" then
      String.eqb tool (ACPToolNamePrefix ++ "Bash")
    else if String.eqb rule.(toolName) "Edit" then
      slices_Contains fileEditingTools tool
    else if String.eqb rule.(toolName) "Read" then
      slices_Contains fileReadingTools tool
    else false in
  if negb ruleAppliesToTool then false
  else if String.eqb rule.(argument) EmptyString then true
  else
    match toolArgAccessors tool with
    | None => true
    | Some argAccessor =>
        let actualArg := argAccessor toolInput in
        if String.eqb actualArg EmptyString then false
        else if String.eqb tool (ACPToolNamePrefix ++ "Bash") then
          if rule.(isWildcard) then
            if negb (strings.HasPrefix actualArg rule.(argument)) then false
            else
              let remainder := strings.from (String.length rule.(argument)) actualArg in
              if containsShellOperator remainder then false else true
          else String.eqb actualArg rule.(argument)
        else matchesGlob rule.(argument) actualArg cwd
    end.

(** The body of one [for _, rule := range rules] loop of
    [CheckPermission]: the first rule that matches, if any. *)
Fixpoint firstMatching (rules : list string) (tool : string)
    (toolInput : gmap string any) (cwd : string) : option string :=
  match rules with
  | [] => None
  | rule :: rules' =>
      if matchesRule (parseRule rule) tool toolInput cwd then Some rule
      else firstMatching rules' tool toolInput cwd
  end.

(** CheckPermission checks if a tool invocation is allowed based on the
    loaded settings.  Priority: deny > allow > ask > default (ask). *)
Definition CheckPermission (s : SettingsManager) (tool : string)
    (toolInput : gmap string any) : PermissionCheckResult :=
  if negb (strings.HasPrefix tool ACPToolNamePrefix) then
    mkResult PermissionAsk EmptyString EmptyString
  else
    match s.(mergedSettings).(Permissions) with
    | None => mkResult PermissionAsk EmptyString EmptyString
    | Some permissions =>
        match firstMatching permissions.(Deny) tool toolInput s.(cwd) with
        | Some rule => mkResult PermissionDeny rule "deny"
        | None =>
            match firstMatching permissions.(Allow) tool toolInput s.(cwd) with
            | Some rule => mkResult PermissionAllow rule "allow"
            | None =>
                match firstMatching permissions.(Ask) tool toolInput s.(cwd) with
                | Some rule => mkResult PermissionAsk rule "ask"
                | None => mkResult PermissionAsk EmptyString EmptyString
                end
            end
        end
    end.

End RuleEngine.

(** One iteration of the loop of [mergeSettings] over the four
    sources. *)
Definition mergeOne (merged : ClaudeCodeSettings) (src : ClaudeCodeSettings)
    : ClaudeCodeSettings :=
  let perms :=
    match src.(Permissions), merged.(Permissions) with
    | Some sp, Some mp =>
        Some {| Allow := (mp.(Allow) ++ sp.(Allow))%list;
                Deny := (mp.(Deny) ++ sp.(Deny))%list;
                Ask := (mp.(Ask) ++ sp.(Ask))%list;
                AdditionalDirectories :=
                  if (0 <? length sp.(AdditionalDirectories))%nat
                  then (mp.(AdditionalDirectories) ++ sp.(AdditionalDirectories))%list
                  else mp.(AdditionalDirectories);
                DefaultMode :=
                  if negb (String.eqb sp.(DefaultMode) EmptyString)
                  then sp.(DefaultMode) else mp.(DefaultMode) |}
    | _, mp => mp
    end in
  let env :=
    match src.(Env) with
    | Some se =>
        Some (match merged.(Env) with
              | Some me => se ∪ me
              | None => se
              end)
    | None => merged.(Env)
    end in
  {| Permissions := perms;
     Env := env;
     Model := if negb (String.eqb src.(Model) EmptyString)
              then src.(Model) else merged.(Model) |}.

(** mergeSettings combines all settings sources with proper precedence.
    For permissions, rules from all sources are combined. *)
Definition mergeSettings (s : SettingsManager) : SettingsManager :=
  let allSettings := [s.(userSettings); s.(projectSettings);
                      s.(localSettings); s.(enterpriseSettings)] in
  let merged :=
    fold_left mergeOne allSettings
      {| Permissions := Some (mkPermissionSettings [] [] [] [] EmptyString);
         Env := None;
         Model := EmptyString |} in
  {| cwd := s.(cwd);
     userSettings := s.(userSettings);
     projectSettings := s.(projectSettings);
     localSettings := s.(localSettings);
     enterpriseSettings := s.(enterpriseSettings);
     mergedSettings := merged |}.

End settings.

(** ** A platform to evaluate the rule engine on *)

(** [path/filepath] on Unix, after its documentation.  [Clean] drops
    empty and [.] elements, cancels an inner [..] against the element
    before it, drops a [..] that would climb above the root, and returns
    [.] for an empty result. *)
Module unix.

Definition IsAbs (path : string) : bool := strings.HasPrefix path "/".

Definition cleanStep (rooted : bool) (stack : list string) (elem : string)
    : list string :=
  if String.eqb elem ".." then
    match stack with
    | top :: below => if String.eqb top ".." then elem :: stack else below
    | [] => if rooted then [] else [elem]
    end
  else elem :: stack.

Definition Clean (path : string) : string :=
  let rooted := strings.HasPrefix path "/" in
  let elems := filter (fun e => negb (String.eqb e EmptyString) && negb (String.eqb e "."))
                      (strings.SplitByte path "/") in
  let body := strings.Join (rev (fold_left (cleanStep rooted) elems [])) "/" in
  if rooted then "/" ++ body
  else if String.eqb body EmptyString then "." else body.

Definition Join (a b : string) : string :=
  if String.eqb a EmptyString then
    if String.eqb b EmptyString then EmptyString else Clean b
  else if String.eqb b EmptyString then Clean a
  else Clean (a ++ "/" ++ b).

End unix.

(** The glob library on patterns without any of its metacharacters
    [* ? [ ] { } , \ !]: such a pattern compiles and matches exactly the
    equal string.  Other patterns are outside this model, which reports
    them as not compiling; nothing below evaluates it on one. *)
Definition isGlobMeta (c : ascii) : bool :=
  existsb (Ascii.eqb c) ["*"; "?"; "["; "]"; "{"; "}"; ","; "!"; BACKSLASH]%char.

Fixpoint hasGlobMeta (pattern : string) : bool :=
  match pattern with
  | EmptyString => false
  | String c rest => isGlobMeta c || hasGlobMeta rest
  end.

Definition literalGlob (pattern s : string) : option bool :=
  if hasGlobMeta pattern then None else Some (String.eqb pattern s).

Definition linux : settings.Platform :=
  {| settings.os_UserHomeDir := Some "/home/user";
     settings.runtime_GOOS := "linux";
     settings.filepath_Join := unix.Join;
     settings.filepath_IsAbs := unix.IsAbs;
     settings.filepath_Clean := unix.Clean;
     settings.glob_Match := literalGlob |}.

(** The glob library on patterns made of literal bytes and of classes
    [[xyz]] of literal bytes, after its documentation: a class matches
    one byte among those it lists.  Patterns with any other
    metacharacter, a range or a negation are outside this model, which
    reports them as not compiling. *)
Inductive globToken : Type :=
| GlobByte (c : ascii)
| GlobClass (cs : list ascii).

Fixpoint globTokens (pattern : string) (class : option (list ascii))
    : option (list globToken) :=
  match pattern with
  | EmptyString =>
      match class with
      | None => Some []
      | Some _ => None
      end
  | String c rest =>
      match class with
      | None =>
          if Ascii.eqb c "[" then globTokens rest (Some [])
          else if isGlobMeta c then None
          else option_map (cons (GlobByte c)) (globTokens rest None)
      | Some cs =>
          if Ascii.eqb c "]" then
            match cs with
            | [] => None
            | _ => option_map (cons (GlobClass cs)) (globTokens rest None)
            end
          else if isGlobMeta c || Ascii.eqb c "-" || Ascii.eqb c "^" || Ascii.eqb c "/"
          then None
          else globTokens rest (Some (cs ++ [c])%list)
      end
  end.

Fixpoint globMatch (tokens : list globToken) (s : string) : bool :=
  match tokens, s with
  | [], EmptyString => true
  | GlobByte c :: tokens', String x s' => Ascii.eqb x c && globMatch tokens' s'
  | GlobClass cs :: tokens', String x s' => existsb (Ascii.eqb x) cs && globMatch tokens' s'
  | _, _ => false
  end.

Definition classGlob (pattern s : string) : option bool :=
  option_map (fun tokens => globMatch tokens s) (globTokens pattern None).

Definition linuxClasses : settings.Platform :=
  {| settings.os_UserHomeDir := Some "/home/user";
     settings.runtime_GOOS := "linux";
     settings.filepath_Join := unix.Join;
     settings.filepath_IsAbs := unix.IsAbs;
     settings.filepath_Clean := unix.Clean;
     settings.glob_Match := classGlob |}.

(** ** mcp_server.go: the Read and Edit handlers *)

Module mcp_handlers.

Definition MaxFileSize : Z := 50000%Z.

(** EditOperation represents a single text replacement operation. *)
Record EditOperation : Type := mkEditOperation {
  OldText : string;
  NewText : string;
  ReplaceAll : bool
}.

(** The two errors of [replaceAndCalculateLocation]. *)
Inductive editError : Type :=
| errEmptyOldString
| errOldStringNotFound (oldText : string).

(** The [for] loop of a replace-all edit on [currentContent[searchIndex:]]
    ([lastIndex] and [searchIndex] are always equal): the joined parts
    and the markers added.  An iteration consumes at least the bytes of
    a non-empty [oldText], so [len(currentContent) + 1] iterations are
    enough. *)
Fixpoint replaceAllLoop (fuel : nat) (rest oldText newText markerPrefix : string)
    (markerCounter : nat) : string * list string :=
  match fuel with
  | O => (rest, [])
  | S fuel' =>
      match strings.Index rest oldText with
      | None => (rest, [])
      | Some idx =>
          let marker := markerPrefix ++ fmt.dn markerCounter ++ "__" in
          let '(tail, markers) :=
            replaceAllLoop fuel' (strings.from (idx + String.length oldText) rest)
              oldText newText markerPrefix (S markerCounter) in
          (strings.upto idx rest ++ marker ++ newText ++ tail, marker :: markers)
      end
  end.

(** [strings.Replace(s, marker, "", 1)] for a non-empty [marker]. *)
Definition removeFirst (s marker : string) : string :=
  match strings.Index s marker with
  | Some i => strings.upto i s ++ strings.from (i + String.length marker) s
  | None => s
  end.

(** The loop that keeps the first occurrence of every line number, and
    [sort.Ints]. *)
Definition dedupe (lineNumbers : list nat) : list nat :=
  fold_left (fun unique ln => if existsb (Nat.eqb ln) unique then unique
                              else append1 unique ln)
            lineNumbers [].

Fixpoint insertSorted (x : nat) (l : list nat) : list nat :=
  match l with
  | [] => [x]
  | y :: l' => if (x <=? y)%nat then x :: l else y :: insertSorted x l'
  end.

Definition sort_Ints (l : list nat) : list nat := fold_right insertSorted [] l.

(** One edit, on [(currentContent, markerCounter, markers)]. *)
Definition applyEdit (markerPrefix : string) (st : string * nat * list string)
    (edit : EditOperation) : editError + (string * nat * list string) :=
  let '(currentContent, markerCounter, markers) := st in
  if String.eqb edit.(OldText) EmptyString then inl errEmptyOldString
  else if edit.(ReplaceAll) then
    match strings.Index currentContent edit.(OldText) with
    | None => inl (errOldStringNotFound edit.(OldText))
    | Some _ =>
        let '(content, added) :=
          replaceAllLoop (S (String.length currentContent)) currentContent
            edit.(OldText) edit.(NewText) markerPrefix markerCounter in
        inr (content, markerCounter + length added, (markers ++ added)%list)
    end
  else
    match strings.Index currentContent edit.(OldText) with
    | None => inl (errOldStringNotFound edit.(OldText))
    | Some idx =>
        let marker := markerPrefix ++ fmt.dn markerCounter ++ "__" in
        inr (strings.upto idx currentContent ++ marker ++ edit.(NewText) ++
             strings.from (idx + String.length edit.(OldText)) currentContent,
             S markerCounter, append1 markers marker)
    end.

(** replaceAndCalculateLocation performs text replacements and tracks
    line numbers where replacements occur.  [random] is the value of
    [randomString(9)]. *)
Definition replaceAndCalculateLocation (random : string) (fileContent : string)
    (edits : list EditOperation) : editError + (string * list nat) :=
  let markerPrefix := "__REPLACE_MARKER_" ++ random ++ "_" in
  match fold_left (fun acc edit => match acc with
                                   | inl e => inl e
                                   | inr st => applyEdit markerPrefix st edit
                                   end)
                  edits (inr (fileContent, 0, [])) with
  | inl e => inl e
  | inr (currentContent, _, markers) =>
      let lineNumbers :=
        flat_map (fun marker =>
                    match strings.Index currentContent marker with
                    | Some idx =>
                        [mcp_server.countLines (strings.upto idx currentContent)]
                    | None => []
                    end) markers in
      let finalContent := fold_left removeFirst markers currentContent in
      inr (finalContent, sort_Ints (dedupe lineNumbers))
  end.

(** The result of reading a file: an error text or the content. *)
Inductive readResult : Type :=
| readError (msg : string)
| readOk (content : string).

(** A call that writes a file, through the operating system or through
    the client connection. *)
Inductive writeCall : Type :=
| os_WriteFile_call (path content : string)
| conn_WriteTextFile_call (path content : string).

(** What a handler returns, [(text, isError, nil)], and the writes it
    has made. *)
Record handlerResult : Type := mkHandlerResult {
  text : string;
  isError : bool;
  writes : list writeCall
}.

(** The hint that [handleRead] appends to the content it returns, built
    from [offset, hasOffset := inputInt(input, "offset")] and the
    extraction result.  [offset+result.LinesRead] is an addition of Go
    [int]s: it wraps around at 64 bits. *)
Definition readInfo (offset : Z) (hasOffset : bool) (result : ExtractLinesResult)
    : string :=
  if (hasOffset && (offset >? 1)%Z) || result.(WasLimited) then
    nl ++ nl ++ "<file-read-info>" ++
    (if result.(WasLimited) then
       "Read " ++ fmt.dn result.(LinesRead) ++ " lines (hit 50KB limit). " ++
       "Continue with offset=" ++ fmt.dn result.(LinesRead) ++ "."
     else if hasOffset && (offset >? 1)%Z then
       "Read lines " ++ fmt.d offset ++ "-" ++
       fmt.d (tools.wrap64 (offset + Z.of_nat result.(LinesRead))) ++ "."
     else EmptyString) ++
    "</file-read-info>"
  else EmptyString.

Section Handlers.

(** The world outside the handlers: the platform, the environment, the
    file system and the client connection ([None] from a write is
    success, [Some msg] an error); [strconv.Quote] behind the verb [%q];
    the value of [randomString(9)]. *)
Variable P : settings.Platform.
Variable os_Getenv : string -> string.
Variable os_ReadFile : string -> readResult.
Variable conn_ReadTextFile : string -> readResult.
Variable os_WriteFile : string -> string -> option string.
Variable conn_WriteTextFile : string -> string -> option string.
Variable strconv_Quote : string -> string.
Variable random : string.

(** getClaudeConfigDir returns the path to the ~/.claude directory. *)
Definition getClaudeConfigDir : string :=
  let dir := os_Getenv "CLAUDE_CONFIG_DIR" in
  if negb (String.eqb dir EmptyString) then dir
  else match P.(settings.os_UserHomeDir) with
       | None => P.(settings.filepath_Join) "/" ".claude"
       | Some home => P.(settings.filepath_Join) home ".claude"
       end.

(** isInternalPath checks if a path is in ~/.claude/ but not
    settings.json or session-env. *)
Definition isInternalPath (filePath : string) : bool :=
  let claudeDir := getClaudeConfigDir in
  if negb (strings.HasPrefix filePath claudeDir) then false
  else if strings.HasPrefix filePath (P.(settings.filepath_Join) claudeDir "settings.json")
  then false
  else if strings.HasPrefix filePath (P.(settings.filepath_Join) claudeDir "session-env")
  then false
  else true.

(** [lines[start:end]] for [0 <= start] and [end <= len(lines)]; the
    expression panics when [start > end]. *)
Definition sliceLines (lines : list string) (start stop : Z) : option (list string) :=
  if (start <=? stop)%Z
  then Some (firstn (Z.to_nat (stop - start)) (skipn (Z.to_nat start) lines))
  else None.

(** The window of an internal file that [handleRead] keeps when an
    offset or a limit is given. *)
Definition readWindow (content : string) (offset limit : option Z) : option string :=
  match offset, limit with
  | None, None => Some content
  | _, _ =>
      let lines := strings.SplitByte content LF in
      let start := match offset with
                   | Some o => tools.wrap64 (o - 1)
                   | None => 0%Z
                   end in
      let start := if (start <? 0)%Z then 0%Z else start in
      let stop := match limit with
                  | Some l => tools.wrap64 (start + l)
                  | None => Z.of_nat (length lines)
                  end in
      let stop := if (stop >? Z.of_nat (length lines))%Z
                  then Z.of_nat (length lines) else stop in
      match sliceLines lines start stop with
      | Some window => Some (strings.Join window nl)
      | None => None
      end
  end.

(** handleRead; [None] is a run-time panic. *)
Definition handleRead (input : gmap string any) : option (string * bool) :=
  let filePath := tools.inputStr input "file_path" in
  if String.eqb filePath EmptyString then Some ("file_path is required", true)
  else
    let finish (rawContent : string) : option (string * bool) :=
      let offset := tools.inputInt input "offset" in
      match extractLinesWithByteLimit rawContent MaxFileSize with
      | Some result =>
          let info := match offset with
                      | Some o => readInfo o true result
                      | None => readInfo 0 false result
                      end in
          Some (result.(Content) ++ info ++ tools.SystemReminder, false)
      | None => None
      end in
    if isInternalPath filePath then
      match os_ReadFile filePath with
      | readError msg => Some ("Reading file failed: " ++ msg, true)
      | readOk content =>
          match readWindow content (tools.inputInt input "offset")
                           (tools.inputInt input "limit") with
          | Some rawContent => finish rawContent
          | None => None
          end
      end
    else
      match conn_ReadTextFile filePath with
      | readError msg => Some ("Reading file failed: " ++ msg, true)
      | readOk content => finish content
      end.

Definition editErrorText (e : editError) : string :=
  match e with
  | errEmptyOldString =>
      "The provided `old_string` is empty." ++ nl ++ nl ++ "No edits were applied."
  | errOldStringNotFound oldText =>
      "The provided `old_string` does not appear in the file: " ++
      strconv_Quote oldText ++ "." ++ nl ++ nl ++ "No edits were applied."
  end.

(** handleEdit, with the writes it makes. *)
Definition handleEdit (input : gmap string any) : handlerResult :=
  let filePath := tools.inputStr input "file_path" in
  if String.eqb filePath EmptyString then mkHandlerResult "file_path is required" true []
  else
    let oldString := tools.inputStr input "old_string" in
    let newString := tools.inputStr input "new_string" in
    let replaceAll := tools.inputBool input "replace_all" in
    match (if isInternalPath filePath then os_ReadFile filePath
           else conn_ReadTextFile filePath) with
    | readError msg => mkHandlerResult ("Editing file failed: " ++ msg) true []
    | readOk fileContent =>
        match replaceAndCalculateLocation random fileContent
                [mkEditOperation oldString newString replaceAll] with
        | inl err => mkHandlerResult ("Editing file failed: " ++ editErrorText err) true []
        | inr (newContent, _) =>
            let patch := mcp_server.createUnifiedDiff filePath fileContent newContent in
            if isInternalPath filePath then
              match os_WriteFile filePath newContent with
              | Some msg =>
                  mkHandlerResult ("Editing file failed: " ++ msg) true
                    [os_WriteFile_call filePath newContent]
              | None => mkHandlerResult patch false [os_WriteFile_call filePath newContent]
              end
            else
              match conn_WriteTextFile filePath newContent with
              | Some msg =>
                  mkHandlerResult ("Editing file failed: " ++ msg) true
                    [conn_WriteTextFile_call filePath newContent]
              | None =>
                  mkHandlerResult patch false [conn_WriteTextFile_call filePath newContent]
              end
        end
    end.

End Handlers.

End mcp_handlers.

(** ** acp_agent.go: the end of a prompt turn *)

Module acp_agent.

(** The fields of an SDKResponse that a result event carries; the raw
    JSON fields of the struct are not read when a turn ends. *)
Record SDKResponse : Type := mkSDKResponse {
  Subtype : string;
  SessionID : string;
  Errors : list string;
  IsError : bool;
  Result : string
}.

(** [acp.StopReason]. *)
Inductive StopReason : Type :=
| StopReasonEndTurn
| StopReasonMaxTokens
| StopReasonMaxTurnRequests
| StopReasonRefusal
| StopReasonCancelled.

(** The errors a turn can end with: [acp.NewAuthRequired(nil)] and
    [acp.NewInternalError(map[string]any{"error": msg})]. *)
Inductive RequestError : Type :=
| AuthRequired
| InternalError (error : string).

(** [(acp.PromptResponse, error)]. *)
Inductive turnEnd : Type :=
| Stop (reason : StopReason)
| Fail (err : RequestError).

Definition errorsOrSubtype (resp : SDKResponse) : string :=
  let errMsg := strings.Join resp.(Errors) ", " in
  if String.eqb errMsg EmptyString then resp.(Subtype) else errMsg.

Definition handleResult (resp : SDKResponse) : turnEnd :=
  if String.eqb resp.(Subtype) "success" then
    if strings.Contains resp.(Result) "Please run /login" then Fail AuthRequired
    else if resp.(IsError) then Fail (InternalError resp.(Result))
    else Stop StopReasonEndTurn
  else if String.eqb resp.(Subtype) "error_max_turns"
       || String.eqb resp.(Subtype) "error_max_budget_usd"
       || String.eqb resp.(Subtype) "error_max_structured_output_retries" then
    if resp.(IsError) then Fail (InternalError (errorsOrSubtype resp))
    else Stop StopReasonMaxTurnRequests
  else if String.eqb resp.(Subtype) "error_during_execution" then
    if resp.(IsError) then Fail (InternalError (errorsOrSubtype resp))
    else Stop StopReasonEndTurn
  else Stop StopReasonEndTurn.

(** The [case "result"] of the read loop of [Prompt]: a cancelled
    session ends the turn as cancelled before the result is looked
    at. *)
Definition onResult (cancelled : bool) (resp : SDKResponse) : turnEnd :=
  if cancelled then Stop StopReasonCancelled else handleResult resp.

End acp_agent.

(** ** session.go and acp_agent.go: sessions and their permission mode *)

Module acp_session.

(** Session represents an active Claude Code session: the flags and the
    permission mode.  The process and the settings manager it points to
    play no part in what follows; the mutex guards every access, so the
    methods are atomic. *)
Record Session : Type := mkSession {
  cancelled : bool;
  streamEventsReceived : bool;
  permissionMode : string
}.

Definition Cancel (s : Session) : Session :=
  mkSession true s.(streamEventsReceived) s.(permissionMode).

Definition IsCancelled (s : Session) : bool := s.(cancelled).

Definition ResetCancelled (s : Session) : Session :=
  mkSession false false s.(permissionMode).

Definition MarkStreamEventsReceived (s : Session) : Session :=
  mkSession s.(cancelled) true s.(permissionMode).

Definition HasStreamEventsReceived (s : Session) : bool := s.(streamEventsReceived).

Definition SetPermissionMode (s : Session) (mode : string) : Session :=
  mkSession s.(cancelled) s.(streamEventsReceived) mode.

Definition GetPermissionMode (s : Session) : string := s.(permissionMode).

(** [acp.SessionMode]. *)
Record SessionMode : Type := mkSessionMode {
  ModeId : string;
  ModeName : string;
  Description : option string
}.

(** validModes are the session modes supported by this agent. *)
Definition validModes : list SessionMode :=
  [mkSessionMode "default" "Default" (Some "Normal operation with permission prompts");
   mkSessionMode "acceptEdits" "Accept Edits" (Some "Automatically accept file edits");
   mkSessionMode "plan" "Plan" (Some "Plan-only mode, no execution");
   mkSessionMode "dontAsk" "Don't Ask" (Some "Skip permission prompts for allowed tools");
   mkSessionMode "bypassPermissions" "Bypass Permissions"
     (Some "Skip all permission prompts")].

Definition filterModes (allowBypass : bool) : list SessionMode :=
  if allowBypass then validModes
  else List.filter (fun mode => negb (String.eqb mode.(ModeId) "bypassPermissions"))
                   validModes.

(** The fields of ClaudeAcpAgent that the session requests read and
    write. *)
Record ClaudeAcpAgent : Type := mkAgent {
  sessions : gmap string Session;
  allowBypass : bool
}.

(** NewClaudeAcpAgent, from [isRootUser()] and the value of the
    environment variable IS_SANDBOX. *)
Definition NewClaudeAcpAgent (isRootUser : bool) (IS_SANDBOX : string) : ClaudeAcpAgent :=
  mkAgent ∅ (if isRootUser && String.eqb IS_SANDBOX EmptyString then false else true).

Inductive newSessionResult : Type :=
| NewSessionAuthRequired
| NewSessionFailed (err : string)
| NewSessionOk (sessionID currentModeId : string) (availableModes : list SessionMode).

(** NewSession, from what it obtains outside: whether only the backup
    of the configuration exists, the id generated, the merged settings
    of the working directory, and the error of starting the process, if
    any. *)
Definition NewSession (a : ClaudeAcpAgent) (backupExistsWithoutPrimary : bool)
    (sessionID : string) (merged : settings.ClaudeCodeSettings)
    (processError : option string) : newSessionResult * ClaudeAcpAgent :=
  if backupExistsWithoutPrimary then (NewSessionAuthRequired, a)
  else
    let permissionMode :=
      match merged.(settings.Permissions) with
      | Some perms =>
          if negb (String.eqb perms.(settings.DefaultMode) EmptyString)
          then perms.(settings.DefaultMode) else "default"
      | None => "default"
      end in
    let permissionMode :=
      if String.eqb permissionMode "bypassPermissions" && negb a.(allowBypass)
      then "default" else permissionMode in
    match processError with
    | Some err => (NewSessionFailed ("failed to start Claude Code: " ++ err), a)
    | None =>
        (NewSessionOk sessionID permissionMode (filterModes a.(allowBypass)),
         mkAgent (<[sessionID := mkSession false false permissionMode]> a.(sessions))
                 a.(allowBypass))
    end.

(** SetSessionMode changes the permission mode for a session; the first
    component is the error, if any. *)
Definition SetSessionMode (a : ClaudeAcpAgent) (sessionID modeID : string)
    : option string * ClaudeAcpAgent :=
  match a.(sessions) !! sessionID with
  | None => (Some ("session not found: " ++ sessionID), a)
  | Some session =>
      if existsb (fun m => String.eqb m.(ModeId) modeID) (filterModes a.(allowBypass)) then
        (None,
         mkAgent (<[sessionID := SetPermissionMode session modeID]> a.(sessions))
                 a.(allowBypass))
      else (Some ("invalid mode: " ++ modeID), a)
  end.

(** Cancel cancels an ongoing session operation. *)
Definition CancelSession (a : ClaudeAcpAgent) (sessionID : string)
    : option string * ClaudeAcpAgent :=
  match a.(sessions) !! sessionID with
  | None => (Some ("session not found: " ++ sessionID), a)
  | Some session =>
      (None, mkAgent (<[sessionID := Cancel session]> a.(sessions)) a.(allowBypass))
  end.

End acp_session.

(** ** acp_agent.go: identifiers, links, MCP servers and prompts *)

Module acp_helpers.

(** [fmt]'s [%x] on a byte slice: two lower-case digits per byte,
    [digits[c>>4]] and [digits[c&0xF]].  Bytes are integers below 256. *)
Definition ldigits : string := "0123456789abcdef".

Definition hexDigit (n : Z) : ascii :=
  match String.get (Z.to_nat n) ldigits with
  | Some c => c
  | None => "0"%char
  end.

Definition hexByte (c : Z) : string :=
  String (hexDigit (Z.shiftr c 4)) (String (hexDigit (Z.land c 15)) EmptyString).

Fixpoint hexBytes (b : list Z) : string :=
  match b with
  | [] => EmptyString
  | c :: b' => hexByte c ++ hexBytes b'
  end.

(** [b[i:j]]. *)
Definition slice (b : list Z) (i j : nat) : list Z := firstn (j - i) (skipn i b).

(** generateID formats the sixteen bytes [b] that [rand.Read] left in
    the buffer as a version 4 UUID. *)
Definition generateID (b : list Z) : string :=
  let b := <[6 := Z.lor (Z.land (nth 6 b 0%Z) 15) 64]> b in
  let b := <[8 := Z.lor (Z.land (nth 8 b 0%Z) 63) 128]> b in
  hexBytes (slice b 0 4) ++ "-" ++ hexBytes (slice b 4 6) ++ "-" ++
  hexBytes (slice b 6 8) ++ "-" ++ hexBytes (slice b 8 10) ++ "-" ++
  hexBytes (slice b 10 16).

(** [fmt.Sprintf("[@%s](%s)", name, uri)]. *)
Definition link (name uri : string) : string := "[@" ++ name ++ "](" ++ uri ++ ")".

Definition formatUriAsLink (uri : string) : string :=
  if strings.HasPrefix uri "file://" then
    let path := strings.from 7 uri in
    let parts := strings.SplitByte path "/" in
    let name := List.last parts EmptyString in
    let name := if String.eqb name EmptyString then path else name in
    link name uri
  else if strings.HasPrefix uri "zed://" then
    let parts := strings.SplitByte uri "/" in
    let name := List.last parts EmptyString in
    let name := if String.eqb name EmptyString then uri else name in
    link name uri
  else uri.

(** [acp.HttpHeader] and [acp.EnvVariable]: a name and a value. *)
Record NameValue : Type := mkNameValue { Name : string; Value : string }.

(** The variants of [acp.McpServer]; the headers and the environment
    are lists of [NameValue]. *)
Record McpServerHttp : Type := mkMcpServerHttp {
  HttpName : string; HttpUrl : string; HttpHeaders : list NameValue
}.

Record McpServerSse : Type := mkMcpServerSse {
  SseName : string; SseUrl : string; SseHeaders : list NameValue
}.

Record McpServerStdio : Type := mkMcpServerStdio {
  StdioName : string; StdioCommand : string; StdioArgs : list string;
  StdioEnv : list NameValue
}.

(** [acp.McpServer]: one pointer per variant. *)
Record McpServer : Type := mkMcpServer {
  Http : option McpServerHttp;
  Sse : option McpServerSse;
  Stdio : option McpServerStdio
}.

(** McpServerConfig; a map that is [nil] is [None]. *)
Record McpServerConfig : Type := mkMcpServerConfig {
  Command : string;
  Args : list string;
  Headers : option (gmap string string);
  Env : option (gmap string string);
  URL : string;
  Type_ : string
}.

(** headersToMap and envToMap have the same body. *)
Definition headersToMap (headers : list NameValue) : option (gmap string string) :=
  match headers with
  | [] => None
  | _ => Some (fold_left (fun out header => <[header.(Name) := header.(Value)]> out)
                         headers ∅)
  end.

Definition envToMap (env : list NameValue) : option (gmap string string) :=
  match env with
  | [] => None
  | _ => Some (fold_left (fun out entry => <[entry.(Name) := entry.(Value)]> out)
                         env ∅)
  end.

(** One iteration of the loop of [mapMcpServers]. *)
Definition addServer (configs : gmap string McpServerConfig) (server : McpServer)
    : gmap string McpServerConfig :=
  match server.(Http), server.(Sse), server.(Stdio) with
  | Some http, _, _ =>
      let cfg := mkMcpServerConfig EmptyString [] None None http.(HttpUrl) "http" in
      let cfg := if (0 <? length http.(HttpHeaders))%nat
                 then mkMcpServerConfig cfg.(Command) cfg.(Args)
                        (headersToMap http.(HttpHeaders)) cfg.(Env) cfg.(URL) cfg.(Type_)
                 else cfg in
      <[http.(HttpName) := cfg]> configs
  | None, Some sse, _ =>
      let cfg := mkMcpServerConfig EmptyString [] None None sse.(SseUrl) "sse" in
      let cfg := if (0 <? length sse.(SseHeaders))%nat
                 then mkMcpServerConfig cfg.(Command) cfg.(Args)
                        (headersToMap sse.(SseHeaders)) cfg.(Env) cfg.(URL) cfg.(Type_)
                 else cfg in
      <[sse.(SseName) := cfg]> configs
  | None, None, Some stdio =>
      let cfg := mkMcpServerConfig stdio.(StdioCommand) stdio.(StdioArgs) None None
                   EmptyString "stdio" in
      let cfg := if (0 <? length stdio.(StdioEnv))%nat
                 then mkMcpServerConfig cfg.(Command) cfg.(Args) cfg.(Headers)
                        (envToMap stdio.(StdioEnv)) cfg.(URL) cfg.(Type_)
                 else cfg in
      <[stdio.(StdioName) := cfg]> configs
  | None, None, None => configs
  end.

Definition mapMcpServers (servers : list McpServer)
    : option (gmap string McpServerConfig) :=
  match servers with
  | [] => None
  | _ =>
      let configs := fold_left addServer servers ∅ in
      if (size configs =? 0)%nat then None else Some configs
  end.

(** The blocks of a prompt: [acp.ContentBlock] has one pointer per
    variant; of an embedded resource only the text contents are read,
    of an image its data, MIME type and URI. *)
Record TextResourceContents : Type := mkTextResourceContents {
  ResourceUri : string; ResourceText : string
}.

Record ImageContent : Type := mkImageContent {
  Data : string; MimeType : string; ImageUri : option string
}.

Record ContentBlock : Type := mkContentBlock {
  Text : option string;
  ResourceLink : option string;
  Resource : option (option TextResourceContents);
  Image : option ImageContent
}.

Record PromptRequest : Type := mkPromptRequest {
  Prompt : list ContentBlock;
  SessionId : string
}.

(** SDKUserMessage with its SDKMessage. *)
Record SDKUserMessage : Type := mkSDKUserMessage {
  MessageType : string;
  Role : string;
  Content : list any;
  SessionID : string
}.

Definition textBlock (text : string) : any :=
  Map (<["type" := Str "text"]> (<["text" := Str text]> ∅)).

Section Prompts.

(** [mcpSlashCommandRe.FindStringSubmatch] and [%q]. *)
Variable FindStringSubmatch : string -> option (list string).
Variable strconv_Quote : string -> string.

Definition normalizeMcpSlashCommand (text : string) : string :=
  match FindStringSubmatch text with
  | None => text
  | Some match_ =>
      "/" ++ nth 1 match_ EmptyString ++ ":" ++ nth 2 match_ EmptyString ++
      " (MCP)" ++ nth 3 match_ EmptyString
  end.

Definition contextText (uri text : string) : string :=
  nl ++ "<context ref=" ++ strconv_Quote uri ++ ">" ++ nl ++ text ++ nl ++ "</context>".

(** One iteration of the loop of [promptToClaude] on
    [(content, contextBlocks)]. *)
Definition promptStep (st : list any * list any) (block : ContentBlock)
    : list any * list any :=
  let '(content, contextBlocks) := st in
  match block.(Text) with
  | Some text => (append1 content (textBlock (normalizeMcpSlashCommand text)), contextBlocks)
  | None =>
      match block.(ResourceLink) with
      | Some uri => (append1 content (textBlock (formatUriAsLink uri)), contextBlocks)
      | None =>
          match block.(Resource) with
          | Some res =>
              match res with
              | Some contents =>
                  (append1 content (textBlock (formatUriAsLink contents.(ResourceUri))),
                   append1 contextBlocks
                     (textBlock (contextText contents.(ResourceUri) contents.(ResourceText))))
              | None => (content, contextBlocks)
              end
          | None =>
              match block.(Image) with
              | Some image =>
                  if negb (String.eqb image.(Data) EmptyString) then
                    (append1 content
                       (Map (<["type" := Str "image"]>
                             (<["source" :=
                                  Map (<["type" := Str "base64"]>
                                       (<["data" := Str image.(Data)]>
                                        (<["media_type" := Str image.(MimeType)]> ∅)))]> ∅))),
                     contextBlocks)
                  else
                    match image.(ImageUri) with
                    | Some uri =>
                        if strings.HasPrefix uri "http" then
                          (append1 content
                             (Map (<["type" := Str "image"]>
                                   (<["source" :=
                                        Map (<["type" := Str "url"]>
                                             (<["url" := Str uri]> ∅))]> ∅))),
                           contextBlocks)
                        else (content, contextBlocks)
                    | None => (content, contextBlocks)
                    end
              | None => (content, contextBlocks)
              end
          end
      end
  end.

Definition promptToClaude (req : PromptRequest) : SDKUserMessage :=
  let '(content, contextBlocks) := fold_left promptStep req.(Prompt) ([], []) in
  mkSDKUserMessage "user" "user" (content ++ contextBlocks)%list req.(SessionId).

End Prompts.

End acp_helpers.

(** * Vocabulary of the statements *)

Section Vocabulary.

Import settings.

(** A string is free of newlines. *)
Definition noLF (s : string) : Prop := strings.Index s nl = None.

(** The first line of a text with its newline, the whole text when it
    has no newline. *)
Definition firstLine (s : string) : string :=
  match strings.Index s nl with
  | Some k => strings.upto (k + 1) s
  | None => s
  end.

(** The text of complete lines: each followed by a newline. *)
Fixpoint linesText (ls : list string) : string :=
  match ls with
  | [] => EmptyString
  | l :: ls' => l ++ nl ++ linesText ls'
  end.







(** A text is free of shell operators. *)
Definition operatorFree (s : string) : Prop :=
  forall op, In op shellOperators -> ~ exists a b, s = a ++ op ++ b.

Definition bashTool : string := ACPToolNamePrefix ++ "Bash".
Definition readTool : string := ACPToolNamePrefix ++ "Read".

(** The first rule of a list that matches, and a list without a
    match. *)
Definition firstMatch (m : string -> bool) (rules : list string) (r : string) : Prop :=
  exists before after,
    rules = (before ++ r :: after)%list /\ m r = true /\
    forall x, In x before -> m x = false.

Definition noMatch (m : string -> bool) (rules : list string) : Prop :=
  forall x, In x rules -> m x = false.

(** The rules that one settings source contributes to a list. *)
Definition sourceRules (field : PermissionSettings -> list string)
    (src : ClaudeCodeSettings) : list string :=
  match src.(Permissions) with
  | Some perms => field perms
  | None => []
  end.

Definition fromAllSources (field : PermissionSettings -> list string)
    (s : SettingsManager) : list string :=
  (sourceRules field s.(userSettings) ++ sourceRules field s.(projectSettings) ++
   sourceRules field s.(localSettings) ++ sourceRules field s.(enterpriseSettings))%list.

(** The result text asks the user to log in. *)
Definition signalsAuth (result : string) : Prop :=
  exists a b, result = a ++ "Please run /login" ++ b.

Definition limitSubtypes : list string :=
  ["error_max_turns"; "error_max_budget_usd"; "error_max_structured_output_retries"].

Definition noSettings : ClaudeCodeSettings := mkClaudeCodeSettings None None EmptyString.

(** A manager in /test whose merged permissions deny [Read(./.env)] and
    allow [Read]. *)
Definition envManager : SettingsManager :=
  mkSettingsManager "/test" noSettings noSettings noSettings noSettings
    (mkClaudeCodeSettings
       (Some (mkPermissionSettings ["Read"] ["Read(./.env)"] [] [] EmptyString))
       None EmptyString).

(** The same manager in the directory /a[b]. *)
Definition bracketManager : SettingsManager :=
  mkSettingsManager "/a[b]" noSettings noSettings noSettings noSettings
    (mkClaudeCodeSettings
       (Some (mkPermissionSettings ["Read"] ["Read(./.env)"] [] [] EmptyString))
       None EmptyString).

Definition readOf (path : string) : gmap string any := <["file_path" := Str path]> ∅.
Definition commandOf (cmd : string) : gmap string any := <["command" := Str cmd]> ∅.

(** [json.MarshalIndent] of the empty map is the text [{}]. *)
Definition marshalEmpty (input : gmap string any) : option string := Some "{}".

(** A text is free of carriage returns. *)
Definition noCR (s : string) : Prop := strings.Index s (String mcp_server.CR EmptyString) = None.

(** Every byte of a text is a word byte. *)
Fixpoint allWordBytes (s : string) : bool :=
  match s with
  | EmptyString => true
  | String c s' => isWordByte c && allWordBytes s'
  end.

(** The first non-empty text of a list, empty when there is none. *)
Fixpoint firstNonEmpty (l : list string) : string :=
  match l with
  | [] => EmptyString
  | x :: rest => if String.eqb x EmptyString then firstNonEmpty rest else x
  end.

(** The first value present in a list of optional values. *)
Fixpoint firstSome {A : Type} (l : list (option A)) : option A :=
  match l with
  | [] => None
  | Some x :: _ => Some x
  | None :: rest => firstSome rest
  end.

(** The value of an environment variable in a settings value, the
    default mode of its permissions and its additional directories;
    absent or empty without the map or the permissions. *)
Definition envOf (src : ClaudeCodeSettings) (k : string) : option string :=
  match src.(Env) with
  | Some e => e !! k
  | None => None
  end.

Definition modeOf (src : ClaudeCodeSettings) : string :=
  match src.(Permissions) with
  | Some p => p.(DefaultMode)
  | None => EmptyString
  end.

Definition dirsOf (src : ClaudeCodeSettings) : list string :=
  match src.(Permissions) with
  | Some p => p.(AdditionalDirectories)
  | None => []
  end.

(** The pairs of a rule name and a tool the rule name applies to. *)
Definition ruleFamilies : list (string * string) :=
  [("Bash", ACPToolNamePrefix ++ "Bash");
   ("Edit", ACPToolNamePrefix ++ "Edit");
   ("Edit", ACPToolNamePrefix ++ "Write");
   ("Read", ACPToolNamePrefix ++ "Read")].

(** *** Vocabulary of the diff engine *)

(** The rendered line of an operation: its marker, then its text. *)
Definition opLine (o : mcp_server.diffOp) : string :=
  String o.(mcp_server.op) o.(mcp_server.line).

(** An operation counts for the old side when it is a context line or a
    deletion, for the new side when it is not a deletion. *)
Definition countsOld (o : mcp_server.diffOp) : bool :=
  mcp_server.isEqualOp o || Ascii.eqb o.(mcp_server.op) "-".

Definition countsNew (o : mcp_server.diffOp) : bool :=
  negb (Ascii.eqb o.(mcp_server.op) "-").

Definition opsOld (ops : list mcp_server.diffOp) : list string :=
  map mcp_server.line (List.filter countsOld ops).

Definition opsNew (ops : list mcp_server.diffOp) : list string :=
  map mcp_server.line (List.filter countsNew ops).

(** The operations [ops[a:b]]. *)
Definition seg (ops : list mcp_server.diffOp) (a b : nat) : list mcp_server.diffOp :=
  firstn (b - a) (skipn a ops).

(** All operations of [ops[a:b]] are context lines. *)
Definition eqRange (ops : list mcp_server.diffOp) (a b : nat) : Prop :=
  forall k, a <= k -> k < b -> mcp_server.isEqualOp (mcp_server.opAt ops k) = true.

(** The hunk that a run of operations stands for: it starts where the
    first operation is, counts the lines of each side and lists the
    rendered lines. *)
Definition hunkOf (s : list mcp_server.diffOp) : mcp_server.diffHunk :=
  {| mcp_server.oldStart := (hd mcp_server.noOp s).(mcp_server.oldN);
     mcp_server.oldCount := length (List.filter countsOld s);
     mcp_server.newStart := (hd mcp_server.noOp s).(mcp_server.newN);
     mcp_server.newCount := length (List.filter countsNew s);
     mcp_server.lines := map opLine s |}.

(** An edit script that starts at old line [i] and new line [j]: every
    operation is a context line, a deletion or an insertion and carries
    the positions reached before it. *)
Fixpoint numbered (i j : nat) (ops : list mcp_server.diffOp) : Prop :=
  match ops with
  | [] => True
  | o :: rest =>
      o.(mcp_server.oldN) = i /\ o.(mcp_server.newN) = j /\
      ((o.(mcp_server.op) = " "%char /\ numbered (i + 1) (j + 1) rest) \/
       (o.(mcp_server.op) = "-"%char /\ numbered (i + 1) j rest) \/
       (o.(mcp_server.op) = "+"%char /\ numbered i (j + 1) rest))
  end.

(** A script cut into runs: context lines that belong to no hunk, then
    a non-empty run, and so on, ending with context lines. *)
Inductive Parts : list mcp_server.diffOp -> list (list mcp_server.diffOp) -> Prop :=
| Parts_end (g : list mcp_server.diffOp) :
    Forall (fun o => mcp_server.isEqualOp o = true) g -> Parts g []
| Parts_cons (g s rest : list mcp_server.diffOp) (segs : list (list mcp_server.diffOp)) :
    Forall (fun o => mcp_server.isEqualOp o = true) g ->
    s <> [] ->
    Parts rest segs ->
    Parts (g ++ s ++ rest)%list (s :: segs).

(** The old and the new side of the body of a hunk: the context lines
    and the removed lines, the context lines and the added lines, each
    without its marker. *)
Definition hunkOld (body : list string) : list string :=
  map (strings.from 1)
      (List.filter (fun l => strings.HasPrefix l " " || strings.HasPrefix l "-") body).

Definition hunkNew (body : list string) : list string :=
  map (strings.from 1)
      (List.filter (fun l => strings.HasPrefix l " " || strings.HasPrefix l "+") body).

(** Applying hunks to the lines [rest] that start at old line [posOld],
    the output being at new line [posNew].  A hunk applies when it
    starts at or after the current position, its new start is the
    position reached in the output, its counts are the lengths of its
    sides, and its old side is what the old lines hold at its start.
    The lines before the hunk are copied, the old side is replaced by
    the new side. *)
Fixpoint applyHunks (hunks : list mcp_server.diffHunk) (posOld posNew : nat)
    (rest : list string) : option (list string) :=
  match hunks with
  | [] => Some rest
  | h :: hunks' =>
      let skip := h.(mcp_server.oldStart) - posOld in
      let body := skipn skip rest in
      if bool_decide (posOld <= h.(mcp_server.oldStart)
                      /\ h.(mcp_server.newStart) = posNew + skip
                      /\ skip <= length rest
                      /\ h.(mcp_server.newCount) = length (hunkNew h.(mcp_server.lines))
                      /\ firstn h.(mcp_server.oldCount) body = hunkOld h.(mcp_server.lines)
                      /\ length (hunkOld h.(mcp_server.lines)) = h.(mcp_server.oldCount))
      then
        match applyHunks hunks' (h.(mcp_server.oldStart) + h.(mcp_server.oldCount))
                (h.(mcp_server.newStart) + h.(mcp_server.newCount))
                (skipn h.(mcp_server.oldCount) body) with
        | Some out => Some (firstn skip rest ++ hunkNew h.(mcp_server.lines) ++ out)%list
        | None => None
        end
      else None
  end.

(** The edit script that [computeDiffHunks] groups into hunks. *)
Definition editOps (oldLines newLines : list string) : list mcp_server.diffOp :=
  mcp_server.editScript (length oldLines + length newLines) oldLines newLines
    (mcp_server.lcsTable oldLines newLines) 0 0.

(** A run of operations has the shape of a hunk: at most three context
    lines, then operations that start and end with a change, then at
    most four context lines. *)
Definition shaped (s : list mcp_server.diffOp) : Prop :=
  exists lead body trail,
    s = (lead ++ body ++ trail)%list /\
    Forall (fun o => mcp_server.isEqualOp o = true) lead /\ length lead <= 3 /\
    Forall (fun o => mcp_server.isEqualOp o = true) trail /\ length trail <= 4 /\
    mcp_server.isEqualOp (hd mcp_server.noOp body) = false /\
    mcp_server.isEqualOp (List.last body mcp_server.noOp) = false.

(** What the grouping loop has built when it reaches index [t]: the
    closed hunks are runs of a cut of [ops[0:c]], each with the shape
    of a hunk; an open hunk is the run [ops[a:t]], only context lines
    lie between [c] and [a], its first change [f] is at most three
    lines after [a], only context lines follow its last change [l],
    and when there are such lines a change lies within five lines of
    [t]; without an open hunk only context lines lie between [c] and
    some [e] at or after [t], far enough from the last hunk for the
    leading context of the next one. *)
Definition groupInv (ops : list mcp_server.diffOp) (t : nat)
    (st : list mcp_server.diffHunk * option mcp_server.diffHunk) : Prop :=
  exists segs c,
    fst st = map hunkOf segs /\ c <= length ops /\ Parts (seg ops 0 c) segs /\
    Forall shaped segs /\
    match snd st with
    | Some h =>
        exists a f l,
          c <= a /\ a <= f /\ f <= l /\ l < t /\ f <= a + 3 /\
          eqRange ops c a /\ eqRange ops a f /\
          mcp_server.isEqualOp (mcp_server.opAt ops f) = false /\
          mcp_server.isEqualOp (mcp_server.opAt ops l) = false /\
          eqRange ops (l + 1) t /\
          (t = l + 1 \/
           exists ch, t <= ch /\ ch <= t + 5 /\
                      mcp_server.isEqualOp (mcp_server.opAt ops ch) = false) /\
          h = hunkOf (seg ops a t)
    | None =>
        exists e, t <= e /\ e <= length ops /\ c <= e /\ eqRange ops c e /\
                  eqRange ops t e /\ (c = 0 \/ c + 3 <= e \/ e = length ops)
    end.

(** A line of a hunk is a context line when its marker is a space. *)
Definition contextLine (l : string) : bool := strings.HasPrefix l " ".

(** *** Vocabulary of the rendered diff *)

(** Every byte of a text is a decimal digit; no byte of a text is [c]. *)
Fixpoint allDigits (s : string) : bool :=
  match s with
  | EmptyString => true
  | String c s' => tools.isDigit c && allDigits s'
  end.

Fixpoint noByte (c : ascii) (s : string) : bool :=
  match s with
  | EmptyString => true
  | String x s' => negb (Ascii.eqb x c) && noByte c s'
  end.

(** The header line of a hunk and the lines of the rendered hunks. *)
Definition headerLine (h : mcp_server.diffHunk) : string :=
  "@@ -" ++ fmt.dn (h.(mcp_server.oldStart) + 1) ++ "," ++ fmt.dn h.(mcp_server.oldCount) ++
  " +" ++ fmt.dn (h.(mcp_server.newStart) + 1) ++ "," ++ fmt.dn h.(mcp_server.newCount) ++ " @@".

Definition renderedLines (hunks : list mcp_server.diffHunk) : list string :=
  flat_map (fun h => headerLine h :: h.(mcp_server.lines)) hunks.

(** The hunk that the parser is expected to read back: the one-based
    new start and the body lines. *)
Definition parsedHunk (h : mcp_server.diffHunk) : tools.toolsDiffHunk :=
  tools.mkHunk (Z.of_nat (h.(mcp_server.newStart) + 1)) h.(mcp_server.lines).

(** A line that the parser takes for a body line of a hunk: it starts
    with a marker and does not look like a file header. *)
Definition bodyOK (l : string) : bool :=
  negb (strings.HasPrefix l "--- ") && negb (strings.HasPrefix l "+++ ") &&
  (strings.HasPrefix l "+" || strings.HasPrefix l "-" || strings.HasPrefix l " ").

(** *** Vocabulary of tool results *)

(** The diff block and the location that the update of an edit shows
    for a hunk: the new and the old side joined by newlines (no old
    text when the joined old side is empty) and the one-based new
    start. *)
Definition diffBlockOf (path : string) (h : mcp_server.diffHunk) : tools.ToolUpdateContent :=
  let oldText := strings.Join (hunkOld h.(mcp_server.lines)) nl in
  tools.UpdateToolDiffContent path (strings.Join (hunkNew h.(mcp_server.lines)) nl)
    (if String.eqb oldText EmptyString then None else Some oldText).

Definition locationOf (path : string) (h : mcp_server.diffHunk) : tools.ToolCallLocation :=
  tools.mkLocation path (Some (Z.of_nat (h.(mcp_server.newStart) + 1))).

(** A content block of type text with the given text. *)
Definition textBlockMap (m : gmap string any) (text : string) : Prop :=
  m !! "type" = Some (Str "text") /\ m !! "text" = Some (Str text).

(** *** Vocabulary of session notifications *)

(** A notification starts, or updates, the tool call [id] of the tool
    [name]. *)
Definition isStart (id name : string) (n : tools.SessionNotification) : Prop :=
  exists title kind content locs raw parent,
    n.(tools.Update) =
    tools.ToolCallStart id title kind tools.ToolCallStatusPending content locs raw
      (tools.mkToolMeta name parent).

Definition isUpdate (id name : string) (n : tools.SessionNotification) : Prop :=
  exists status raw title content locs parent,
    n.(tools.Update) =
    tools.ToolCallUpdate id status raw title content locs (tools.mkToolMeta name parent).

(** A notification that is neither the start nor the update of a tool
    call. *)
Definition notToolCall (n : tools.SessionNotification) : Prop :=
  match n.(tools.Update) with
  | tools.ToolCallStart _ _ _ _ _ _ _ _ => False
  | tools.ToolCallUpdate _ _ _ _ _ _ _ => False
  | _ => True
  end.

(** A conversion that the agent makes while it serves a prompt: of a
    stream event (the [stream_event] case of [Prompt]) or of the
    content of a message ([handleMessage]), for the session of the
    prompt. *)
Inductive conversion : Type :=
| ConvertStreamEvent (sessionID : string) (msg : gmap string any)
    (parent : option string)
| ConvertMessage (sessionID : string) (content : any) (role : string)
    (parent : option string).

(** The notifications of an agent: the conversions of all its sessions
    are made with the one tool-use cache of the agent, empty when the
    agent is created, and each is sent to the session it is made for.
    The conversions are taken one after the other, in the order in
    which they are made. *)
Definition agentRun (json_MarshalIndent json_Marshal : gmap string any -> option string)
    (calls : list conversion)
    : list tools.SessionNotification * gmap string tools.ToolUseEntry :=
  fold_left
    (fun st call =>
       let '(o, c) :=
         match call with
         | ConvertStreamEvent sessionID msg parent =>
             tools.streamEventToAcpNotifications json_MarshalIndent json_Marshal
               msg sessionID (snd st) parent
         | ConvertMessage sessionID content role parent =>
             tools.toAcpNotifications json_MarshalIndent json_Marshal
               content role sessionID (snd st) parent
         end in
       ((fst st ++ o)%list, c))
    calls ([], ∅).

(** What a list of notifications and a cache have in common when every
    cached tool use other than TodoWrite has been announced by a start,
    and every update comes after a start of the same call. *)
Definition announced (out : list tools.SessionNotification)
    (cache : gmap string tools.ToolUseEntry) : Prop :=
  (forall id e, cache !! id = Some e -> e.(tools.Name) <> "TodoWrite" ->
                exists s, In s out /\ isStart id e.(tools.Name) s) /\
  (forall before n after id name,
      out = (before ++ n :: after)%list -> isUpdate id name n ->
      name <> "TodoWrite" /\ exists s, In s before /\ isStart id name s).

(** Two sessions of one agent: session A streams the start of a tool
    use of Bash; a message of session B holds a result for the same
    id. *)
Definition bashSessions : list conversion :=
  [ConvertStreamEvent "A"
     {[ "event" :=
          Map {[ "type" := Str "content_block_start";
                 "content_block" :=
                   Map {[ "type" := Str "tool_use"; "id" := Str "t1";
                          "name" := Str "Bash";
                          "input" := Map {[ "command" := Str "ls" ]} ]} ]} ]}
     None;
   ConvertMessage "B"
     (Slice [Map {[ "type" := Str "tool_result"; "tool_use_id" := Str "t1";
                    "content" := Str "ok" ]}])
     "user" None].

(** A world with one file, [/home/user/.claude/notes.md], of three
    lines. *)
Definition notesPath : string := "/home/user/.claude/notes.md".
Definition notesContent : string := "one" ++ nl ++ "two" ++ nl ++ "three".
Definition notesRead (path : string) : mcp_handlers.readResult :=
  if String.eqb path notesPath then mcp_handlers.readOk notesContent
  else mcp_handlers.readError "no such file".

(** A world in which every file is empty. *)
Definition emptyRead (path : string) : mcp_handlers.readResult :=
  mcp_handlers.readOk EmptyString.

(** *** Vocabulary of sessions *)

(** A request that changes the sessions of an agent, and the agent
    after a request. *)
Inductive sessionRequest : Type :=
| RequestNewSession (backupOnly : bool) (sessionID : string)
    (merged : ClaudeCodeSettings) (processError : option string)
| RequestSetSessionMode (sessionID modeID : string)
| RequestCancel (sessionID : string).

Definition serve (a : acp_session.ClaudeAcpAgent) (r : sessionRequest)
    : acp_session.ClaudeAcpAgent :=
  match r with
  | RequestNewSession backupOnly sessionID merged processError =>
      snd (acp_session.NewSession a backupOnly sessionID merged processError)
  | RequestSetSessionMode sessionID modeID =>
      snd (acp_session.SetSessionMode a sessionID modeID)
  | RequestCancel sessionID => snd (acp_session.CancelSession a sessionID)
  end.

(** The number of newlines of a text. *)
Fixpoint newlines (s : string) : nat :=
  match s with
  | EmptyString => 0
  | String c s' => if Ascii.eqb c LF then S (newlines s') else newlines s'
  end.

(** *** Vocabulary of identifiers, links and MCP servers *)

(** A lower-case hexadecimal digit; a text made of such digits. *)
Definition lowerHex (c : ascii) : bool :=
  tools.isDigit c || ((97 <=? nat_of_ascii c)%nat && (nat_of_ascii c <=? 102)%nat).

Fixpoint allLowerHex (s : string) : bool :=
  match s with
  | EmptyString => true
  | String c s' => lowerHex c && allLowerHex s'
  end.

(** [name] is the label of the path or URI [s]: all of [s] when [s] is
    empty or ends with a slash, otherwise what follows its last
    slash. *)
Definition labelOf (s name : string) : Prop :=
  (name = s /\ (s = EmptyString \/ exists dir, s = dir ++ "/")) \/
  (name <> EmptyString /\ noByte "/" name = true /\
   (s = name \/ exists dir, s = dir ++ "/" ++ name)).

(** The name under which a server is configured: that of the first
    variant that is set. *)
Definition serverName (server : acp_helpers.McpServer) : option string :=
  match server.(acp_helpers.Http), server.(acp_helpers.Sse), server.(acp_helpers.Stdio) with
  | Some http, _, _ => Some http.(acp_helpers.HttpName)
  | None, Some sse, _ => Some sse.(acp_helpers.SseName)
  | None, None, Some stdio => Some stdio.(acp_helpers.StdioName)
  | None, None, None => None
  end.

(** The value of the last entry called [name]. *)
Definition lastValue (name : string) (entries : list acp_helpers.NameValue)
    : option string :=
  option_map acp_helpers.Value
    (find (fun e => String.eqb e.(acp_helpers.Name) name) (rev entries)).

(** What one block of a prompt contributes to the content and to the
    context of the message: the outcome of one iteration that starts
    with nothing. *)
Definition mainOf (FindStringSubmatch : string -> option (list string))
    (strconv_Quote : string -> string) (block : acp_helpers.ContentBlock) : list any :=
  fst (acp_helpers.promptStep FindStringSubmatch strconv_Quote ([], []) block).

Definition contextOf (FindStringSubmatch : string -> option (list string))
    (strconv_Quote : string -> string) (block : acp_helpers.ContentBlock) : list any :=
  snd (acp_helpers.promptStep FindStringSubmatch strconv_Quote ([], []) block).

(** The text resource that a block embeds, when the block is neither a
    text nor a resource link. *)
Definition embeddedText (block : acp_helpers.ContentBlock)
    : option acp_helpers.TextResourceContents :=
  match block.(acp_helpers.Text), block.(acp_helpers.ResourceLink),
        block.(acp_helpers.Resource) with
  | None, None, Some (Some contents) => Some contents
  | _, _, _ => None
  end.

(** Two servers called [fs]: a command, then an HTTP endpoint. *)
Definition fsStdio : acp_helpers.McpServer :=
  acp_helpers.mkMcpServer None None
    (Some (acp_helpers.mkMcpServerStdio "fs" "npx" ["server"] [])).

Definition fsHttp : acp_helpers.McpServer :=
  acp_helpers.mkMcpServer
    (Some (acp_helpers.mkMcpServerHttp "fs" "https://example.test/mcp"
             [acp_helpers.mkNameValue "Authorization" "token"]))
    None None.

End Vocabulary.

(** * Properties *)

(** ** Byte strings *)

Section StringFacts.

Lemma app_cons (x : ascii) (a b : string) : String x a ++ b = String x (a ++ b).
Proof. reflexivity. Qed.

Lemma app_nil_l (b : string) : EmptyString ++ b = b.
Proof. reflexivity. Qed.

Lemma length_app (a b : string) :
  String.length (a ++ b) = String.length a + String.length b.
Proof.
  induction a as [|c a IH]; [reflexivity|].
  rewrite app_cons. simpl. now rewrite IH.
Qed.

Lemma app_assoc_s (a b c : string) : (a ++ b) ++ c = a ++ b ++ c.
Proof.
  induction a as [|x a IH]; [reflexivity|].
  rewrite !app_cons. now rewrite IH.
Qed.

Lemma app_empty_r (a : string) : a ++ EmptyString = a.
Proof.
  induction a as [|x a IH]; [reflexivity|].
  rewrite app_cons. now rewrite IH.
Qed.

Lemma from_app (a b : string) : strings.from (String.length a) (a ++ b) = b.
Proof.
  induction a as [|x a IH]; [reflexivity|].
  rewrite app_cons. simpl. exact IH.
Qed.

Lemma upto_app (a b : string) : strings.upto (String.length a) (a ++ b) = a.
Proof.
  induction a as [|x a IH]; [reflexivity|].
  rewrite app_cons. simpl. now rewrite IH.
Qed.

Lemma upto_all (s : string) : strings.upto (String.length s) s = s.
Proof. induction s as [|x s IH]; simpl; [reflexivity | now rewrite IH]. Qed.

Lemma from_from (a b : nat) (s : string) :
  strings.from (a + b) s = strings.from a (strings.from b s).
Proof.
  revert s; induction b as [|b IH]; intros s.
  - now rewrite Nat.add_0_r.
  - rewrite Nat.add_succ_r. simpl. destruct s as [|x s].
    + clear IH. induction a; simpl; auto.
    + apply IH.
Qed.

Lemma length_from (n : nat) (s : string) :
  String.length (strings.from n s) = String.length s - n.
Proof.
  revert s; induction n as [|n IH]; intros s; simpl.
  - lia.
  - destruct s as [|x s]; simpl; [reflexivity | apply IH].
Qed.

Lemma HasPrefix_refl (s : string) : strings.HasPrefix s s = true.
Proof.
  induction s as [|x s IH]; simpl; [reflexivity|].
  now rewrite Ascii.eqb_refl, IH.
Qed.

Lemma HasPrefix_app (p s : string) : strings.HasPrefix (p ++ s) p = true.
Proof.
  induction p as [|x p IH]; [reflexivity|].
  rewrite app_cons. simpl. now rewrite Ascii.eqb_refl, IH.
Qed.

Lemma HasPrefix_split (s p : string) :
  strings.HasPrefix s p = true -> s = p ++ strings.from (String.length p) s.
Proof.
  revert s; induction p as [|x p IH]; intros s H.
  - reflexivity.
  - simpl in H. destruct s as [|c s]; [discriminate|].
    apply andb_prop in H as [Hc Hp]. apply Ascii.eqb_eq in Hc. subst c.
    rewrite app_cons. simpl. f_equal. now apply IH.
Qed.

Lemma HasPrefix_upto (a b : nat) (s : string) :
  a <= b -> strings.HasPrefix (strings.upto b s) (strings.upto a s) = true.
Proof.
  revert b s; induction a as [|a IH]; intros b s Hab; simpl.
  - reflexivity.
  - destruct b as [|b]; [lia|]. destruct s as [|c s]; simpl.
    + reflexivity.
    + rewrite Ascii.eqb_refl. apply IH. lia.
Qed.

Lemma upto_from (n : nat) (s : string) : strings.upto n s ++ strings.from n s = s.
Proof.
  revert s; induction n as [|n IH]; intros s; [reflexivity|].
  destruct s as [|c s]; [reflexivity|].
  simpl. rewrite app_cons. now rewrite IH.
Qed.

Lemma HasPrefix_spec (s p : string) :
  strings.HasPrefix s p = true <-> exists r, s = p ++ r.
Proof.
  split.
  - intros H. eexists. now apply HasPrefix_split.
  - intros [r ->]. apply HasPrefix_app.
Qed.

Lemma HasSuffix_spec (s suffix : string) :
  strings.HasSuffix s suffix = true <-> exists t, s = t ++ suffix.
Proof.
  unfold strings.HasSuffix. split.
  - intros H. apply andb_prop in H as [_ H]. apply String.eqb_eq in H.
    exists (strings.upto (String.length s - String.length suffix) s).
    rewrite <- (upto_from (String.length s - String.length suffix) s) at 1.
    now rewrite H.
  - intros [t ->]. rewrite length_app.
    replace (String.length t + String.length suffix - String.length suffix)
      with (String.length t) by lia.
    rewrite from_app, String.eqb_refl.
    replace (String.length suffix <=? String.length t + String.length suffix)%nat
      with true by (symmetry; apply Nat.leb_le; lia).
    reflexivity.
Qed.

Lemma Index_Some_split (s sep : string) (i : nat) :
  strings.Index s sep = Some i ->
  s = strings.upto i s ++ sep ++ strings.from (i + String.length sep) s.
Proof.
  revert i; induction s as [|c s IH]; intros i H.
  - cbn [strings.Index] in H.
    destruct (strings.HasPrefix EmptyString sep) eqn:Hp; [|discriminate].
    injection H as <-. now apply HasPrefix_split in Hp.
  - cbn [strings.Index] in H.
    destruct (strings.HasPrefix (String c s) sep) eqn:Hp.
    + injection H as <-. now apply HasPrefix_split in Hp.
    + destruct (strings.Index s sep) as [j|]; [|discriminate].
      injection H as <-. cbn [strings.upto strings.from Nat.add].
      rewrite app_cons. f_equal. now apply IH.
Qed.

Lemma Index_app_Some (a sep b : string) :
  exists i, strings.Index (a ++ sep ++ b) sep = Some i.
Proof.
  induction a as [|c a [i IH]].
  - exists 0. rewrite app_nil_l.
    destruct (sep ++ b) eqn:E; cbn [strings.Index]; rewrite <- E, HasPrefix_app;
      reflexivity.
  - rewrite app_cons. cbn [strings.Index].
    destruct (strings.HasPrefix (String c (a ++ sep ++ b)) sep).
    + now exists 0.
    + rewrite IH. now exists (S i).
Qed.

(** [strings.Contains]: the text has an occurrence of the substring. *)
Lemma Contains_spec (s substr : string) :
  strings.Contains s substr = true <-> exists a b, s = a ++ substr ++ b.
Proof.
  unfold strings.Contains. split.
  - destruct (strings.Index s substr) as [i|] eqn:Hi; [|discriminate].
    intros _. apply Index_Some_split in Hi. eauto.
  - intros (a & b & ->). destruct (Index_app_Some a substr b) as [i ->].
    reflexivity.
Qed.

Lemma noLF_spec (s : string) :
  noLF s <-> ~ exists a b, s = a ++ nl ++ b.
Proof.
  unfold noLF. rewrite <- Contains_spec. unfold strings.Contains.
  destruct (strings.Index s nl); split; intros H; try congruence.
Qed.

Lemma Index_nl_cons (c : ascii) (s : string) :
  strings.Index (String c s) nl =
  if Ascii.eqb c LF then Some 0 else option_map S (strings.Index s nl).
Proof.
  cbn [strings.Index strings.HasPrefix nl].
  destruct (Ascii.eqb c LF); [|reflexivity].
  now destruct s.
Qed.

Lemma Index_nl_line (l rest : string) :
  noLF l -> strings.Index (l ++ nl ++ rest) nl = Some (String.length l).
Proof.
  unfold noLF. induction l as [|c l IH]; intros H.
  - rewrite app_nil_l. unfold nl at 1. rewrite app_cons, Index_nl_cons. reflexivity.
  - rewrite app_cons. cbn [String.length]. rewrite Index_nl_cons in *.
    destruct (Ascii.eqb c LF); [discriminate|].
    destruct (strings.Index l nl) eqn:E; [discriminate|].
    now rewrite IH.
Qed.

Lemma Index_nl_bound (s : string) (k : nat) :
  strings.Index s nl = Some k -> k < String.length s.
Proof.
  revert k; induction s as [|c s IH]; intros k H.
  - discriminate.
  - rewrite Index_nl_cons in H. destruct (Ascii.eqb c LF).
    + injection H as <-. simpl. lia.
    + destruct (strings.Index s nl) as [j|]; [|discriminate].
      injection H as <-. specialize (IH j eq_refl). simpl. lia.
Qed.

End StringFacts.

(** ** utils.go: [extractLinesWithByteLimit] *)

Section ExtractLines.

Lemma linesText_length_ge (ls : list string) :
  length ls <= String.length (linesText ls).
Proof.
  induction ls as [|l ls IH]; simpl; [lia|].
  rewrite !length_app. unfold nl at 1. simpl. lia.
Qed.

(** The loop returns, and what it returns bounds the state it started
    from. *)
Lemma extractLoop_returns (fuel : nat) (content : string) (max : Z) :
  forall n idx cl,
    String.length content - idx < fuel ->
    cl <= String.length content ->
    cl <= idx ->
    exists n' cl' lim,
      extractLoop fuel content max n idx cl = Some (n', cl', lim) /\
      cl <= cl' <= String.length content /\
      n <= n' /\ 1 <= n'.
Proof.
  induction fuel as [|fuel IH]; intros n idx cl Hfuel Hcl Hidx; [lia|].
  cbn [extractLoop].
  destruct (strings.Index (strings.from idx content) nl) as [k|] eqn:Hi.
  - apply Index_nl_bound in Hi. rewrite length_from in Hi.
    destruct ((0 <? n)%nat && (Z.of_nat (k + idx + 1) >? max)%Z) eqn:Hc.
    + exists n, cl, true. apply andb_prop in Hc as [Hn _].
      apply Nat.ltb_lt in Hn. repeat split; lia.
    + destruct (IH (S n) (k + idx + 1) (k + idx + 1)) as (n' & cl' & lim & E & B & Hn & _);
        [lia | lia | lia |].
      exists n', cl', lim. rewrite E. repeat split; lia.
  - destruct ((0 <? n)%nat && (Z.of_nat (String.length content) >? max)%Z) eqn:Hc.
    + exists n, cl, true. apply andb_prop in Hc as [Hn _].
      apply Nat.ltb_lt in Hn. repeat split; lia.
    + exists (S n), (String.length content), false. repeat split; lia.
Qed.

(** The loop over complete lines that all fit the limit: each is
    consumed by one iteration. *)
Lemma extractLoop_lines (content : string) (max : Z) (ls : list string) :
  forall fuel n idx cl tail,
    strings.from idx content = linesText ls ++ tail ->
    Forall noLF ls ->
    (Z.of_nat (idx + String.length (linesText ls)) <= max)%Z ->
    extractLoop (length ls + fuel) content max n idx cl =
    extractLoop fuel content max (n + length ls)
      (idx + String.length (linesText ls))
      (match ls with [] => cl | _ => idx + String.length (linesText ls) end).
Proof.
  induction ls as [|l ls IH]; intros fuel n idx cl tail Hfrom Hno Hmax.
  - simpl. now rewrite !Nat.add_0_r.
  - inversion Hno as [|? ? Hl Hls]; subst.
    cbn [length linesText Nat.add] in *. cbn [extractLoop].
    rewrite Hfrom, !app_assoc_s, Index_nl_line by assumption.
    rewrite !length_app in *. change (String.length nl) with 1 in *.
    replace ((0 <? n)%nat && (Z.of_nat (String.length l + idx + 1) >? max)%Z)
      with false
      by (symmetry; apply andb_false_intro2; rewrite Z.gtb_ltb; apply Z.ltb_ge; lia).
    rewrite (IH fuel (S n) (String.length l + idx + 1) (String.length l + idx + 1) tail).
    + replace (S n + length ls) with (n + S (length ls)) by lia.
      replace (String.length l + idx + 1 + String.length (linesText ls))
        with (idx + (String.length l + (1 + String.length (linesText ls)))) by lia.
      destruct ls; [simpl; f_equal; lia | reflexivity].
    + replace (String.length l + idx + 1) with (String.length (l ++ nl) + idx)
        by (rewrite length_app; change (String.length nl) with 1; lia).
      rewrite from_from, Hfrom.
      replace ((l ++ nl ++ linesText ls) ++ tail)
        with ((l ++ nl) ++ linesText ls ++ tail)
        by (now rewrite !app_assoc_s).
      apply from_app.
    + assumption.
    + lia.
Qed.

Lemma eqb_empty_length (s : string) :
  String.eqb s EmptyString = (String.length s =? 0)%nat.
Proof. now destruct s. Qed.

(** C5.  Byte-limited line extraction always returns a result whose
    content starts with the whole first line (with its newline), whatever
    the limit, and reports at least one line.  When the text is made of
    the complete lines [ls] (at least one) followed by a further line
    [next], and the limit is at least the length of [ls] but smaller
    than the length of [ls] and [next] together (so it falls between two
    line boundaries), the content is exactly the lines [ls], the limited
    flag is set and the line count is the number of lines in [ls]. *)
Theorem extractLinesWithByteLimit_first_line_and_truncation :
  (forall (content : string) (max : Z),
      exists r,
        extractLinesWithByteLimit content max = Some r /\
        strings.HasPrefix r.(Content) (firstLine content) = true /\
        1 <= r.(LinesRead)) /\
  (forall (ls : list string) (next rest : string) (max : Z),
      ls <> [] -> Forall noLF ls -> noLF next ->
      (rest = EmptyString /\ next <> EmptyString \/ strings.HasPrefix rest nl = true) ->
      (Z.of_nat (String.length (linesText ls)) <= max)%Z ->
      (max < Z.of_nat (String.length (linesText ls) + String.length next +
                       (if String.eqb rest EmptyString then 0 else 1)))%Z ->
      extractLinesWithByteLimit (linesText ls ++ next ++ rest) max =
      Some {| Content := linesText ls; WasLimited := true; LinesRead := length ls |}).
Proof.
  split.
  - intros content max. unfold extractLinesWithByteLimit.
    destruct (String.eqb content EmptyString) eqn:He.
    + apply String.eqb_eq in He. subst. eexists. split; [reflexivity|].
      split; [reflexivity | simpl; lia].
    + rewrite eqb_empty_length in He. apply Nat.eqb_neq in He.
      cbn [extractLoop strings.from]. unfold firstLine.
      destruct (strings.Index content nl) as [k|] eqn:Hi.
      * pose proof (Index_nl_bound _ _ Hi) as Hk.
        cbn [Nat.ltb Nat.leb andb].
        destruct (extractLoop_returns (String.length content) content max
                    1 (k + 0 + 1) (k + 0 + 1))
          as (n' & cl' & lim & E & B & Hn & _); [lia | lia | lia |].
        rewrite E. eexists. split; [reflexivity|]. cbn [Content LinesRead].
        split; [apply HasPrefix_upto; lia | lia].
      * cbn [Nat.ltb Nat.leb andb]. eexists. split; [reflexivity|].
        cbn [Content LinesRead]. rewrite upto_all.
        split; [apply HasPrefix_refl | lia].
  - intros ls next rest max Hne Hno Hnext Hrest Hlo Hhi.
    set (content := linesText ls ++ next ++ rest).
    assert (Hlen : String.length (linesText ls) <= String.length content)
      by (unfold content; rewrite length_app; lia).
    pose proof (linesText_length_ge ls) as Hls.
    assert (Hpos : 0 < length ls) by (destruct ls; [congruence | simpl; lia]).
    unfold extractLinesWithByteLimit.
    rewrite eqb_empty_length.
    replace (String.length content =? 0)%nat with false
      by (symmetry; apply Nat.eqb_neq; lia).
    replace (S (String.length content))
      with (length ls + S (String.length content - length ls)) by lia.
    rewrite (extractLoop_lines content max ls _ 0 0 0 (next ++ rest));
      [| reflexivity | assumption | simpl; lia].
    cbn [extractLoop Nat.add].
    replace (match ls with [] => 0 | _ :: _ => String.length (linesText ls) end)
      with (String.length (linesText ls)) by (destruct ls; [congruence | reflexivity]).
    unfold content at 1. rewrite from_app.
    replace (0 <? length ls)%nat with true by (symmetry; apply Nat.ltb_lt; lia).
    cbn [andb].
    destruct Hrest as [[-> Hnz] | Hp].
    + rewrite app_empty_r. unfold noLF in Hnext. rewrite Hnext.
      replace (Z.of_nat (String.length content) >? max)%Z with true.
      * unfold content. now rewrite upto_app.
      * symmetry. rewrite Z.gtb_ltb. apply Z.ltb_lt.
        unfold content. rewrite !length_app.
        cbn [String.eqb] in Hhi.
        change (String.length EmptyString) with 0. lia.
    + apply HasPrefix_split in Hp. rewrite Hp.
      rewrite Index_nl_line by assumption.
      destruct rest as [|c rest']; [discriminate|].
      cbn [String.eqb] in Hhi.
      replace (Z.of_nat (String.length next + String.length (linesText ls) + 1) >? max)%Z
        with true by (symmetry; rewrite Z.gtb_ltb; apply Z.ltb_lt; lia).
      unfold content. now rewrite upto_app.
Qed.

Lemma extract_truncation_witness :
  extractLinesWithByteLimit
    (linesText ["line1"; "line2"] ++ "line3" ++ nl) 13%Z
  = Some {| Content := linesText ["line1"; "line2"];
            WasLimited := true; LinesRead := 2 |}.
Proof.
  apply (proj2 extractLinesWithByteLimit_first_line_and_truncation
           ["line1"; "line2"] "line3" nl 13%Z).
  - discriminate.
  - repeat constructor.
  - reflexivity.
  - right. reflexivity.
  - vm_compute. discriminate.
  - vm_compute. reflexivity.
Defined.

(** C9, as amended.  For the empty text and any limit the result is
    empty content, not limited, with one line read.  No hint to continue
    at an offset is built from it: a result that is not limited gets
    no hint, or the range hint when the offset is above 1.  So the only
    hint a read of an empty file can get is the range hint, and its
    range ends at offset + 1 (wrapped around at 64 bits), as for a file
    of one line. *)
Theorem extractLinesWithByteLimit_empty :
  forall (max : Z),
    extractLinesWithByteLimit EmptyString max =
      Some {| Content := EmptyString; WasLimited := false; LinesRead := 1 |} /\
    (forall (offset : Z) (hasOffset : bool),
      mcp_handlers.readInfo offset hasOffset
               {| Content := EmptyString; WasLimited := false; LinesRead := 1 |} =
      if hasOffset && (offset >? 1)%Z
      then nl ++ nl ++ "<file-read-info>Read lines " ++ fmt.d offset ++ "-" ++
           fmt.d (tools.wrap64 (offset + 1)) ++ "." ++ "</file-read-info>"
      else EmptyString) /\
    (forall (offset : Z) (hasOffset : bool) (result : ExtractLinesResult),
      result.(WasLimited) = false ->
      mcp_handlers.readInfo offset hasOffset result =
      if hasOffset && (offset >? 1)%Z
      then nl ++ nl ++ "<file-read-info>Read lines " ++ fmt.d offset ++ "-" ++
           fmt.d (tools.wrap64 (offset + Z.of_nat result.(LinesRead))) ++ "." ++
           "</file-read-info>"
      else EmptyString).
Proof.
  intros max. split; [reflexivity|].
  assert (H : forall (offset : Z) (hasOffset : bool) (result : ExtractLinesResult),
             result.(WasLimited) = false ->
             mcp_handlers.readInfo offset hasOffset result =
             if hasOffset && (offset >? 1)%Z
             then nl ++ nl ++ "<file-read-info>Read lines " ++ fmt.d offset ++ "-" ++
                  fmt.d (tools.wrap64 (offset + Z.of_nat result.(LinesRead))) ++ "." ++
                  "</file-read-info>"
             else EmptyString).
  { intros offset hasOffset result Hl. unfold mcp_handlers.readInfo. rewrite Hl.
    rewrite orb_false_r.
    destruct (hasOffset && (offset >? 1)%Z); [|reflexivity].
    now rewrite !app_assoc_s. }
  split; [|exact H].
  intros offset hasOffset.
  exact (H offset hasOffset
           {| Content := EmptyString; WasLimited := false; LinesRead := 1 |} eq_refl).
Qed.

End ExtractLines.

(** ** utils.go: [markdownEscape] *)

Section MarkdownEscape.





Lemma SplitByte_nonempty (s : string) (sep : ascii) : strings.SplitByte s sep <> [].
Proof.
  destruct s as [|c s]; simpl; [discriminate|].
  destruct (Ascii.eqb c sep); [discriminate|].
  destruct (strings.SplitByte s sep); discriminate.
Qed.



(** The bound on the iterations that lengthen the fence is enough: the
    fence returned is longer than the match. *)
Lemma growFence_exits (m : string) :
  forall fuel fence,
    String.length m + 1 <= fuel + String.length fence ->
    String.length m < String.length (growFence fuel m fence).
Proof.
  induction fuel as [|fuel IH]; intros fence Hf; cbn [growFence].
  - simpl in Hf. lia.
  - destruct (String.length fence <=? String.length m)%nat eqn:Hc.
    + apply IH. rewrite length_app. simpl. lia.
    + apply Nat.leb_gt in Hc. exact Hc.
Qed.






End MarkdownEscape.

Section MarkdownEscapeExamples.


End MarkdownEscapeExamples.

(** ** The diff engine *)

Section DiffEngine.

Import mcp_server.

Lemma nth_Forall {A : Type} (P : A -> Prop) (l : list A) (d : A) (i : nat) :
  Forall P l -> P d -> P (nth i l d).
Proof.
  intros Hl Hd. revert i. induction Hl as [|x l Hx Hl IH]; intros [|i]; simpl; auto.
Qed.

(** The bound on the iterations that build the edit script is enough:
    a larger one gives the same script. *)
Lemma editScript_fuel (oldLines newLines : list string) (lcs : list (list nat))
    (extra : nat) :
  forall fuel i j,
    (length oldLines - i) + (length newLines - j) <= fuel ->
    editScript (fuel + extra) oldLines newLines lcs i j =
    editScript fuel oldLines newLines lcs i j.
Proof.
  induction fuel as [|fuel IH]; intros i j Hf.
  - destruct extra as [|extra]; [reflexivity|].
    cbn [Nat.add editScript].
    replace (i <? length oldLines)%nat with false
      by (symmetry; apply Nat.ltb_ge; lia).
    replace (j <? length newLines)%nat with false
      by (symmetry; apply Nat.ltb_ge; lia).
    reflexivity.
  - cbn [Nat.add editScript].
    destruct (i <? length oldLines)%nat eqn:Hi;
      destruct (j <? length newLines)%nat eqn:Hj; cbn [andb];
      try apply Nat.ltb_lt in Hi; try apply Nat.ltb_lt in Hj;
      repeat match goal with
             | |- context [if ?b then _ else _] => destruct b
             end;
      try reflexivity; f_equal; apply IH; lia.
Qed.

(** Comparing a sequence of lines with itself only yields equal
    operations, whatever the table says. *)
Lemma editScript_same (l : list string) (lcs : list (list nat)) :
  forall fuel i,
    Forall (fun o => isEqualOp o = true) (editScript fuel l l lcs i i).
Proof.
  induction fuel as [|fuel IH]; intros i; [constructor|].
  cbn [editScript].
  destruct (i <? length l)%nat; cbn [andb].
  - rewrite String.eqb_refl. constructor; [reflexivity | apply IH].
  - constructor.
Qed.

(** Without a change the grouping loop never opens a hunk. *)
Lemma groupStep_equal (ops : list diffOp) (hunks : list diffHunk) (idx : nat) :
  Forall (fun o => isEqualOp o = true) ops ->
  groupStep ops (hunks, None) idx = (hunks, None).
Proof.
  intros Hall. unfold groupStep.
  assert (H : isEqualOp (opAt ops idx) = true)
    by (apply (nth_Forall (fun o => isEqualOp o = true)); [assumption | reflexivity]).
  now rewrite H.
Qed.

Lemma group_equal (ops : list diffOp) (idxs : list nat) :
  Forall (fun o => isEqualOp o = true) ops ->
  fold_left (groupStep ops) idxs ([], None) = ([], None).
Proof.
  intros Hall. induction idxs as [|i idxs IH]; [reflexivity|].
  cbn [fold_left]. now rewrite groupStep_equal.
Qed.

Lemma computeDiffHunks_same (l : list string) : computeDiffHunks l l = [].
Proof.
  unfold computeDiffHunks. now rewrite group_equal by apply editScript_same.
Qed.

(** C7.  The diff of a text with itself is the empty text, for every
    file name and every text.  The diff from [line1, line3] to
    [line1, line2, line3] has exactly one hunk, whose added lines are
    [line2] and which removes nothing; rendered, it is the text given
    below. *)
Theorem createUnifiedDiff_same_and_insertion :
  (forall (filename X : string), createUnifiedDiff filename X X = EmptyString) /\
  (let hunks := computeDiffHunks (splitLines ("line1" ++ nl ++ "line3"))
                                 (splitLines ("line1" ++ nl ++ "line2" ++ nl ++ "line3")) in
   hunks = [mkDiffHunk 0 2 0 3 [" line1"; "+line2"; " line3"]] /\
   map (fun h => tools.addedLines h.(lines)) hunks = [["line2"]] /\
   map (fun h => tools.removedLines h.(lines)) hunks = [[]]) /\
  (forall (filename : string),
     createUnifiedDiff filename ("line1" ++ nl ++ "line3")
                                ("line1" ++ nl ++ "line2" ++ nl ++ "line3")
     = "--- a/" ++ filename ++ nl ++ "+++ b/" ++ filename ++ nl ++
       ("@@ -1,2 +1,3 @@" ++ nl ++ " line1" ++ nl ++ "+line2" ++ nl ++ " line3" ++ nl)).
Proof.
  split; [|split].
  - intros filename X. unfold createUnifiedDiff.
    now rewrite computeDiffHunks_same.
  - vm_compute. repeat split.
  - intros filename. unfold createUnifiedDiff.
    set (hunks := computeDiffHunks _ _). vm_compute in hunks. subst hunks.
    reflexivity.
Qed.

(** C3.  The round trip at a removed line that starts with two dashes
    and a space.  The old text is the line [-- comment], the new text
    the line [x]: no line is common.  The diff has one hunk that removes
    the old line and adds the new one, but the removed line is rendered
    as [--- comment], which the parser reads as the header of a second
    patch: the parsed hunk has no lines, and neither the removed nor the
    added line is recovered; the old and the new text that the tool
    update takes from the hunk are both empty. *)
Theorem parse_of_diff_loses_dashed_line :
  computeDiffHunks (splitLines "-- comment") (splitLines "x")
    = [mkDiffHunk 0 1 0 1 ["--- comment"; "+x"]] /\
  createUnifiedDiff "f" "-- comment" "x"
    = "--- a/f" ++ nl ++ "+++ b/f" ++ nl ++ "@@ -1,1 +1,1 @@" ++ nl ++
      "--- comment" ++ nl ++ "+x" ++ nl /\
  tools.parseUnifiedDiff (createUnifiedDiff "f" "-- comment" "x")
    = [tools.mkPatch "a/f" "b/f" [tools.mkHunk 1 []];
       tools.mkPatch "comment" EmptyString []] /\
  flat_map (fun p => flat_map (fun h => tools.removedLines h.(tools.lines)) p.(tools.hunks))
           (tools.parseUnifiedDiff (createUnifiedDiff "f" "-- comment" "x")) = [] /\
  flat_map (fun p => flat_map (fun h => tools.addedLines h.(tools.lines)) p.(tools.hunks))
           (tools.parseUnifiedDiff (createUnifiedDiff "f" "-- comment" "x")) = [] /\
  flat_map (fun p => map tools.hunkSides p.(tools.hunks))
           (tools.parseUnifiedDiff (createUnifiedDiff "f" "-- comment" "x")) = [([], [])].
Proof. vm_compute. repeat split. Qed.

(** The same round trip on texts without a common line and without a
    dashed line: the removed lines are the old text and the added lines
    the new text. *)
Example parse_of_diff_without_common_lines :
  let parsed := tools.parseUnifiedDiff
                  (createUnifiedDiff "f" ("a" ++ nl ++ "b") ("x" ++ nl ++ "y")) in
  flat_map (fun p => flat_map (fun h => tools.removedLines h.(tools.lines)) p.(tools.hunks))
           parsed = splitLines ("a" ++ nl ++ "b") /\
  flat_map (fun p => flat_map (fun h => tools.addedLines h.(tools.lines)) p.(tools.hunks))
           parsed = splitLines ("x" ++ nl ++ "y").
Proof. vm_compute. split; reflexivity. Qed.

(** An added line that starts with two plus signs and a space is read
    as the new file name. *)
Example parse_of_diff_loses_plus_line :
  tools.parseUnifiedDiff (createUnifiedDiff "f" "x" "++ y")
  = [tools.mkPatch "a/f" "y" [tools.mkHunk 1 ["-x"]]].
Proof. vm_compute. reflexivity. Qed.

End DiffEngine.

(** ** The permission rule engine *)

Section PermissionFacts.

Import settings.

Variable P : Platform.

Lemma containsShellOperator_false (s : string) :
  containsShellOperator s = false <-> operatorFree s.
Proof.
  unfold containsShellOperator, operatorFree. split.
  - intros H op Hin Hocc. apply Contains_spec in Hocc.
    assert (existsb (fun op => strings.Contains s op) shellOperators = true)
      by (apply existsb_exists; eauto).
    congruence.
  - intros H. apply not_true_is_false. intros Hex.
    apply existsb_exists in Hex as (op & Hin & Hc).
    apply Contains_spec in Hc. exact (H op Hin Hc).
Qed.

(** A shell rule with an empty argument matches every invocation of the
    shell tool, wildcard or not. *)
Lemma matchesRule_bash_no_argument (wildcard : bool)
    (toolInput : gmap string any) (cwd : string) :
  matchesRule P (mkRule "Bash" EmptyString wildcard) bashTool toolInput cwd = true.
Proof. reflexivity. Qed.

Lemma matchesRule_bash (p : string) (wildcard : bool)
    (toolInput : gmap string any) (cwd : string) :
  p <> EmptyString ->
  matchesRule P (mkRule "Bash" p wildcard) bashTool toolInput cwd =
  let c := getStringArg toolInput "command" in
  if wildcard
  then strings.HasPrefix c p && negb (containsShellOperator (strings.from (String.length p) c))
  else String.eqb c p.
Proof.
  intros Hp. apply String.eqb_neq in Hp.
  unfold matchesRule. cbn [toolName argument isWildcard].
  change (String.eqb "Bash" "Bash") with true.
  change (String.eqb bashTool (ACPToolNamePrefix ++ "Bash")) with true.
  cbn [negb]. rewrite Hp.
  change (toolArgAccessors bashTool)
    with (Some (fun input : gmap string any => getStringArg input "command")).
  cbn beta zeta.
  destruct (String.eqb_spec (getStringArg toolInput "command") EmptyString) as [He|He].
  - rewrite He. destruct p as [|x p]; [discriminate|].
    destruct wildcard; reflexivity.
  - apply String.eqb_neq in He. rewrite He.
    destruct wildcard; [|reflexivity].
    destruct (strings.HasPrefix (getStringArg toolInput "command") p); cbn [negb andb];
      [|reflexivity].
    now destruct (containsShellOperator _).
Qed.

(** C2, as amended.  For the shell tool and a shell rule with a
    non-empty argument [p]: a wildcard rule matches the command [c]
    exactly when [c] is [p] followed by a remainder that contains none
    of the shell operators; a rule without wildcard matches exactly when
    [c] equals [p].  So the prefix [npm run] matches [npm run lint] and
    [npm run] but not [npm run && malicious].  A shell rule whose
    argument is empty (a [Bash] rule written with the bare suffix [:*]
    parses to one) matches every command. *)
Theorem matchesRule_shell_prefix :
  forall (p c : string) (toolInput : gmap string any) (cwd : string),
    p <> EmptyString ->
    getStringArg toolInput "command" = c ->
    (matchesRule P (mkRule "Bash" p true) bashTool toolInput cwd = true <->
     exists remainder, c = p ++ remainder /\ operatorFree remainder) /\
    (matchesRule P (mkRule "Bash" p false) bashTool toolInput cwd = true <-> c = p) /\
    (forall wildcard,
       matchesRule P (mkRule "Bash" EmptyString wildcard) bashTool toolInput cwd = true) /\
    parseRule "Bash(npm run:*)" = mkRule "Bash" "npm run" true /\
    parseRule "Bash(:*)" = mkRule "Bash" EmptyString true /\
    (let run cmd := matchesRule P (parseRule "Bash(npm run:*)") bashTool
                      (<["command" := Str cmd]> ∅) cwd in
     run "npm run lint" = true /\ run "npm run" = true /\
     run "npm run && malicious" = false).
Proof.
  intros p c toolInput cwd Hp Hc.
  split; [|split; [|split; [|split; [|split]]]].
  - rewrite matchesRule_bash by assumption. cbn zeta. rewrite Hc. split.
    + intros H. apply andb_prop in H as [Hpre Hop].
      exists (strings.from (String.length p) c). split.
      * now apply HasPrefix_split.
      * apply containsShellOperator_false. now destruct (containsShellOperator _).
    + intros (r & -> & Hfree). rewrite HasPrefix_app, from_app.
      apply containsShellOperator_false in Hfree. now rewrite Hfree.
  - rewrite matchesRule_bash by assumption. cbn zeta. rewrite Hc.
    apply String.eqb_eq.
  - intros wildcard. apply matchesRule_bash_no_argument.
  - reflexivity.
  - reflexivity.
  - vm_compute. repeat split.
Qed.

(** C6.  A tool whose name does not start with the internal prefix is
    answered with ask, no rule recorded, whatever the settings, the rules
    and the input are. *)
Theorem CheckPermission_not_namespaced :
  forall (s : SettingsManager) (tool : string) (toolInput : gmap string any),
    strings.HasPrefix tool ACPToolNamePrefix = false ->
    CheckPermission P s tool toolInput = mkResult PermissionAsk EmptyString EmptyString.
Proof.
  intros s tool toolInput H. unfold CheckPermission. now rewrite H.
Qed.

Lemma firstMatching_Some (rules : list string) (tool : string)
    (toolInput : gmap string any) (cwd : string) (r : string) :
  firstMatch (fun r => matchesRule P (parseRule r) tool toolInput cwd) rules r ->
  firstMatching P rules tool toolInput cwd = Some r.
Proof.
  intros (before & after & -> & Hr & Hb).
  induction before as [|x before IH]; cbn [firstMatching app].
  - now rewrite Hr.
  - rewrite (Hb x) by now left. apply IH. intros y Hy. apply Hb. now right.
Qed.

Lemma firstMatching_None (rules : list string) (tool : string)
    (toolInput : gmap string any) (cwd : string) :
  noMatch (fun r => matchesRule P (parseRule r) tool toolInput cwd) rules ->
  firstMatching P rules tool toolInput cwd = None.
Proof.
  intros H. induction rules as [|x rules IH]; [reflexivity|].
  cbn [firstMatching]. rewrite (H x) by now left.
  apply IH. intros y Hy. apply H. now right.
Qed.

Lemma mergeSettings_rules (s : SettingsManager) :
  exists perms,
    (mergeSettings s).(mergedSettings).(Permissions) = Some perms /\
    perms.(Deny) = fromAllSources Deny s /\
    perms.(Allow) = fromAllSources Allow s /\
    perms.(Ask) = fromAllSources Ask s.
Proof.
  unfold mergeSettings, fromAllSources, sourceRules.
  cbn [mergedSettings fold_left].
  unfold mergeOne. cbn [Permissions].
  destruct (Permissions (userSettings s)), (Permissions (projectSettings s)),
    (Permissions (localSettings s)), (Permissions (enterpriseSettings s));
    cbn [Permissions Deny Allow Ask app];
    eexists; (split; [reflexivity|]); cbn [Deny Allow Ask];
    rewrite ?List.app_nil_r, <- ?List.app_assoc; repeat split; reflexivity.
Qed.

Lemma matchesRule_read_all (toolInput : gmap string any) (cwd : string) :
  matchesRule P (parseRule "Read") readTool toolInput cwd = true.
Proof. reflexivity. Qed.

Lemma matchesRule_read_env (toolInput : gmap string any) (cwd : string) :
  matchesRule P (parseRule "Read(./.env)") readTool toolInput cwd =
  let path := getStringArg toolInput "file_path" in
  negb (String.eqb path EmptyString) && matchesGlob P "./.env" path cwd.
Proof.
  change (parseRule "Read(./.env)") with (mkRule "Read" "./.env" false).
  unfold matchesRule. cbn [toolName argument isWildcard].
  change (toolArgAccessors readTool)
    with (Some (fun input : gmap string any => getStringArg input "file_path")).
  change (String.eqb "Read" "Bash") with false.
  change (String.eqb "Read" "Edit") with false.
  change (String.eqb "Read" "Read") with true.
  change (slices_Contains fileReadingTools readTool) with true.
  change (String.eqb "./.env" EmptyString) with false.
  change (String.eqb readTool (ACPToolNamePrefix ++ "Bash")) with false.
  cbn beta iota zeta. cbn [negb].
  now destruct (String.eqb (getStringArg toolInput "file_path") EmptyString).
Qed.

(** X28.  The order deny, allow, ask.  For a tool with the internal
    prefix and merged permissions [perms]: the first deny rule that
    matches decides deny and is recorded; without a matching deny rule
    the first matching allow rule decides allow; without either the
    first matching ask rule decides ask; without any match, or without
    permissions at all, the answer is ask with no rule.  The merged
    lists are the lists of the four sources one after the other, so the
    order deny, allow, ask holds whichever source a rule comes from.
    With deny = [Read(./.env)] and allow = [Read], a read is denied
    exactly when its path is not empty and [matchesGlob] holds of the
    pattern [./.env], the path and the working directory, and every
    other read is allowed by the rule [Read]. *)
Theorem CheckPermission_precedence :
  (forall (s : SettingsManager) (tool : string) (toolInput : gmap string any)
          (perms : PermissionSettings),
      strings.HasPrefix tool ACPToolNamePrefix = true ->
      s.(mergedSettings).(Permissions) = Some perms ->
      let m := fun r => matchesRule P (parseRule r) tool toolInput s.(cwd) in
      let result := CheckPermission P s tool toolInput in
      (forall r, firstMatch m perms.(Deny) r ->
                 result = mkResult PermissionDeny r "deny") /\
      (noMatch m perms.(Deny) ->
       forall r, firstMatch m perms.(Allow) r ->
                 result = mkResult PermissionAllow r "allow") /\
      (noMatch m perms.(Deny) -> noMatch m perms.(Allow) ->
       forall r, firstMatch m perms.(Ask) r ->
                 result = mkResult PermissionAsk r "ask") /\
      (noMatch m perms.(Deny) -> noMatch m perms.(Allow) -> noMatch m perms.(Ask) ->
       result = mkResult PermissionAsk EmptyString EmptyString)) /\
  (forall (s : SettingsManager) (tool : string) (toolInput : gmap string any),
      s.(mergedSettings).(Permissions) = None ->
      CheckPermission P s tool toolInput = mkResult PermissionAsk EmptyString EmptyString) /\
  (forall (s : SettingsManager),
      exists perms,
        (mergeSettings s).(mergedSettings).(Permissions) = Some perms /\
        perms.(Deny) = fromAllSources Deny s /\
        perms.(Allow) = fromAllSources Allow s /\
        perms.(Ask) = fromAllSources Ask s) /\
  (forall (s : SettingsManager) (toolInput : gmap string any)
          (ask dirs : list string) (mode : string),
      s.(mergedSettings).(Permissions) =
        Some (mkPermissionSettings ["Read"] ["Read(./.env)"] ask dirs mode) ->
      let path := getStringArg toolInput "file_path" in
      CheckPermission P s readTool toolInput =
      if negb (String.eqb path EmptyString) && matchesGlob P "./.env" path s.(cwd)
      then mkResult PermissionDeny "Read(./.env)" "deny"
      else mkResult PermissionAllow "Read" "allow").
Proof.
  split; [|split; [|split]].
  - intros s tool toolInput perms Hpre Hperms m result.
    subst result. unfold CheckPermission. rewrite Hpre, Hperms. cbn [negb].
    split; [|split; [|split]].
    + intros r Hr. now rewrite (firstMatching_Some _ _ _ _ _ Hr).
    + intros Hd r Hr.
      now rewrite (firstMatching_None _ _ _ _ Hd), (firstMatching_Some _ _ _ _ _ Hr).
    + intros Hd Ha r Hr.
      now rewrite (firstMatching_None _ _ _ _ Hd), (firstMatching_None _ _ _ _ Ha),
        (firstMatching_Some _ _ _ _ _ Hr).
    + intros Hd Ha Hk.
      now rewrite (firstMatching_None _ _ _ _ Hd), (firstMatching_None _ _ _ _ Ha),
        (firstMatching_None _ _ _ _ Hk).
  - intros s tool toolInput Hnone. unfold CheckPermission. rewrite Hnone.
    now destruct (negb _).
  - apply mergeSettings_rules.
  - intros s toolInput ask dirs mode Hperms path. subst path.
    unfold CheckPermission. rewrite Hperms.
    change (strings.HasPrefix readTool ACPToolNamePrefix) with true.
    cbn [negb Deny Allow firstMatching].
    rewrite matchesRule_read_env, matchesRule_read_all. cbn zeta.
    now destruct (negb _ && _).
Qed.

End PermissionFacts.

Section PermissionExamples.

Import settings.

Lemma CheckPermission_precedence_witness :
  CheckPermission linux envManager readTool (readOf "./.env")
    = mkResult PermissionDeny "Read(./.env)" "deny" /\
  CheckPermission linux envManager readTool (readOf "./other.txt")
    = mkResult PermissionAllow "Read" "allow".
Proof.
  split.
  - apply (proj1 (proj1 (CheckPermission_precedence linux)
                    envManager readTool (readOf "./.env")
                    (mkPermissionSettings ["Read"] ["Read(./.env)"] [] [] EmptyString)
                    eq_refl eq_refl)).
    exists [], []. split; [reflexivity|]. split; [reflexivity|].
    intros x [].
  - rewrite (proj2 (proj2 (proj2 (CheckPermission_precedence linux)))
               envManager (readOf "./other.txt") [] [] EmptyString eq_refl).
    reflexivity.
Defined.

(** [.env] and [./.env] name the same file of /test: both normalise
    to /test/.env, and a read of either is denied. *)
Lemma env_paths_normalise_alike :
  normalizePath linux ".env" "/test" = "/test/.env" /\
  normalizePath linux "./.env" "/test" = "/test/.env" /\
  CheckPermission linux envManager readTool (readOf ".env")
    = mkResult PermissionDeny "Read(./.env)" "deny".
Proof. vm_compute. repeat split. Qed.

(** On patterns without metacharacters the glob with classes is the
    literal one. *)
Lemma classGlob_literal (pattern s : string) :
  hasGlobMeta pattern = false -> classGlob pattern s = literalGlob pattern s.
Proof.
  unfold classGlob, literalGlob. intros H. rewrite H. revert s.
  induction pattern as [|c pattern IH]; intros s.
  - cbn [globTokens option_map globMatch]. now destruct s.
  - cbn [hasGlobMeta] in H. apply Bool.orb_false_iff in H as [Hc Hp].
    cbn [globTokens]. rewrite Hc.
    assert (Hb : Ascii.eqb c "[" = false).
    { destruct (Ascii.eqb_spec c "[") as [->|]; [discriminate Hc | reflexivity]. }
    rewrite Hb.
    destruct (globTokens pattern None) as [tokens|] eqn:Ht.
    + cbn [option_map]. destruct s as [|x s].
      * reflexivity.
      * cbn [globMatch String.eqb]. specialize (IH Hp s). cbn [option_map] in IH.
        injection IH as IH. rewrite IH, (Ascii.eqb_sym x c).
        now destruct (Ascii.eqb c x).
    + specialize (IH Hp EmptyString). discriminate IH.
Qed.

(** C1, the failing input.  In the directory /a[b] the rule
    [Read(./.env)] becomes the pattern /a[b]/.env, in which [[b]] is a
    class: the pattern does not match the path /a[b]/.env that a read
    of [./.env] normalises to, so the read is allowed by the rule
    [Read]; the pattern matches /ab/.env, so a read of that other file
    is denied. *)
Lemma read_env_allowed_in_bracket_directory :
  normalizePath linuxClasses "./.env" "/a[b]" = "/a[b]/.env" /\
  classGlob "/a[b]/.env" "/a[b]/.env" = Some false /\
  CheckPermission linuxClasses bracketManager readTool (readOf "./.env")
    = mkResult PermissionAllow "Read" "allow" /\
  classGlob "/a[b]/.env" "/ab/.env" = Some true /\
  CheckPermission linuxClasses bracketManager readTool (readOf "/ab/.env")
    = mkResult PermissionDeny "Read(./.env)" "deny".
Proof. vm_compute. repeat split. Qed.

Lemma CheckPermission_not_namespaced_witness :
  CheckPermission linux
    (mkSettingsManager "/test" noSettings noSettings noSettings noSettings
       (mkClaudeCodeSettings
          (Some (mkPermissionSettings [] ["Read"] [] [] EmptyString)) None EmptyString))
    "SomeOtherTool" ∅
  = mkResult PermissionAsk EmptyString EmptyString.
Proof.
  apply (CheckPermission_not_namespaced linux). reflexivity.
Defined.

Lemma matchesRule_shell_prefix_witness :
  matchesRule linux (mkRule "Bash" "npm run" true) bashTool
              (commandOf "npm run lint") "/test" = true.
Proof.
  apply (proj1 (matchesRule_shell_prefix linux "npm run" "npm run lint"
                  (commandOf "npm run lint") "/test"
                  ltac:(discriminate) eq_refl)).
  exists " lint". split; [reflexivity|].
  apply containsShellOperator_false. reflexivity.
Defined.

(** The [Bash] rule whose whole argument is the wildcard suffix [:*] is
    a wildcard rule with the empty prefix; it matches a command whose
    remainder after that prefix contains the operator [&&]. *)
Lemma shell_empty_prefix_matches_operator :
  parseRule "Bash(:*)" = mkRule "Bash" EmptyString true /\
  matchesRule linux (parseRule "Bash(:*)") bashTool
              (commandOf "ls && rm -rf /") "/test" = true /\
  strings.HasPrefix "ls && rm -rf /" EmptyString = true /\
  containsShellOperator (strings.from 0 "ls && rm -rf /") = true.
Proof. vm_compute. repeat split. Qed.

End PermissionExamples.

(** ** The end of a prompt turn *)

Section TurnEnd.

Import acp_agent.

(** C4, as amended.  How a result event ends the turn.  Subtype success:
    auth required when the result text asks to log in; otherwise an
    internal error with the result text when the error flag is set;
    otherwise end-turn.  The three limit subtypes: max-turn-requests
    unless the error flag is set.  Subtype error_during_execution:
    end-turn unless the error flag is set.  With the error flag set,
    these four subtypes fail with an internal error that carries the
    error messages joined by a comma and a space, or the subtype name
    when that text is empty.  Every other subtype: end-turn.  The read
    loop hands the result to [handleResult] unless the session was
    cancelled, in which case the turn ends as cancelled. *)
Theorem handleResult_outcomes :
  forall (resp : SDKResponse),
    let joined := strings.Join resp.(Errors) ", " in
    (resp.(Subtype) = "success" -> signalsAuth resp.(Result) ->
     handleResult resp = Fail AuthRequired) /\
    (resp.(Subtype) = "success" -> ~ signalsAuth resp.(Result) ->
     resp.(IsError) = true ->
     handleResult resp = Fail (InternalError resp.(Result))) /\
    (resp.(Subtype) = "success" -> ~ signalsAuth resp.(Result) ->
     resp.(IsError) = false ->
     handleResult resp = Stop StopReasonEndTurn) /\
    (In resp.(Subtype) limitSubtypes -> resp.(IsError) = false ->
     handleResult resp = Stop StopReasonMaxTurnRequests) /\
    (resp.(Subtype) = "error_during_execution" -> resp.(IsError) = false ->
     handleResult resp = Stop StopReasonEndTurn) /\
    (In resp.(Subtype) ("error_during_execution" :: limitSubtypes) ->
     resp.(IsError) = true ->
     (joined <> EmptyString -> handleResult resp = Fail (InternalError joined)) /\
     (joined = EmptyString -> handleResult resp = Fail (InternalError resp.(Subtype)))) /\
    (~ In resp.(Subtype) ("success" :: "error_during_execution" :: limitSubtypes) ->
     handleResult resp = Stop StopReasonEndTurn) /\
    onResult false resp = handleResult resp /\
    onResult true resp = Stop StopReasonCancelled.
Proof.
  intros resp joined. unfold handleResult, errorsOrSubtype, signalsAuth.
  fold joined.
  assert (Hauth : forall b, strings.Contains resp.(Result) "Please run /login" = b ->
                  if b then exists a c, resp.(Result) = a ++ "Please run /login" ++ c
                  else ~ exists a c, resp.(Result) = a ++ "Please run /login" ++ c).
  { intros [|] Hb.
    - now apply Contains_spec.
    - intros H. apply Contains_spec in H. congruence. }
  specialize (Hauth _ eq_refl).
  split; [|split; [|split; [|split; [|split; [|split; [|split; [|split]]]]]]];
    [| | | | | | | reflexivity | reflexivity].
  - intros -> Ha. cbn [String.eqb Ascii.eqb Bool.eqb].
    destruct (strings.Contains _ _); [reflexivity | contradiction].
  - intros -> Ha He. cbn [String.eqb Ascii.eqb Bool.eqb].
    destruct (strings.Contains _ _); [contradiction | now rewrite He].
  - intros -> Ha He. cbn [String.eqb Ascii.eqb Bool.eqb].
    destruct (strings.Contains _ _); [contradiction | now rewrite He].
  - intros Hin He. rewrite He.
    destruct Hin as [<- | [<- | [<- | []]]]; reflexivity.
  - intros -> He. now rewrite He.
  - intros Hin He. rewrite He. split.
    + intros Hne. apply String.eqb_neq in Hne.
      destruct Hin as [<- | [<- | [<- | [<- | []]]]]; cbn; now rewrite Hne.
    + intros Hj. apply String.eqb_eq in Hj.
      destruct Hin as [<- | [<- | [<- | [<- | []]]]]; cbn; now rewrite Hj.
  - intros Hnot.
    destruct (String.eqb_spec resp.(Subtype) "success") as [E|_];
      [exfalso; apply Hnot; rewrite E; simpl; tauto|].
    destruct (String.eqb_spec resp.(Subtype) "error_max_turns") as [E|_];
      [exfalso; apply Hnot; rewrite E; simpl; tauto|].
    destruct (String.eqb_spec resp.(Subtype) "error_max_budget_usd") as [E|_];
      [exfalso; apply Hnot; rewrite E; simpl; tauto|].
    destruct (String.eqb_spec resp.(Subtype) "error_max_structured_output_retries") as [E|_];
      [exfalso; apply Hnot; rewrite E; simpl; tauto|].
    destruct (String.eqb_spec resp.(Subtype) "error_during_execution") as [E|_];
      [exfalso; apply Hnot; rewrite E; simpl; tauto|].
    reflexivity.
Qed.

Lemma handleResult_outcomes_witness :
  handleResult (mkSDKResponse "error_max_turns" "session-1" ["too many"; "turns"] true EmptyString)
  = Fail (InternalError "too many, turns").
Proof.
  apply (proj1 (proj1 (proj2 (proj2 (proj2 (proj2 (proj2
           (handleResult_outcomes
              (mkSDKResponse "error_max_turns" "session-1" ["too many"; "turns"]
                             true EmptyString)))))))
           ltac:(right; left; reflexivity) eq_refl)).
  discriminate.
Defined.

(** Two result events that do not end the turn as a default end-turn or
    with the joined messages: an error during execution with the error
    flag set fails the turn, and a limit subtype flagged as error without
    messages carries the subtype name. *)
Lemma result_subtypes_outside_default :
  handleResult (mkSDKResponse "error_during_execution" "session-1" ["boom"] true EmptyString)
    = Fail (InternalError "boom") /\
  strings.Join [] ", " = EmptyString /\
  handleResult (mkSDKResponse "error_max_turns" "session-1" [] true EmptyString)
    = Fail (InternalError "error_max_turns").
Proof. vm_compute. repeat split. Qed.

End TurnEnd.

(** ** Describing a tool call *)

Section ToolStart.

Import tools.

Variable json_MarshalIndent : gmap string any -> option string.

Lemma not_in_eqb (name : string) (table : list string) :
  ~ In name table -> forall x, In x table -> String.eqb name x = false.
Proof.
  intros Hnot x Hin. apply String.eqb_neq. intros ->. contradiction.
Qed.

(** C8, as amended.  A tool name without a case of its own gives the
    kind other, the name as title (the label [Unknown Tool] for the
    blank name), and no content.  The raw input is dumped, as indented
    JSON in a json code fence, only for the tool name [Other]. *)
Theorem toolInfoFromToolUse_unmatched :
  forall (name : string) (input : gmap string any),
    (~ In name startTable ->
     toolInfoFromToolUse json_MarshalIndent name input =
       mkToolInfo (if String.eqb name EmptyString then "Unknown Tool" else name)
                  ToolKindOther [] []) /\
    toolInfoFromToolUse json_MarshalIndent EmptyString input =
      mkToolInfo "Unknown Tool" ToolKindOther [] [] /\
    toolInfoFromToolUse json_MarshalIndent "Other" input =
      mkToolInfo "Other" ToolKindOther
        [ToolContentText
           ("```json" ++ nl ++
            (match json_MarshalIndent input with
             | Some data => data
             | None => "{}"
             end) ++ "```")] [].
Proof.
  intros name input. split; [|split]; [|reflexivity|reflexivity].
  intros Hnot. pose proof (not_in_eqb name startTable Hnot) as Hf.
  unfold toolInfoFromToolUse.
  repeat match goal with
         | |- context [String.eqb name ?x] =>
             rewrite (Hf x) by (vm_compute; repeat (try (left; reflexivity); right))
         end.
  cbn [orb]. unfold nonEmpty.
  now destruct (String.eqb name EmptyString).
Qed.

End ToolStart.

Section ToolStartExamples.

Import tools.

Lemma toolInfoFromToolUse_unmatched_witness :
  toolInfoFromToolUse marshalEmpty "SomeUnknownTool" ∅
  = mkToolInfo "SomeUnknownTool" ToolKindOther [] [].
Proof.
  apply (proj1 (toolInfoFromToolUse_unmatched marshalEmpty "SomeUnknownTool" ∅)).
  vm_compute. intuition discriminate.
Defined.

(** A tool name without a case of its own gets no content: the raw
    input is not dumped. *)
Lemma unmatched_tool_has_no_content :
  ~ In "SomeUnknownTool" startTable /\
  (toolInfoFromToolUse marshalEmpty "SomeUnknownTool" ∅).(Kind) = ToolKindOther /\
  (toolInfoFromToolUse marshalEmpty "SomeUnknownTool" ∅).(Content) = [] /\
  (toolInfoFromToolUse marshalEmpty "SomeUnknownTool" ∅).(Content)
    <> [ToolContentText ("```json" ++ nl ++ "{}" ++ "```")].
Proof.
  split; [vm_compute; intuition discriminate|].
  vm_compute. repeat split. discriminate.
Qed.

End ToolStartExamples.

(** ** The expectations of the repository's tests, on the embedding *)

Section RepositoryTests.

Import settings.

Example test_extract_single_line :
  extractLinesWithByteLimit "hello" 100 = Some (mkExtractLinesResult "hello" false 1).
Proof. vm_compute. reflexivity. Qed.

Example test_extract_multiple_lines :
  let content := "line1" ++ nl ++ "line2" ++ nl ++ "line3" ++ nl in
  extractLinesWithByteLimit content 100 = Some (mkExtractLinesResult content false 4).
Proof. vm_compute. reflexivity. Qed.

Example test_extract_no_trailing_newline :
  let content := "line1" ++ nl ++ "line2" ++ nl ++ "line3" in
  extractLinesWithByteLimit content 100 = Some (mkExtractLinesResult content false 3).
Proof. vm_compute. reflexivity. Qed.

Example test_extract_truncates_at_limit :
  extractLinesWithByteLimit ("line1" ++ nl ++ "line2" ++ nl ++ "line3" ++ nl) 12
  = Some (mkExtractLinesResult ("line1" ++ nl ++ "line2" ++ nl) true 2).
Proof. vm_compute. reflexivity. Qed.

Example test_extract_first_line_always_included :
  extractLinesWithByteLimit ("a very long first line" ++ nl ++ "second" ++ nl) 5
  = Some (mkExtractLinesResult ("a very long first line" ++ nl) true 1).
Proof. vm_compute. reflexivity. Qed.

Example test_markdownEscape_not_at_line_start :
  strings.HasPrefix (markdownEscape "some ```code``` here") ("```" ++ nl) = true.
Proof. vm_compute. reflexivity. Qed.

Example test_markdownEscape_at_line_start :
  strings.HasPrefix (markdownEscape ("some text" ++ nl ++ "```code```" ++ nl ++ "more"))
                    ("````" ++ nl) = true.
Proof. vm_compute. reflexivity. Qed.

Example test_markdownEscape_long_run :
  strings.HasPrefix (markdownEscape "`````code`````") ("``````" ++ nl) = true.
Proof. vm_compute. reflexivity. Qed.

Example test_markdownEscape_trailing_newline :
  markdownEscape ("hello" ++ nl) = "```" ++ nl ++ "hello" ++ nl ++ "```" /\
  markdownEscape "hello" = "```" ++ nl ++ "hello" ++ nl ++ "```".
Proof. vm_compute. split; reflexivity. Qed.

Example test_createUnifiedDiff :
  mcp_server.createUnifiedDiff "test.go" ("hello" ++ nl ++ "world") ("hello" ++ nl ++ "world")
    = EmptyString /\
  strings.Contains
    (mcp_server.createUnifiedDiff "test.go" ("line1" ++ nl ++ "line2" ++ nl ++ "line3")
                                  ("line1" ++ nl ++ "line3")) "-line2" = true /\
  (let diff := mcp_server.createUnifiedDiff "test.go" "hello world" "hello Go" in
   strings.Contains diff "-hello world" = true /\ strings.Contains diff "+hello Go" = true).
Proof. vm_compute. repeat split. Qed.

Example test_parseUnifiedDiff :
  tools.parseUnifiedDiff
    ("--- a/file.go" ++ nl ++ "+++ b/file.go" ++ nl ++ "@@ -1,3 +1,4 @@" ++ nl ++
     " line1" ++ nl ++ "+new line" ++ nl ++ " line2" ++ nl ++ " line3")
  = [tools.mkPatch "a/file.go" "b/file.go"
       [tools.mkHunk 1 [" line1"; "+new line"; " line2"; " line3"]]].
Proof. vm_compute. reflexivity. Qed.

Example test_parseRule :
  parseRule "Read" = mkRule "Read" EmptyString false /\
  parseRule "Read(./.env)" = mkRule "Read" "./.env" false /\
  parseRule "Bash(npm run:*)" = mkRule "Bash" "npm run" true /\
  parseRule "Read(./.env.*)" = mkRule "Read" "./.env.*" false.
Proof. vm_compute. repeat split. Qed.

Example test_containsShellOperator :
  map containsShellOperator
      ["safe command"; "cmd && malicious"; "cmd || other"; "cmd; other"; "cmd | other";
       "$(malicious)"; "`malicious`"; "cmd" ++ nl ++ "other"; "safe-command"]
  = [false; true; true; true; true; true; true; true; false].
Proof. vm_compute. reflexivity. Qed.

Example test_matchesRule_bash :
  let exact := mkRule "Bash" "npm run lint" false in
  let prefix := mkRule "Bash" "npm run" true in
  matchesRule linux exact bashTool (commandOf "npm run lint") "/test" = true /\
  matchesRule linux exact bashTool (commandOf "npm run test") "/test" = false /\
  map (fun cmd => matchesRule linux prefix bashTool (commandOf cmd) "/test")
      ["npm run lint"; "npm run test"; "npm run"; "npm install"; "npm run && malicious"]
  = [true; true; true; false; false].
Proof. vm_compute. repeat split. Qed.

Example test_matchesRule_applies_to :
  let edit := mkRule "Edit" EmptyString false in
  let read := mkRule "Read" EmptyString false in
  matchesRule linux edit (ACPToolNamePrefix ++ "Edit") ∅ "/test" = true /\
  matchesRule linux edit (ACPToolNamePrefix ++ "Write") ∅ "/test" = true /\
  matchesRule linux edit (ACPToolNamePrefix ++ "Read") ∅ "/test" = false /\
  matchesRule linux read (ACPToolNamePrefix ++ "Read") ∅ "/test" = true /\
  matchesRule linux read (ACPToolNamePrefix ++ "Edit") ∅ "/test" = false.
Proof. vm_compute. repeat split. Qed.

Example test_normalizePath :
  normalizePath linux "./file.txt" "/home/user" = "/home/user/file.txt" /\
  normalizePath linux "/abs/path.txt" "/home/user" = "/abs/path.txt" /\
  normalizePath linux "file.txt" "/home/user" = "/home/user/file.txt".
Proof. vm_compute. repeat split. Qed.

Example test_permission_priority :
  let mgr :=
    mkSettingsManager "/test" noSettings noSettings noSettings noSettings
      (mkClaudeCodeSettings
         (Some (mkPermissionSettings ["Read"] ["Read(./.env)"] ["Read(./*)"] [] EmptyString))
         None EmptyString) in
  (CheckPermission linux mgr readTool (readOf "./.env")).(Decision) = PermissionDeny /\
  (CheckPermission linux mgr readTool (readOf "./other.txt")).(Decision) = PermissionAllow.
Proof. vm_compute. split; reflexivity. Qed.

Example test_toolInfo_unknown :
  tools.toolInfoFromToolUse marshalEmpty "SomeUnknownTool" ∅
  = tools.mkToolInfo "SomeUnknownTool" tools.ToolKindOther [] [].
Proof. vm_compute. reflexivity. Qed.

End RepositoryTests.

(** * Further properties of the code *)

(** ** Lines and prefixes *)

Section LinesAndPrefixes.

Import mcp_server.

Lemma SplitByte_join (s : string) : strings.Join (strings.SplitByte s LF) nl = s.
Proof.
  induction s as [|c s IH]; [reflexivity|].
  cbn [strings.SplitByte].
  pose proof (SplitByte_nonempty s LF) as Hne.
  destruct (Ascii.eqb c LF) eqn:Hc.
  - apply Ascii.eqb_eq in Hc. subst c.
    destruct (strings.SplitByte s LF) as [|f fs]; [congruence|].
    change (strings.Join (EmptyString :: f :: fs) nl)
      with (EmptyString ++ nl ++ strings.Join (f :: fs) nl).
    now rewrite IH.
  - destruct (strings.SplitByte s LF) as [|f fs]; [congruence|].
    rewrite <- IH. destruct fs as [|g fs]; [reflexivity|].
    change (strings.Join (String c f :: g :: fs) nl)
      with (String c f ++ nl ++ strings.Join (g :: fs) nl).
    change (strings.Join (f :: g :: fs) nl)
      with (f ++ nl ++ strings.Join (g :: fs) nl).
    now rewrite app_cons.
Qed.

Lemma noLF_cons (c : ascii) (s : string) :
  noLF (String c s) <-> Ascii.eqb c LF = false /\ noLF s.
Proof.
  unfold noLF. rewrite Index_nl_cons.
  destruct (Ascii.eqb c LF); [split; [discriminate | intros [? _]; discriminate]|].
  destruct (strings.Index s nl); split; try discriminate; intuition congruence.
Qed.

Lemma SplitByte_noLF (s : string) : Forall noLF (strings.SplitByte s LF).
Proof.
  induction s as [|c s IH]; [repeat constructor|].
  cbn [strings.SplitByte].
  destruct (Ascii.eqb c LF) eqn:Hc.
  - constructor; [reflexivity | assumption].
  - destruct (strings.SplitByte s LF) as [|f fs]; [repeat constructor|].
    + apply noLF_cons. now split.
    + inversion IH; subst. constructor; [|assumption].
      apply noLF_cons. now split.
Qed.

Lemma SplitByte_single (l : string) : noLF l -> strings.SplitByte l LF = [l].
Proof.
  induction l as [|c l IH]; intros H; [reflexivity|].
  apply noLF_cons in H as [Hc Hl]. cbn [strings.SplitByte].
  now rewrite Hc, IH.
Qed.

Lemma SplitByte_line (l rest : string) :
  noLF l -> strings.SplitByte (l ++ nl ++ rest) LF = l :: strings.SplitByte rest LF.
Proof.
  induction l as [|c l IH]; intros H.
  - rewrite app_nil_l. unfold nl. rewrite app_cons. cbn [strings.SplitByte].
    now rewrite Ascii.eqb_refl.
  - apply noLF_cons in H as [Hc Hl]. rewrite app_cons. cbn [strings.SplitByte].
    now rewrite Hc, IH.
Qed.

Lemma SplitByte_of_join (ls : list string) :
  ls <> [] -> Forall noLF ls -> strings.SplitByte (strings.Join ls nl) LF = ls.
Proof.
  induction ls as [|l ls IH]; intros Hne Hno; [congruence|].
  inversion Hno as [|? ? Hl Hls]; subst.
  destruct ls as [|l' ls].
  - now apply SplitByte_single.
  - change (strings.Join (l :: l' :: ls) nl)
      with (l ++ nl ++ strings.Join (l' :: ls) nl).
    rewrite SplitByte_line by assumption. f_equal. apply IH; [discriminate | assumption].
Qed.

(** X1.  Splitting a text into lines and joining the lines with newlines
    gives the text back; no line holds a newline.  Conversely the lines
    of a joined sequence of newline-free lines are that sequence, except
    for the single empty line, whose text is empty and has no lines. *)
Theorem splitLines_join_round_trip :
  (forall (content : string),
      strings.Join (splitLines content) nl = content /\
      Forall noLF (splitLines content)) /\
  (forall (ls : list string),
      Forall noLF ls -> ls <> [EmptyString] ->
      splitLines (strings.Join ls nl) = ls) /\
  splitLines (strings.Join [EmptyString] nl) = [].
Proof.
  split; [|split]; [| |reflexivity].
  - intros content. unfold splitLines.
    destruct (String.eqb_spec content EmptyString) as [->|Hne].
    + split; [reflexivity | constructor].
    + split; [apply SplitByte_join | apply SplitByte_noLF].
  - intros ls Hno Hne. unfold splitLines.
    destruct ls as [|l ls]; [reflexivity|].
    destruct (String.eqb_spec (strings.Join (l :: ls) nl) EmptyString) as [He|_].
    + exfalso. destruct ls as [|l' ls].
      * simpl in He. congruence.
      * change (strings.Join (l :: l' :: ls) nl)
          with (l ++ nl ++ strings.Join (l' :: ls) nl) in He.
        apply (f_equal String.length) in He. rewrite !length_app in He.
        simpl in He. lia.
    + apply SplitByte_of_join; [discriminate | assumption].
Qed.

Lemma splitLines_join_witness :
  splitLines (strings.Join ["a"; EmptyString; "b"] nl) = ["a"; EmptyString; "b"].
Proof.
  apply (proj1 (proj2 splitLines_join_round_trip)).
  - repeat constructor.
  - discriminate.
Defined.

(** X2.  [stripCommonPrefix a b] removes from [b] exactly the longest
    prefix it shares with [a]: [a] and [b] start with the same text [p],
    the result is what follows [p] in [b], and what follows [p] in [a]
    and the result do not start with the same byte.  In particular the
    text appended to [a] is recovered. *)
Theorem stripCommonPrefix_longest :
  forall (a b : string),
    (exists p a',
        a = p ++ a' /\ b = p ++ stripCommonPrefix a b /\
        match a', stripCommonPrefix a b with
        | String x _, String y _ => x <> y
        | _, _ => True
        end) /\
    stripCommonPrefix a (a ++ b) = b.
Proof.
  intros a b. split.
  - revert b. induction a as [|x a IH]; intros b.
    + exists EmptyString, EmptyString. now destruct b.
    + destruct b as [|y b].
      * exists EmptyString, (String x a). repeat split.
      * cbn [stripCommonPrefix].
        destruct (Ascii.eqb_spec x y) as [->|Hxy].
        -- destruct (IH b) as (p & a' & Ha & Hb & Hd).
           exists (String y p), a'. rewrite !app_cons.
           repeat split; [now rewrite <- Ha | now rewrite <- Hb | assumption].
        -- exists EmptyString, (String x a). repeat split. assumption.
  - induction a as [|x a IH]; [now destruct b|].
    rewrite app_cons. cbn [stripCommonPrefix]. now rewrite Ascii.eqb_refl.
Qed.

Lemma noCR_cons (c : ascii) (s : string) :
  noCR (String c s) <-> Ascii.eqb c CR = false /\ noCR s.
Proof.
  unfold noCR. cbn [strings.Index strings.HasPrefix].
  rewrite Bool.andb_true_r.
  destruct (Ascii.eqb c CR); [split; [discriminate | intros [? _]; discriminate]|].
  destruct (strings.Index s _); split; try discriminate; intuition congruence.
Qed.

(** X3.  On a text without carriage returns [countLines] is the number
    of newlines: one less than the number of lines the text splits
    into.  The count does not depend on the line-ending convention:
    writing every newline as \r\n, or as a lone \r, leaves it
    unchanged. *)
Theorem countLines_line_breaks :
  forall (text : string),
    noCR text ->
    S (countLines text) = length (strings.SplitByte text LF) /\
    countLines (strings.ReplaceAllByte text LF (String CR nl)) = countLines text /\
    countLines (strings.ReplaceAllByte text LF (String CR EmptyString)) = countLines text.
Proof.
  induction text as [|c text IH]; intros Hno; [repeat split|].
  apply noCR_cons in Hno as [Hc Hno]. destruct (IH Hno) as (IH1 & IH2 & IH3).
  cbn [countLines strings.SplitByte strings.ReplaceAllByte]. rewrite Hc.
  destruct (Ascii.eqb c LF) eqn:Hlf.
  - split; [|split].
    + simpl. now rewrite IH1.
    + unfold nl. rewrite !app_cons, app_nil_l. cbn [countLines].
      change (Ascii.eqb CR CR) with true. change (Ascii.eqb LF LF) with true.
      cbn iota. fold nl. now rewrite IH2.
    + rewrite app_cons, app_nil_l. cbn [countLines].
      change (Ascii.eqb CR CR) with true. cbn iota.
      destruct (strings.ReplaceAllByte text LF (String CR EmptyString)) as [|d r] eqn:Hr.
      * destruct text as [|e t]; [reflexivity|]. cbn [strings.ReplaceAllByte] in Hr.
        destruct (Ascii.eqb e LF); discriminate.
      * replace (Ascii.eqb d LF) with false; [now rewrite IH3|].
        destruct text as [|e t]; [discriminate|]. cbn [strings.ReplaceAllByte] in Hr.
        destruct (Ascii.eqb e LF) eqn:He.
        -- rewrite app_cons, app_nil_l in Hr. injection Hr as <- _. reflexivity.
        -- injection Hr as <- _. now rewrite He.
  - split; [|split].
    + rewrite IH1. pose proof (SplitByte_nonempty text LF) as Hne.
      destruct (strings.SplitByte text LF); [congruence | reflexivity].
    + cbn [countLines]. now rewrite Hc, Hlf.
    + cbn [countLines]. now rewrite Hc, Hlf.
Qed.

Lemma countLines_line_breaks_witness :
  countLines (strings.ReplaceAllByte ("a" ++ nl ++ "b" ++ nl) LF (String CR nl))
  = countLines ("a" ++ nl ++ "b" ++ nl).
Proof.
  apply (proj1 (proj2 (countLines_line_breaks ("a" ++ nl ++ "b" ++ nl) eq_refl))).
Defined.

Lemma ReplaceAllByte_facts (s : string) :
  String.length (strings.ReplaceAllByte s "-" "/") = String.length s /\
  strings.Index (strings.ReplaceAllByte s "-" "/") "-" = None /\
  (strings.Index s "-" = None -> strings.ReplaceAllByte s "-" "/" = s).
Proof.
  induction s as [|c s (IH1 & IH2 & IH3)]; [repeat split|].
  cbn [strings.ReplaceAllByte].
  destruct (Ascii.eqb c "-") eqn:Hc.
  - rewrite app_cons, app_nil_l. split; [|split].
    + simpl. now rewrite IH1.
    + cbn [strings.Index strings.HasPrefix]. change (Ascii.eqb "/" "-") with false.
      cbn [andb]. now rewrite IH2.
    + intros H. cbn [strings.Index strings.HasPrefix] in H. rewrite Hc in H.
      discriminate.
  - split; [|split].
    + simpl. now rewrite IH1.
    + cbn [strings.Index strings.HasPrefix]. rewrite Hc. cbn [andb]. now rewrite IH2.
    + intros H. cbn [strings.Index strings.HasPrefix] in H. rewrite Hc in H.
      cbn [andb] in H. f_equal. apply IH3.
      now destruct (strings.Index s "-").
Qed.

(** X4.  [decodeProjectPath] turns every dash into a slash and changes
    nothing else, the leading dash included: the result has the length
    of the input, holds no dash, and is the input itself when the input
    has no dash.  A directory name that holds a dash is therefore not
    recovered. *)
Theorem decodeProjectPath_dashes :
  forall (encoded : string),
    decodeProjectPath encoded = strings.ReplaceAllByte encoded "-" "/" /\
    String.length (decodeProjectPath encoded) = String.length encoded /\
    strings.Index (decodeProjectPath encoded) "-" = None /\
    (strings.Index encoded "-" = None -> decodeProjectPath encoded = encoded).
Proof.
  intros encoded.
  assert (E : decodeProjectPath encoded = strings.ReplaceAllByte encoded "-" "/").
  { destruct encoded as [|c rest]; [reflexivity|].
    cbn [decodeProjectPath strings.ReplaceAllByte].
    now destruct (Ascii.eqb c "-"). }
  rewrite E. split; [reflexivity|]. apply ReplaceAllByte_facts.
Qed.

End LinesAndPrefixes.

(** ** Permission rules: syntax, applicability and merged settings *)

Section RuleSyntax.

Import settings.

Lemma wordRun_all (name rest : string) :
  allWordBytes name = true ->
  wordRun (name ++ "(" ++ rest) = String.length name /\
  wordRun name = String.length name.
Proof.
  induction name as [|c name IH]; intros H.
  - split; reflexivity.
  - cbn [allWordBytes] in H. apply andb_prop in H as [Hc H].
    destruct (IH H) as [IH1 IH2]. rewrite app_cons. cbn [wordRun].
    rewrite Hc. simpl. now rewrite IH1, IH2.
Qed.

Lemma noLF_app (a b : string) : noLF a -> noLF b -> noLF (a ++ b).
Proof.
  induction a as [|c a IH]; intros Ha Hb; [now rewrite app_nil_l|].
  apply noLF_cons in Ha as [Hc Ha]. rewrite app_cons. apply noLF_cons.
  split; [assumption | now apply IH].
Qed.

Lemma from_all (s : string) : strings.from (String.length s) s = EmptyString.
Proof.
  rewrite <- (app_empty_r s) at 2. apply from_app.
Qed.

Lemma FindStringSubmatch_name (name : string) :
  allWordBytes name = true -> name <> EmptyString ->
  ruleRegexp_FindStringSubmatch name = Some (name, EmptyString).
Proof.
  intros Hw Hne. unfold ruleRegexp_FindStringSubmatch.
  destruct (wordRun_all name EmptyString Hw) as [_ ->].
  destruct name as [|c name]; [congruence|].
  change (String.length (String c name) =? 0)%nat with false. cbn iota.
  rewrite from_all, upto_all. reflexivity.
Qed.

Lemma FindStringSubmatch_argument (name body : string) :
  allWordBytes name = true -> name <> EmptyString ->
  noLF body -> body <> EmptyString ->
  ruleRegexp_FindStringSubmatch (name ++ "(" ++ body ++ ")") = Some (name, body).
Proof.
  intros Hw Hne Hlf Hb. unfold ruleRegexp_FindStringSubmatch.
  destruct (wordRun_all name (body ++ ")") Hw) as [-> _].
  rewrite from_app, upto_app.
  destruct name as [|c name]; [congruence|].
  change (String.length (String c name) =? 0)%nat with false. cbn iota.
  rewrite app_cons, app_nil_l.
  change (String.eqb (String "(" (body ++ ")")) EmptyString) with false. cbn iota.
  change (strings.HasPrefix (String "(" (body ++ ")")) "(") with true.
  assert (Hs : strings.HasSuffix (String "(" (body ++ ")")) ")" = true).
  { apply HasSuffix_spec. exists (String "(" body). now rewrite app_cons. }
  rewrite Hs.
  change (String.length (String "(" (body ++ ")"))) with (S (String.length (body ++ ")"))).
  rewrite length_app.
  replace (S (String.length body + String.length ")") - 2) with (String.length body)
    by (simpl; lia).
  cbn [strings.from]. rewrite upto_app.
  assert (Hlen : (3 <=? S (String.length body + String.length ")"))%nat = true).
  { apply Nat.leb_le. destruct body; [congruence | simpl; lia]. }
  rewrite Hlen. unfold strings.Contains. unfold noLF in Hlf. rewrite Hlf. reflexivity.
Qed.

(** X5.  A rule text written from its parts parses back into them.  For
    a name of word bytes and a newline-free argument: the bare name
    parses to the rule without argument; [name(arg)] parses to the rule
    with that argument, not a wildcard, when the argument is not empty
    and does not end in the wildcard suffix; and [name(arg] followed by
    the wildcard suffix and the closing parenthesis parses to the
    wildcard rule with argument [arg], for the empty [arg] too. *)
Theorem parseRule_round_trip :
  forall (name arg : string),
    allWordBytes name = true -> name <> EmptyString -> noLF arg ->
    parseRule name = mkRule name EmptyString false /\
    (arg <> EmptyString -> strings.HasSuffix arg ":*" = false ->
     parseRule (name ++ "(" ++ arg ++ ")") = mkRule name arg false) /\
    parseRule (name ++ "(" ++ (arg ++ ":*") ++ ")") = mkRule name arg true.
Proof.
  intros name arg Hw Hne Hlf. unfold parseRule. split; [|split].
  - now rewrite FindStringSubmatch_name.
  - intros Ha Hs. rewrite FindStringSubmatch_argument by assumption.
    rewrite Hs, Bool.andb_false_r. reflexivity.
  - rewrite FindStringSubmatch_argument; try assumption.
    + assert (Hs : strings.HasSuffix (arg ++ ":*") ":*" = true)
        by (apply HasSuffix_spec; now exists arg).
      rewrite Hs. rewrite length_app.
      replace (String.length arg + String.length ":*" - 2) with (String.length arg)
        by (simpl; lia).
      rewrite upto_app.
      destruct arg; reflexivity.
    + apply noLF_app; [assumption | reflexivity].
    + destruct arg; discriminate.
Qed.

Lemma parseRule_round_trip_witness :
  parseRule ("Bash" ++ "(" ++ ("npm run" ++ ":*") ++ ")") = mkRule "Bash" "npm run" true.
Proof.
  apply (proj2 (proj2 (parseRule_round_trip "Bash" "npm run" eq_refl
                         ltac:(discriminate) eq_refl))).
Defined.

Lemma FindStringSubmatch_shape (rule name arg : string) :
  ruleRegexp_FindStringSubmatch rule = Some (name, arg) ->
  (arg = EmptyString /\ rule = name) \/ rule = name ++ "(" ++ arg ++ ")".
Proof.
  unfold ruleRegexp_FindStringSubmatch.
  set (k := wordRun rule). set (rest := strings.from k rule).
  destruct (k =? 0)%nat; [discriminate|].
  destruct (String.eqb_spec rest EmptyString) as [He|Hne].
  - intros H. injection H as <- <-. left. split; [reflexivity|].
    rewrite <- (upto_from k rule) at 1. fold rest. now rewrite He, app_empty_r.
  - destruct (strings.HasPrefix rest "(") eqn:Hp; [|discriminate].
    destruct (strings.HasSuffix rest ")") eqn:Hs; [|discriminate].
    destruct (3 <=? String.length rest)%nat eqn:Hl; [|discriminate].
    destruct (negb _); [|discriminate]. cbn [andb].
    intros H. injection H as <- <-. right.
    rewrite <- (upto_from k rule) at 1. fold rest. f_equal.
    apply HasPrefix_split in Hp. simpl String.length in Hp.
    rewrite Hp at 1. f_equal.
    apply Nat.leb_le in Hl.
    unfold strings.HasSuffix in Hs. apply andb_prop in Hs as [_ Hs].
    apply String.eqb_eq in Hs. simpl String.length in Hs.
    replace (String.length rest - 1) with ((String.length rest - 2) + 1) in Hs by lia.
    rewrite from_from in Hs.
    rewrite <- (upto_from (String.length rest - 2) (strings.from 1 rest)) at 1.
    now rewrite Hs.
Qed.

End RuleSyntax.

Section RuleApplicability.

Import settings.

Variable P : Platform.

Lemma matchesRule_families (rule : parsedRule) (tool : string)
    (toolInput : gmap string any) (cwd : string) :
  matchesRule P rule tool toolInput cwd = true ->
  In (rule.(toolName), tool) ruleFamilies.
Proof.
  unfold matchesRule, ruleFamilies.
  destruct (String.eqb_spec rule.(toolName) "Bash") as [->|_].
  { destruct (String.eqb_spec tool (ACPToolNamePrefix ++ "Bash")) as [->|_];
      [intros _; now left | discriminate]. }
  destruct (String.eqb_spec rule.(toolName) "Edit") as [->|_].
  { unfold slices_Contains, fileEditingTools. cbn [existsb].
    destruct (String.eqb_spec tool (ACPToolNamePrefix ++ "Edit")) as [->|_];
      [intros _; right; now left|].
    destruct (String.eqb_spec tool (ACPToolNamePrefix ++ "Write")) as [->|_];
      [intros _; right; right; now left | discriminate]. }
  destruct (String.eqb_spec rule.(toolName) "Read") as [->|_]; [|discriminate].
  unfold slices_Contains, fileReadingTools. cbn [existsb].
  destruct (String.eqb_spec tool (ACPToolNamePrefix ++ "Read")) as [->|_];
    [intros _; right; right; right; now left | discriminate].
Qed.

Lemma parseRule_shape (rule : string) :
  rule = (parseRule rule).(toolName) \/
  exists arg, rule = (parseRule rule).(toolName) ++ "(" ++ arg ++ ")".
Proof.
  unfold parseRule.
  destruct (ruleRegexp_FindStringSubmatch rule) as [[name arg]|] eqn:Hm.
  - apply FindStringSubmatch_shape in Hm.
    assert (Hn : toolName (if negb (String.eqb arg EmptyString) && strings.HasSuffix arg ":*"
                           then mkRule name (strings.upto (String.length arg - 2) arg) true
                           else mkRule name arg false) = name)
      by (destruct (_ && _); reflexivity).
    rewrite Hn. destruct Hm as [[_ ->]| ->]; [now left | right; now exists arg].
  - now left.
Qed.

(** X6.  A rule can only match a tool of its own family: when a rule
    text matches a tool invocation, the text is [Bash], [Edit] or
    [Read], alone or followed by a parenthesised argument, and the tool
    is the internal shell tool for [Bash], the internal edit or write
    tool for [Edit] and the internal read tool for [Read].  A rule
    written with any other name (Write, Glob, a lower-case bash, the
    prefixed tool name) matches nothing. *)
Theorem matchesRule_own_family :
  forall (rule tool : string) (toolInput : gmap string any) (cwd : string),
    matchesRule P (parseRule rule) tool toolInput cwd = true ->
    exists name,
      In (name, tool) ruleFamilies /\
      (rule = name \/ exists arg, rule = name ++ "(" ++ arg ++ ")").
Proof.
  intros rule tool toolInput cwd H.
  exists (parseRule rule).(toolName). split.
  - eapply matchesRule_families, H.
  - apply parseRule_shape.
Qed.

Lemma firstMatching_families (rules : list string) (tool : string)
    (toolInput : gmap string any) (cwd rule : string) :
  firstMatching P rules tool toolInput cwd = Some rule ->
  exists name, In (name, tool) ruleFamilies.
Proof.
  induction rules as [|r rules IH]; [discriminate|].
  cbn [firstMatching].
  destruct (matchesRule P (parseRule r) tool toolInput cwd) eqn:Hm.
  - intros _. eexists. eapply matchesRule_families, Hm.
  - exact IH.
Qed.

(** X7.  The settings decide only for the four internal tools Read,
    Edit, Write and Bash.  For every other tool name (the internal
    KillShell and BashOutput included), whatever the rules of the
    settings are, the check answers ask with no rule recorded. *)
Theorem CheckPermission_other_tools_ask :
  forall (s : SettingsManager) (tool : string) (toolInput : gmap string any),
    ~ In tool [ACPToolNamePrefix ++ "Read"; ACPToolNamePrefix ++ "Edit";
               ACPToolNamePrefix ++ "Write"; ACPToolNamePrefix ++ "Bash"] ->
    CheckPermission P s tool toolInput = mkResult PermissionAsk EmptyString EmptyString.
Proof.
  intros s tool toolInput Hn.
  assert (Hf : forall rules rule,
             firstMatching P rules tool toolInput s.(cwd) = Some rule -> False).
  { intros rules rule H. apply firstMatching_families in H as [name H].
    apply Hn. unfold ruleFamilies in H. cbn [In] in *.
    destruct H as [H|[H|[H|[H|[]]]]]; injection H as _ <-; tauto. }
  unfold CheckPermission.
  destruct (negb _); [reflexivity|].
  destruct (Permissions (mergedSettings s)) as [p|]; [|reflexivity].
  destruct (firstMatching P (Deny p) _ _ _) eqn:Hd; [destruct (Hf _ _ Hd)|].
  destruct (firstMatching P (Allow p) _ _ _) eqn:Ha; [destruct (Hf _ _ Ha)|].
  destruct (firstMatching P (Ask p) _ _ _) eqn:Hk; [destruct (Hf _ _ Hk)|].
  reflexivity.
Qed.

End RuleApplicability.

Section RuleApplicabilityExamples.

Import settings.

Lemma matchesRule_own_family_witness :
  exists name,
    In (name, ACPToolNamePrefix ++ "Write") ruleFamilies /\
    ("Edit(/test/a.txt)" = name \/ exists arg, "Edit(/test/a.txt)" = name ++ "(" ++ arg ++ ")").
Proof.
  apply (matchesRule_own_family linux "Edit(/test/a.txt)" (ACPToolNamePrefix ++ "Write")
           {[ "file_path" := Str "/test/a.txt" ]} "/test").
  vm_compute. reflexivity.
Defined.

Lemma CheckPermission_other_tools_witness :
  CheckPermission linux
    (mkSettingsManager "/test"
       (mkClaudeCodeSettings None None EmptyString)
       (mkClaudeCodeSettings None None EmptyString)
       (mkClaudeCodeSettings None None EmptyString)
       (mkClaudeCodeSettings None None EmptyString)
       (mkClaudeCodeSettings
          (Some (mkPermissionSettings ["Bash"; "KillShell"] ["Bash"] [] [] EmptyString))
          None EmptyString))
    (ACPToolNamePrefix ++ "KillShell") ∅
  = mkResult PermissionAsk EmptyString EmptyString.
Proof.
  apply CheckPermission_other_tools_ask.
  cbn [In]. intros [H|[H|[H|[H|[]]]]]; discriminate H.
Defined.

End RuleApplicabilityExamples.

Section MergedSettings.

Import settings.

Lemma mergeOne_Model (m src : ClaudeCodeSettings) :
  (mergeOne m src).(Model) = firstNonEmpty [src.(Model); m.(Model)].
Proof.
  cbn [mergeOne Model firstNonEmpty].
  destruct (String.eqb_spec (Model src) EmptyString) as [He|Hne]; cbn [negb].
  - now destruct (String.eqb_spec (Model m) EmptyString).
  - reflexivity.
Qed.

Lemma mergeOne_mode (m src : ClaudeCodeSettings) :
  m.(Permissions) <> None ->
  (mergeOne m src).(Permissions) <> None /\
  modeOf (mergeOne m src) = firstNonEmpty [modeOf src; modeOf m] /\
  dirsOf (mergeOne m src) = (dirsOf m ++ dirsOf src)%list.
Proof.
  unfold modeOf, dirsOf. cbn [mergeOne Permissions firstNonEmpty].
  destruct (Permissions m) as [mp|]; [intros _|congruence].
  destruct (Permissions src) as [sp|].
  - split; [discriminate|]. cbn [DefaultMode AdditionalDirectories]. split.
    + destruct (String.eqb_spec (DefaultMode sp) EmptyString) as [He|Hne]; cbn [negb].
      * now destruct (String.eqb_spec (DefaultMode mp) EmptyString).
      * reflexivity.
    + destruct (AdditionalDirectories sp); [now rewrite List.app_nil_r | reflexivity].
  - split; [discriminate|]. split.
    + cbn [String.eqb]. now destruct (String.eqb_spec (DefaultMode mp) EmptyString).
    + now rewrite List.app_nil_r.
Qed.

Lemma mergeOne_env (m src : ClaudeCodeSettings) (k : string) :
  envOf (mergeOne m src) k = firstSome [envOf src k; envOf m k] /\
  ((mergeOne m src).(Env) = None <-> src.(Env) = None /\ m.(Env) = None).
Proof.
  unfold envOf. cbn [mergeOne Env firstSome].
  destruct (Env src) as [se|], (Env m) as [me|]; (split; [|try (split; [discriminate | intros [? ?]; discriminate]); try tauto]).
  - rewrite lookup_union. destruct (se !! k), (me !! k); reflexivity.
  - now destruct (se !! k).
  - now destruct (me !! k).
  - reflexivity.
Qed.

Lemma firstNonEmpty_cons2 (x : string) (l : list string) :
  firstNonEmpty [x; firstNonEmpty l] = firstNonEmpty (x :: l).
Proof.
  cbn [firstNonEmpty]. destruct (String.eqb_spec x EmptyString); [|reflexivity].
  now destruct (String.eqb_spec (firstNonEmpty l) EmptyString).
Qed.

Lemma firstSome_cons2 {A : Type} (x : option A) (l : list (option A)) :
  firstSome [x; firstSome l] = firstSome (x :: l).
Proof.
  destruct x; [reflexivity|]. cbn [firstSome]. now destruct (firstSome l).
Qed.

(** X8.  In the merged settings a later source overrides an earlier one
    for single values and adds to it for lists.  The model and the
    default mode are those of the first source, in the order
    enterprise, local, project, user, that gives a non-empty one; an
    environment variable has the value of the first source in that
    order that sets it, and the merged environment is nil exactly when
    no source has one; the additional directories are those of user,
    project, local and enterprise, in this order.  The merged
    permissions are never nil. *)
Theorem mergeSettings_precedence :
  forall (s : SettingsManager),
    let m := (mergeSettings s).(mergedSettings) in
    let sources := [s.(enterpriseSettings); s.(localSettings);
                    s.(projectSettings); s.(userSettings)] in
    m.(Model) = firstNonEmpty (map Model sources) /\
    m.(Permissions) <> None /\
    modeOf m = firstNonEmpty (map modeOf sources) /\
    dirsOf m = concat (map dirsOf (rev sources)) /\
    (forall k, envOf m k = firstSome (map (fun src => envOf src k) sources)) /\
    (m.(Env) = None <-> Forall (fun src => src.(Env) = None) sources).
Proof.
  intros s m sources. subst m sources.
  unfold mergeSettings. cbn [mergedSettings fold_left map rev concat app].
  set (m0 := {| Permissions := Some (mkPermissionSettings [] [] [] [] EmptyString);
                Env := None; Model := EmptyString |}).
  set (m1 := mergeOne m0 (userSettings s)).
  set (m2 := mergeOne m1 (projectSettings s)).
  set (m3 := mergeOne m2 (localSettings s)).
  assert (H0 : Permissions m0 <> None) by discriminate.
  destruct (mergeOne_mode m0 (userSettings s) H0) as (H1 & M1 & D1). fold m1 in H1, M1, D1.
  destruct (mergeOne_mode m1 (projectSettings s) H1) as (H2 & M2 & D2). fold m2 in H2, M2, D2.
  destruct (mergeOne_mode m2 (localSettings s) H2) as (H3 & M3 & D3). fold m3 in H3, M3, D3.
  destruct (mergeOne_mode m3 (enterpriseSettings s) H3) as (H4 & M4 & D4).
  split; [|split; [exact H4|split; [|split; [|split]]]].
  - rewrite mergeOne_Model. unfold m3. rewrite mergeOne_Model. unfold m2.
    rewrite mergeOne_Model. unfold m1. rewrite mergeOne_Model.
    change (Model m0) with (firstNonEmpty []).
    now rewrite (firstNonEmpty_cons2 (Model (userSettings s))),
      (firstNonEmpty_cons2 (Model (projectSettings s))),
      (firstNonEmpty_cons2 (Model (localSettings s))),
      (firstNonEmpty_cons2 (Model (enterpriseSettings s))).
  - rewrite M4, M3, M2, M1. change (modeOf m0) with (firstNonEmpty []).
    now rewrite (firstNonEmpty_cons2 (modeOf (userSettings s))),
      (firstNonEmpty_cons2 (modeOf (projectSettings s))),
      (firstNonEmpty_cons2 (modeOf (localSettings s))),
      (firstNonEmpty_cons2 (modeOf (enterpriseSettings s))).
  - rewrite D4, D3, D2, D1. change (dirsOf m0) with (@nil string).
    now rewrite List.app_nil_r, <- !List.app_assoc.
  - intros k.
    rewrite (proj1 (mergeOne_env m3 _ k)). unfold m3.
    rewrite (proj1 (mergeOne_env m2 _ k)). unfold m2.
    rewrite (proj1 (mergeOne_env m1 _ k)). unfold m1.
    rewrite (proj1 (mergeOne_env m0 _ k)).
    change (envOf m0 k) with (@firstSome string []).
    now rewrite (firstSome_cons2 (envOf (userSettings s) k)),
      (firstSome_cons2 (envOf (projectSettings s) k)),
      (firstSome_cons2 (envOf (localSettings s) k)),
      (firstSome_cons2 (envOf (enterpriseSettings s) k)).
  - rewrite (proj2 (mergeOne_env m3 _ EmptyString)). unfold m3.
    rewrite (proj2 (mergeOne_env m2 _ EmptyString)). unfold m2.
    rewrite (proj2 (mergeOne_env m1 _ EmptyString)). unfold m1.
    rewrite (proj2 (mergeOne_env m0 _ EmptyString)).
    rewrite !Forall_cons, Forall_nil. cbn [Env m0]. tauto.
Qed.

End MergedSettings.

(** ** The diff engine: hunks apply to the old lines and give the new lines *)

Section DiffCorrectness.

Import mcp_server.

Lemma firstn_snoc_nth {A : Type} (l : list A) (n : nat) (d : A) :
  n < length l -> firstn (S n) l = (firstn n l ++ [nth n l d])%list.
Proof.
  revert n; induction l as [|x l IH]; intros n H; simpl in H; [lia|].
  destruct n as [|n]; [reflexivity|].
  change (firstn (S (S n)) (x :: l)) with (x :: firstn (S n) l).
  rewrite (IH n) by lia. reflexivity.
Qed.

Lemma nth_skipn_add {A : Type} (l : list A) (a n : nat) (d : A) :
  nth n (skipn a l) d = nth (a + n) l d.
Proof.
  revert l; induction a as [|a IH]; intros l; [reflexivity|].
  destruct l as [|x l]; [now destruct n | apply IH].
Qed.

Lemma firstn_add {A : Type} (l : list A) (n m : nat) :
  firstn (n + m) l = (firstn n l ++ firstn m (skipn n l))%list.
Proof.
  revert l; induction n as [|n IH]; intros l; [reflexivity|].
  destruct l as [|x l]; simpl; [now rewrite List.firstn_nil | now rewrite IH].
Qed.

Lemma skipn_nth_cons {A : Type} (l : list A) (i : nat) (d : A) :
  i < length l -> skipn i l = nth i l d :: skipn (i + 1) l.
Proof.
  revert i; induction l as [|x l IH]; intros i H; simpl in H; [lia|].
  destruct i as [|i]; [reflexivity|]. simpl. apply IH. lia.
Qed.

Lemma seg_nil (ops : list diffOp) (a : nat) : seg ops a a = [].
Proof. unfold seg. now rewrite Nat.sub_diag. Qed.

Lemma seg_length (ops : list diffOp) (a b : nat) :
  b <= length ops -> length (seg ops a b) = b - a.
Proof.
  intros H. unfold seg. rewrite List.length_firstn, List.length_skipn. lia.
Qed.

Lemma seg_app (ops : list diffOp) (a b c : nat) :
  a <= b -> b <= c -> seg ops a c = (seg ops a b ++ seg ops b c)%list.
Proof.
  intros Hab Hbc. unfold seg.
  replace (c - a) with ((b - a) + (c - b)) by lia.
  rewrite firstn_add, List.skipn_skipn.
  replace (b - a + a) with b by lia. reflexivity.
Qed.

Lemma seg_snoc (ops : list diffOp) (a t : nat) :
  a <= t -> t < length ops -> seg ops a (S t) = (seg ops a t ++ [opAt ops t])%list.
Proof.
  intros Hat Ht. unfold seg, opAt.
  replace (S t - a) with (S (t - a)) by lia.
  rewrite (firstn_snoc_nth _ _ noOp) by (rewrite List.length_skipn; lia).
  rewrite nth_skipn_add. replace (a + (t - a)) with t by lia. reflexivity.
Qed.

Lemma seg_all (ops : list diffOp) : seg ops 0 (length ops) = ops.
Proof. unfold seg. rewrite Nat.sub_0_r. apply List.firstn_all. Qed.

Lemma seg_nonempty (ops : list diffOp) (a b : nat) :
  a < b -> b <= length ops -> seg ops a b <> [].
Proof.
  intros Hab Hb H. apply (f_equal (@length diffOp)) in H.
  rewrite seg_length in H by assumption. simpl in H. lia.
Qed.

Lemma eqRange_Forall (ops : list diffOp) (a : nat) :
  forall n, a + n <= length ops -> eqRange ops a (a + n) ->
            Forall (fun o => isEqualOp o = true) (seg ops a (a + n)).
Proof.
  induction n as [|n IH]; intros Hlen He.
  - rewrite Nat.add_0_r, seg_nil. constructor.
  - replace (a + S n) with (S (a + n)) by lia.
    rewrite seg_snoc by lia. apply List.Forall_app. split.
    + apply IH; [lia|]. intros k Hk1 Hk2. apply He; lia.
    + constructor; [|constructor]. apply He; lia.
Qed.

Lemma eqRange_seg (ops : list diffOp) (a b : nat) :
  a <= b -> b <= length ops -> eqRange ops a b ->
  Forall (fun o => isEqualOp o = true) (seg ops a b).
Proof.
  intros Hab Hb He. replace b with (a + (b - a)) by lia.
  apply eqRange_Forall; [lia|]. now replace (a + (b - a)) with b by lia.
Qed.

Lemma equal_opLine (o : diffOp) : isEqualOp o = true -> " " ++ o.(line) = opLine o.
Proof.
  unfold isEqualOp, opLine. intros H. apply Ascii.eqb_eq in H. rewrite H.
  now rewrite app_cons, app_nil_l.
Qed.

Lemma counts_equal (o : diffOp) :
  isEqualOp o = true -> countsOld o = true /\ countsNew o = true.
Proof.
  unfold countsOld, countsNew. intros H. rewrite H.
  unfold isEqualOp in H. apply Ascii.eqb_eq in H. rewrite H. split; reflexivity.
Qed.

Lemma counts_change (o : diffOp) :
  isEqualOp o = false ->
  countsOld o = Ascii.eqb o.(op) "-" /\ countsNew o = negb (Ascii.eqb o.(op) "-").
Proof. unfold countsOld, countsNew. intros ->. split; reflexivity. Qed.

Lemma hunkOf_counts (s : list diffOp) :
  s <> [] -> ((oldCount (hunkOf s) =? 0) && (newCount (hunkOf s) =? 0))%nat = false.
Proof.
  destruct s as [|o s]; [congruence|]. intros _.
  cbn [hunkOf oldCount newCount List.filter].
  unfold countsOld, countsNew.
  destruct (Ascii.eqb (op o) "-"); cbn [negb orb].
  - rewrite Bool.orb_true_r. reflexivity.
  - cbn [length Nat.eqb]. apply Bool.andb_false_r.
Qed.

Lemma addContext_hunkOf (b : bool) (s : list diffOp) (o : diffOp) :
  s <> [] -> isEqualOp o = true ->
  addContext b (hunkOf s) o = hunkOf (s ++ [o])%list.
Proof.
  intros Hs Ho. unfold addContext. rewrite Ho.
  destruct (counts_equal o Ho) as [Hco Hcn].
  pose proof (hunkOf_counts s Hs) as Hc.
  destruct s as [|x s]; [congruence|].
  unfold hunkOf in *. cbn [oldStart oldCount newStart newCount lines] in *.
  change (hd noOp ((x :: s) ++ [o])%list) with x. cbn [hd].
  rewrite !List.filter_app, !List.length_app, List.map_app.
  change (List.filter countsOld [o]) with (if countsOld o then [o] else []).
  change (List.filter countsNew [o]) with (if countsNew o then [o] else []).
  rewrite Hco, Hcn. cbn [length map].
  unfold append1. rewrite equal_opLine by assumption.
  change (S (length (List.filter countsOld (x :: s))) =? 1)%nat
    with (length (List.filter countsOld (x :: s)) =? 0)%nat.
  change (S (length (List.filter countsNew (x :: s))) =? 1)%nat
    with (length (List.filter countsNew (x :: s)) =? 0)%nat.
  rewrite <- Bool.andb_assoc, Hc, Bool.andb_false_r.
  f_equal; lia.
Qed.

Lemma addContext_first (o : diffOp) :
  isEqualOp o = true -> addContext true (mkDiffHunk 0 0 0 0 []) o = hunkOf [o].
Proof.
  intros Ho. unfold addContext, hunkOf. rewrite Ho.
  destruct (counts_equal o Ho) as [Hco Hcn].
  cbn [oldStart oldCount newStart newCount lines List.filter map hd].
  rewrite Hco, Hcn. unfold append1. rewrite equal_opLine by assumption. reflexivity.
Qed.

Lemma addChange_hunkOf (s : list diffOp) (o : diffOp) :
  s <> [] -> isEqualOp o = false ->
  addChange (hunkOf s) o = hunkOf (s ++ [o])%list.
Proof.
  intros Hs Ho. destruct (counts_change o Ho) as [Hco Hcn].
  destruct s as [|x s]; [congruence|].
  unfold addChange, hunkOf. cbn [oldStart oldCount newStart newCount lines].
  change (hd noOp ((x :: s) ++ [o])%list) with x. cbn [hd].
  rewrite !List.filter_app, !List.length_app, List.map_app.
  change (List.filter countsOld [o]) with (if countsOld o then [o] else []).
  change (List.filter countsNew [o]) with (if countsNew o then [o] else []).
  rewrite Hco, Hcn. unfold append1, opLine.
  destruct (Ascii.eqb (op o) "-"); cbn [negb length map]; f_equal; lia.
Qed.

Lemma addChange_first (o : diffOp) :
  isEqualOp o = false ->
  addChange {| oldStart := o.(oldN); oldCount := 0; newStart := o.(newN);
               newCount := 0; lines := [] |} o = hunkOf [o].
Proof.
  intros Ho. destruct (counts_change o Ho) as [Hco Hcn].
  unfold addChange, hunkOf. cbn [oldStart oldCount newStart newCount lines List.filter map hd].
  rewrite Hco, Hcn. unfold append1, opLine.
  destruct (Ascii.eqb (op o) "-"); reflexivity.
Qed.

Lemma addContext_run (ops : list diffOp) (b : bool) (a : nat) :
  forall n x,
    a < x -> x + n <= length ops -> eqRange ops x (x + n) ->
    fold_left (fun h ci => addContext b h (opAt ops ci)) (seq x n) (hunkOf (seg ops a x))
    = hunkOf (seg ops a (x + n)).
Proof.
  induction n as [|n IH]; intros x Hax Hlen He.
  - now rewrite Nat.add_0_r.
  - cbn [seq fold_left].
    rewrite addContext_hunkOf;
      [| apply seg_nonempty; lia | apply He; lia].
    rewrite <- seg_snoc by lia.
    rewrite IH; [| lia | lia | intros k Hk1 Hk2; apply He; lia].
    now replace (S x + n) with (x + S n) by lia.
Qed.

Lemma openHunk_hunkOf (ops : list diffOp) (idx : nat) :
  idx < length ops -> isEqualOp (opAt ops idx) = false ->
  eqRange ops (idx - 3) idx ->
  addChange (openHunk ops idx (opAt ops idx)) (opAt ops idx)
  = hunkOf (seg ops (idx - 3) (S idx)).
Proof.
  intros Hidx Ho He. unfold openHunk, contextLines.
  replace (if (idx <? 3)%nat then 0 else idx - 3) with (idx - 3)
    by (destruct (Nat.ltb_spec idx 3); lia).
  set (start := idx - 3) in *.
  destruct (Nat.eq_dec start idx) as [E|N].
  - rewrite E, Nat.sub_diag. cbn [seq fold_left oldCount newCount Nat.eqb andb lines].
    rewrite addChange_first by assumption.
    rewrite seg_snoc, seg_nil by lia. reflexivity.
  - assert (Hlt : start < idx) by (subst start; lia).
    replace (idx - start) with (S (idx - start - 1)) by lia.
    cbn [seq fold_left].
    rewrite addContext_first by (apply He; lia).
    replace [opAt ops start] with (seg ops start (S start))
      by (rewrite seg_snoc, seg_nil by lia; reflexivity).
    rewrite addContext_run;
      [| lia | lia | intros k Hk1 Hk2; apply He; lia].
    replace (S start + (idx - start - 1)) with idx by lia.
    rewrite hunkOf_counts by (apply seg_nonempty; lia).
    rewrite addChange_hunkOf by (try assumption; apply seg_nonempty; lia).
    now rewrite <- seg_snoc by lia.
Qed.

Lemma nextChange_None (ops : list diffOp) (idx : nat) :
  nextChange ops idx = None ->
  eqRange ops (idx + 1) (Nat.min (idx + 7) (length ops)).
Proof.
  unfold nextChange, contextLines. intros H k Hk1 Hk2.
  pose proof (List.find_none _ _ H k) as Hf.
  apply Bool.negb_false_iff. apply Hf. apply List.in_seq. lia.
Qed.

Lemma Parts_gap (l g : list diffOp) (segs : list (list diffOp)) :
  Parts l segs -> Forall (fun o => isEqualOp o = true) g -> Parts (l ++ g)%list segs.
Proof.
  induction 1 as [g0 Hg0|g0 s rest segs Hg0 Hs HP IH]; intros Hg.
  - constructor. apply List.Forall_app. now split.
  - rewrite <- !List.app_assoc. constructor; auto.
Qed.

Lemma Parts_snoc (l g s : list diffOp) (segs : list (list diffOp)) :
  Parts l segs -> Forall (fun o => isEqualOp o = true) g -> s <> [] ->
  Parts (l ++ g ++ s)%list (segs ++ [s])%list.
Proof.
  induction 1 as [g0 Hg0|g0 s0 rest segs Hg0 Hs0 HP IH]; intros Hg Hs.
  - replace (g0 ++ g ++ s)%list with ((g0 ++ g) ++ s ++ [])%list
      by (now rewrite List.app_nil_r, List.app_assoc).
    cbn [app]. constructor; [apply List.Forall_app; now split | assumption |].
    constructor. constructor.
  - rewrite <- !List.app_assoc. rewrite <- List.app_comm_cons.
    constructor; auto.
Qed.

Lemma change_lt (ops : list diffOp) (k : nat) :
  isEqualOp (opAt ops k) = false -> k < length ops.
Proof.
  intros H. destruct (Nat.lt_ge_cases k (length ops)) as [Hlt|Hge]; [assumption|].
  unfold opAt in H. rewrite nth_overflow in H by lia. discriminate.
Qed.

Lemma nextChange_Some (ops : list diffOp) (idx ni : nat) :
  nextChange ops idx = Some ni ->
  idx + 1 <= ni /\ ni <= idx + 6 /\ isEqualOp (opAt ops ni) = false.
Proof.
  unfold nextChange, contextLines. intros H.
  apply List.find_some in H as [Hin Hc]. apply List.in_seq in Hin.
  apply Bool.negb_true_iff in Hc. split; [lia|]. split; [lia | assumption].
Qed.

Lemma seg_hd (ops : list diffOp) (a b : nat) :
  a < b -> b <= length ops -> hd noOp (seg ops a b) = opAt ops a.
Proof.
  intros Hab Hb. rewrite (seg_app ops a (S a) b) by lia.
  rewrite seg_snoc by lia. now rewrite seg_nil.
Qed.

Lemma seg_last (ops : list diffOp) (a l : nat) :
  a <= l -> l < length ops -> List.last (seg ops a (S l)) noOp = opAt ops l.
Proof. intros Hal Hl. rewrite seg_snoc by lia. apply List.last_last. Qed.

Lemma shaped_seg (ops : list diffOp) (a f l b : nat) :
  a <= f -> f <= l -> l < b -> b <= length ops -> f <= a + 3 -> b <= l + 5 ->
  eqRange ops a f -> eqRange ops (l + 1) b ->
  isEqualOp (opAt ops f) = false -> isEqualOp (opAt ops l) = false ->
  shaped (seg ops a b).
Proof.
  intros Haf Hfl Hlb Hb Hf3 Hb5 Hlead Htrail Hcf Hcl.
  exists (seg ops a f), (seg ops f (S l)), (seg ops (S l) b).
  split; [rewrite (seg_app ops a f b), (seg_app ops f (S l) b) by lia; reflexivity|].
  split; [apply eqRange_seg; [lia | lia | assumption]|].
  split; [rewrite seg_length by lia; lia|].
  split; [apply eqRange_seg; [lia | lia |]; intros k Hk1 Hk2; apply Htrail; lia|].
  split; [rewrite seg_length by lia; lia|].
  split; [rewrite seg_hd by lia; assumption|].
  rewrite seg_last by lia. assumption.
Qed.

Lemma groupStep_inv (ops : list diffOp) (t : nat)
    (st : list diffHunk * option diffHunk) :
  t < length ops -> groupInv ops t st -> groupInv ops (S t) (groupStep ops st t).
Proof.
  intros Ht. destruct st as [hunks cur].
  intros (segs & c & Hh & Hc & HP & HS & Hcur). cbn [fst snd] in Hh, Hcur.
  unfold groupStep.
  destruct (isEqualOp (opAt ops t)) eqn:Ho; cbn [negb].
  - destruct cur as [h|].
    + destruct Hcur as (a & f & l & Hca & Haf & Hfl & Hlt & Hf3 & Hea & Heaf &
                        Hcf & Hcl & Hel & Hpend & ->).
      destruct (nextChange ops t) as [ni|] eqn:Hn.
      * apply nextChange_Some in Hn as (Hn1 & Hn2 & Hn3).
        exists segs, c. cbn [fst snd]. repeat (split; [assumption|]).
        exists a, f, l. repeat (split; [assumption || lia|]).
        split; [intros k Hk1 Hk2; destruct (Nat.eq_dec k t) as [->|Hne];
                [assumption | apply Hel; lia]|].
        split; [right; exists ni; repeat (split; [lia|]); assumption|].
        rewrite addContext_hunkOf by (try assumption; apply seg_nonempty; lia).
        now rewrite <- seg_snoc by lia.
      * apply nextChange_None in Hn.
        assert (Htl : t = l + 1).
        { destruct Hpend as [Hp|(ch & Hch1 & Hch2 & Hch3)]; [assumption|].
          pose proof (change_lt ops ch Hch3) as Hchlt.
          destruct (Nat.eq_dec ch t) as [->|Hne]; [congruence|].
          rewrite Hn in Hch3 by lia. discriminate. }
        set (trailEnd := if (length ops <=? t + contextLines)%nat
                         then length ops - 1 else t + contextLines).
        assert (Hb : trailEnd + 1 = Nat.min (t + 4) (length ops)).
        { subst trailEnd. unfold contextLines.
          destruct (Nat.leb_spec (length ops) (t + 3)); lia. }
        set (b := Nat.min (t + 4) (length ops)) in *.
        assert (Het : eqRange ops t (Nat.min (t + 7) (length ops))).
        { intros k Hk1 Hk2. destruct (Nat.eq_dec k t) as [->|Hne];
            [assumption | apply Hn; lia]. }
        exists (segs ++ [seg ops a b])%list, b. cbn [fst snd].
        split; [|split; [lia|split; [|split]]].
        -- unfold append1. rewrite List.map_app, Hh. cbn [map]. do 2 f_equal.
           rewrite Hb. rewrite addContext_run;
             [| lia | lia | intros k Hk1 Hk2; apply Het; lia].
           now replace (t + (b - t)) with b by lia.
        -- rewrite (seg_app ops 0 c b), (seg_app ops c a b) by lia.
           apply Parts_snoc; [assumption | | apply seg_nonempty; lia].
           apply eqRange_seg; [lia | lia | assumption].
        -- apply List.Forall_app. split; [assumption|].
           constructor; [|constructor].
           apply (shaped_seg ops a f l b); try assumption; try lia.
           intros k Hk1 Hk2. apply Het; lia.
        -- exists (Nat.min (t + 7) (length ops)).
           repeat (split; [lia|]).
           split; [intros k Hk1 Hk2; apply Het; lia|].
           split; [intros k Hk1 Hk2; apply Het; lia|].
           subst b. lia.
    + destruct Hcur as (e & Hte & Hel & Hce & Hec & Het & Hfar).
      exists segs, c. cbn [fst snd]. repeat (split; [assumption|]).
      exists (Nat.max e (S t)).
      repeat (split; [lia|]).
      split; [|split].
      * intros k Hk1 Hk2. destruct (Nat.lt_ge_cases k e) as [Hlt|Hge];
          [apply Hec; lia|].
        replace k with t by lia. assumption.
      * intros k Hk1 Hk2. apply Het; lia.
      * lia.
  - destruct cur as [h|].
    + destruct Hcur as (a & f & l & Hca & Haf & Hfl & Hlt & Hf3 & Hea & Heaf &
                        Hcf & Hcl & Hel & Hpend & ->).
      exists segs, c. cbn [fst snd]. repeat (split; [assumption|]).
      exists a, f, t. repeat (split; [assumption || lia|]).
      split; [intros k Hk1 Hk2; lia|].
      split; [left; lia|].
      rewrite addChange_hunkOf by (try assumption; apply seg_nonempty; lia).
      now rewrite <- seg_snoc by lia.
    + destruct Hcur as (e & Hte & Hel & Hce & Hec & Het & Hfar).
      assert (He : e = t).
      { destruct (Nat.lt_ge_cases t e) as [Hlt|Hge]; [|lia].
        rewrite (Het t) in Ho by lia. discriminate. }
      subst e.
      exists segs, c. cbn [fst snd]. repeat (split; [assumption|]).
      exists (t - 3), t, t. repeat (split; [assumption || lia|]).
      split; [intros k Hk1 Hk2; apply Hec; lia|].
      split; [intros k Hk1 Hk2; apply Hec; lia|].
      split; [assumption|]. split; [assumption|].
      split; [intros k Hk1 Hk2; lia|].
      split; [left; lia|].
      apply openHunk_hunkOf; [assumption | assumption |].
      intros k Hk1 Hk2. apply Hec; lia.
Qed.

Lemma group_inv (ops : list diffOp) :
  forall n t st,
    t + n <= length ops -> groupInv ops t st ->
    groupInv ops (t + n) (fold_left (groupStep ops) (seq t n) st).
Proof.
  induction n as [|n IH]; intros t st Hlen Hinv.
  - now rewrite Nat.add_0_r.
  - cbn [seq fold_left]. replace (t + S n) with (S t + n) by lia.
    apply IH; [lia|]. apply groupStep_inv; [lia | assumption].
Qed.

Lemma group_shaped_Parts (ops : list diffOp) :
  exists segs,
    (let '(hunks, currentHunk) :=
       fold_left (groupStep ops) (seq 0 (length ops)) ([], None) in
     match currentHunk with
     | Some h => append1 hunks h
     | None => hunks
     end) = map hunkOf segs /\ Parts ops segs /\ Forall shaped segs.
Proof.
  assert (H0 : groupInv ops 0 ([], None)).
  { exists [], 0. cbn [fst snd map]. split; [reflexivity|]. split; [lia|].
    split; [rewrite seg_nil; constructor; constructor|].
    split; [constructor|].
    exists 0. repeat (split; [lia|]).
    split; [intros k; lia|]. split; [intros k; lia | now left]. }
  pose proof (group_inv ops (length ops) 0 _ (Nat.le_refl _) H0) as H.
  cbn [Nat.add] in H.
  destruct (fold_left (groupStep ops) (seq 0 (length ops)) ([], None)) as [hunks cur].
  destruct H as (segs & c & Hh & Hc & HP & HS & Hcur). cbn [fst snd] in Hh, Hcur.
  destruct cur as [h|].
  - destruct Hcur as (a & f & l & Hca & Haf & Hfl & Hlt & Hf3 & Hea & Heaf &
                      Hcf & Hcl & Hel & Hpend & ->).
    assert (Htl : length ops = l + 1).
    { destruct Hpend as [Hp|(ch & Hch1 & Hch2 & Hch3)]; [assumption|].
      apply change_lt in Hch3. lia. }
    exists (segs ++ [seg ops a (length ops)])%list. split; [|split].
    + unfold append1. now rewrite List.map_app, Hh.
    + rewrite <- (seg_all ops) at 1.
      rewrite (seg_app ops 0 c (length ops)), (seg_app ops c a (length ops)) by lia.
      apply Parts_snoc; [assumption | | apply seg_nonempty; lia].
      apply eqRange_seg; [lia | lia | assumption].
    + apply List.Forall_app. split; [assumption|].
      constructor; [|constructor].
      apply (shaped_seg ops a f l (length ops)); try assumption; lia.
  - destruct Hcur as (e & Hte & Hel & Hce & Hec & Het & Hfar).
    assert (e = length ops) by lia. subst e.
    exists segs. split; [assumption|]. split; [|assumption].
    rewrite <- (seg_all ops) at 1.
    rewrite (seg_app ops 0 c (length ops)) by lia.
    apply Parts_gap; [assumption|].
    apply eqRange_seg; [lia | lia | assumption].
Qed.

Lemma group_Parts (ops : list diffOp) :
  exists segs,
    (let '(hunks, currentHunk) :=
       fold_left (groupStep ops) (seq 0 (length ops)) ([], None) in
     match currentHunk with
     | Some h => append1 hunks h
     | None => hunks
     end) = map hunkOf segs /\ Parts ops segs.
Proof.
  destruct (group_shaped_Parts ops) as (segs & H1 & H2 & _).
  exists segs. now split.
Qed.

Lemma computeDiffHunks_shaped (oldLines newLines : list string) :
  exists segs,
    computeDiffHunks oldLines newLines = map hunkOf segs /\ Forall shaped segs.
Proof.
  destruct (group_shaped_Parts (editOps oldLines newLines)) as (segs & H1 & _ & H3).
  exists segs. split; [exact H1 | exact H3].
Qed.

End DiffCorrectness.

Section ScriptFacts.

Import mcp_server.

Lemma editScript_numbered (oldLines newLines : list string) (lcs : list (list nat)) :
  forall fuel i j, numbered i j (editScript fuel oldLines newLines lcs i j).
Proof.
  induction fuel as [|fuel IH]; intros i j; [exact I|].
  cbn [editScript].
  destruct ((i <? length oldLines)%nat && (j <? length newLines)%nat).
  - destruct (String.eqb _ _); [|destruct (_ <=? _)%nat];
      cbn [numbered oldN newN op]; (split; [reflexivity|split; [reflexivity|]]).
    + left. split; [reflexivity | apply IH].
    + right; left. split; [reflexivity | apply IH].
    + right; right. split; [reflexivity | apply IH].
  - destruct (i <? length oldLines)%nat; [|destruct (j <? length newLines)%nat];
      [| |exact I];
      cbn [numbered oldN newN op]; (split; [reflexivity|split; [reflexivity|]]).
    + right; left. split; [reflexivity | apply IH].
    + right; right. split; [reflexivity | apply IH].
Qed.

Lemma editScript_sides (oldLines newLines : list string) (lcs : list (list nat)) :
  forall fuel i j,
    (length oldLines - i) + (length newLines - j) <= fuel ->
    opsOld (editScript fuel oldLines newLines lcs i j) = skipn i oldLines /\
    opsNew (editScript fuel oldLines newLines lcs i j) = skipn j newLines.
Proof.
  induction fuel as [|fuel IH]; intros i j Hf.
  - cbn [editScript]. rewrite !List.skipn_all2 by lia. split; reflexivity.
  - cbn [editScript].
    destruct (Nat.ltb_spec i (length oldLines)) as [Hi|Hi];
      destruct (Nat.ltb_spec j (length newLines)) as [Hj|Hj]; cbn [andb].
    + destruct (String.eqb_spec (nth i oldLines EmptyString) (nth j newLines EmptyString))
        as [E|N].
      * destruct (IH (i + 1) (j + 1)) as [A B]; [lia|].
        rewrite (skipn_nth_cons oldLines i EmptyString Hi).
        rewrite (skipn_nth_cons newLines j EmptyString Hj).
        rewrite <- A, <- B, <- E. split; reflexivity.
      * destruct (at2 lcs i (j + 1) <=? at2 lcs (i + 1) j)%nat.
        -- destruct (IH (i + 1) j) as [A B]; [lia|].
           rewrite (skipn_nth_cons oldLines i EmptyString Hi).
           rewrite <- A, <- B. split; reflexivity.
        -- destruct (IH i (j + 1)) as [A B]; [lia|].
           rewrite (skipn_nth_cons newLines j EmptyString Hj).
           rewrite <- A, <- B. split; reflexivity.
    + destruct (IH (i + 1) j) as [A B]; [lia|].
      rewrite (skipn_nth_cons oldLines i EmptyString Hi).
      rewrite <- A, <- B. split; reflexivity.
    + destruct (IH i (j + 1)) as [A B]; [lia|].
      rewrite (skipn_nth_cons newLines j EmptyString Hj).
      rewrite <- A, <- B. split; reflexivity.
    + rewrite !List.skipn_all2 by lia. split; reflexivity.
Qed.

Lemma opsOld_cons (o : diffOp) (s : list diffOp) :
  opsOld (o :: s) = if countsOld o then line o :: opsOld s else opsOld s.
Proof. unfold opsOld. cbn [List.filter]. now destruct (countsOld o). Qed.

Lemma opsNew_cons (o : diffOp) (s : list diffOp) :
  opsNew (o :: s) = if countsNew o then line o :: opsNew s else opsNew s.
Proof. unfold opsNew. cbn [List.filter]. now destruct (countsNew o). Qed.

Lemma opsOld_app (a b : list diffOp) : opsOld (a ++ b) = (opsOld a ++ opsOld b)%list.
Proof. unfold opsOld. now rewrite List.filter_app, List.map_app. Qed.

Lemma opsNew_app (a b : list diffOp) : opsNew (a ++ b) = (opsNew a ++ opsNew b)%list.
Proof. unfold opsNew. now rewrite List.filter_app, List.map_app. Qed.

Lemma gap_sides (g : list diffOp) :
  Forall (fun o => isEqualOp o = true) g ->
  opsOld g = map line g /\ opsNew g = map line g.
Proof.
  induction 1 as [|o g Ho Hg [A B]]; [split; reflexivity|].
  destruct (counts_equal o Ho) as [Hco Hcn].
  rewrite opsOld_cons, opsNew_cons, Hco, Hcn. cbn [map].
  now rewrite A, B.
Qed.

Lemma numbered_eq (i j i' j' : nat) (ops : list diffOp) :
  numbered i j ops -> i = i' -> j = j' -> numbered i' j' ops.
Proof. now intros H <- <-. Qed.

Lemma numbered_cases (i j : nat) (o : diffOp) (ops : list diffOp) :
  numbered i j (o :: ops) ->
  oldN o = i /\ newN o = j /\
  ((op o = " "%char /\ countsOld o = true /\ countsNew o = true /\
    numbered (i + 1) (j + 1) ops) \/
   (op o = "-"%char /\ countsOld o = true /\ countsNew o = false /\
    numbered (i + 1) j ops) \/
   (op o = "+"%char /\ countsOld o = false /\ countsNew o = true /\
    numbered i (j + 1) ops)).
Proof.
  cbn [numbered]. intros (Ho & Hn & H). split; [assumption|]. split; [assumption|].
  unfold countsOld, countsNew, isEqualOp.
  destruct H as [[E H]|[[E H]|[E H]]]; rewrite E;
    [left | right; left | right; right]; repeat split; assumption.
Qed.

Lemma numbered_app (a b : list diffOp) :
  forall i j,
    numbered i j (a ++ b) ->
    numbered (i + length (opsOld a)) (j + length (opsNew a)) b.
Proof.
  induction a as [|o a IH]; intros i j H.
  - cbn [opsOld opsNew List.filter map length]. now rewrite !Nat.add_0_r.
  - rewrite <- List.app_comm_cons in H.
    apply numbered_cases in H as (_ & _ & H).
    rewrite opsOld_cons, opsNew_cons.
    destruct H as [(_ & Hco & Hcn & H)|[(_ & Hco & Hcn & H)|(_ & Hco & Hcn & H)]];
      rewrite Hco, Hcn; cbn [length];
      apply IH in H; (eapply numbered_eq; [exact H | lia | lia]).
Qed.

Lemma numbered_hd (s rest : list diffOp) (i j : nat) :
  s <> [] -> numbered i j (s ++ rest) ->
  oldN (hd noOp s) = i /\ newN (hd noOp s) = j.
Proof.
  destruct s as [|o s]; [congruence|]. intros _ H.
  rewrite <- List.app_comm_cons in H. cbn [numbered hd] in *. tauto.
Qed.

Lemma hunkOld_cons (c : ascii) (l : string) (body : list string) :
  hunkOld (String c l :: body) =
  if Ascii.eqb c " " || Ascii.eqb c "-" then l :: hunkOld body else hunkOld body.
Proof.
  unfold hunkOld. cbn [List.filter strings.HasPrefix]. rewrite !Bool.andb_true_r.
  destruct (Ascii.eqb c " " || Ascii.eqb c "-"); reflexivity.
Qed.

Lemma hunkNew_cons (c : ascii) (l : string) (body : list string) :
  hunkNew (String c l :: body) =
  if Ascii.eqb c " " || Ascii.eqb c "+" then l :: hunkNew body else hunkNew body.
Proof.
  unfold hunkNew. cbn [List.filter strings.HasPrefix]. rewrite !Bool.andb_true_r.
  destruct (Ascii.eqb c " " || Ascii.eqb c "+"); reflexivity.
Qed.

Lemma hunk_sides (s rest : list diffOp) :
  forall i j,
    numbered i j (s ++ rest) ->
    hunkOld (map opLine s) = opsOld s /\ hunkNew (map opLine s) = opsNew s.
Proof.
  induction s as [|o s IH]; intros i j H; [split; reflexivity|].
  rewrite <- List.app_comm_cons in H.
  apply numbered_cases in H as (_ & _ & H).
  cbn [map]. unfold opLine at 1 3.
  rewrite hunkOld_cons, hunkNew_cons, opsOld_cons, opsNew_cons.
  destruct H as [(E & Hco & Hcn & H)|[(E & Hco & Hcn & H)|(E & Hco & Hcn & H)]];
    rewrite Hco, Hcn, E; destruct (IH _ _ H) as [A B];
    rewrite A, B; split; reflexivity.
Qed.

Lemma firstn_app_length {A : Type} (a b : list A) (n : nat) :
  n = length a -> firstn n (a ++ b) = a.
Proof.
  intros ->. rewrite List.firstn_app, Nat.sub_diag, List.firstn_all. cbn [firstn].
  apply List.app_nil_r.
Qed.

Lemma skipn_app_length {A : Type} (a b : list A) (n : nat) :
  n = length a -> skipn n (a ++ b) = b.
Proof.
  intros ->. rewrite List.skipn_app, Nat.sub_diag, List.skipn_all. reflexivity.
Qed.

Lemma applyHunks_step (h : diffHunk) (hunks : list diffHunk) (i j : nat)
    (pre oldSide newSide rest out : list string) :
  oldStart h = i + length pre -> newStart h = j + length pre ->
  oldCount h = length oldSide -> newCount h = length newSide ->
  hunkOld (lines h) = oldSide -> hunkNew (lines h) = newSide ->
  applyHunks hunks (i + length pre + length oldSide) (j + length pre + length newSide)
    rest = Some out ->
  applyHunks (h :: hunks) i j (pre ++ oldSide ++ rest)%list
  = Some (pre ++ newSide ++ out)%list.
Proof.
  intros Hos Hns Hoc Hnc HO HN Hrec. cbn [applyHunks].
  rewrite Hos, Hns, Hoc, Hnc, HO, HN.
  replace (i + length pre - i) with (length pre) by lia.
  rewrite (skipn_app_length pre _ _ eq_refl), (firstn_app_length pre _ _ eq_refl).
  rewrite (skipn_app_length oldSide _ _ eq_refl).
  rewrite Hrec.
  rewrite bool_decide_eq_true_2; [reflexivity|].
  repeat split; try lia.
  - rewrite List.length_app. lia.
  - apply firstn_app_length. reflexivity.
Qed.

Lemma applyHunks_Parts (ops : list diffOp) (segs : list (list diffOp)) :
  Parts ops segs ->
  forall i j, numbered i j ops ->
              applyHunks (map hunkOf segs) i j (opsOld ops) = Some (opsNew ops).
Proof.
  induction 1 as [g Hg|g s rest segs Hg Hs HP IH]; intros i j Hn.
  - cbn [map applyHunks]. destruct (gap_sides g Hg) as [A B]. now rewrite A, B.
  - destruct (gap_sides g Hg) as [A B].
    pose proof (numbered_app g (s ++ rest) i j Hn) as Hn1.
    pose proof (numbered_app s rest _ _ Hn1) as Hn2.
    destruct (numbered_hd s rest _ _ Hs Hn1) as [Ho Hw].
    destruct (hunk_sides s rest _ _ Hn1) as [HO HN].
    rewrite A, B in *. rewrite List.length_map in *.
    rewrite !opsOld_app, !opsNew_app, A, B. cbn [map].
    apply applyHunks_step; rewrite ?List.length_map; try assumption.
    + unfold hunkOf, opsOld. cbn [oldCount]. now rewrite List.length_map.
    + unfold hunkOf, opsNew. cbn [newCount]. now rewrite List.length_map.
    + apply IH. exact Hn2.
Qed.

Lemma computeDiffHunks_Parts (oldLines newLines : list string) :
  exists segs,
    computeDiffHunks oldLines newLines = map hunkOf segs /\
    Parts (editOps oldLines newLines) segs.
Proof. exact (group_Parts (editOps oldLines newLines)). Qed.

Lemma editOps_sides (oldLines newLines : list string) :
  numbered 0 0 (editOps oldLines newLines) /\
  opsOld (editOps oldLines newLines) = oldLines /\
  opsNew (editOps oldLines newLines) = newLines.
Proof.
  unfold editOps. split; [apply editScript_numbered|].
  apply (editScript_sides oldLines newLines _ _ 0 0). lia.
Qed.

Lemma computeDiffHunks_apply (oldLines newLines : list string) :
  applyHunks (computeDiffHunks oldLines newLines) 0 0 oldLines = Some newLines.
Proof.
  destruct (computeDiffHunks_Parts oldLines newLines) as (segs & -> & HP).
  destruct (editOps_sides oldLines newLines) as (Hn & HO & HN).
  rewrite <- HO at 1. rewrite <- HN at 2. now apply applyHunks_Parts.
Qed.

(** X9.  The hunks are a correct diff.  For every two sequences of
    lines, the hunks computed from them apply in order to the old lines
    and give the new lines: each hunk starts at or after the end of the
    one before, its old start and new start are the positions reached in
    the old lines and in the output, its two counts are the numbers of
    lines of its old and of its new side, its old side (context and
    removed lines) is what the old lines hold there, and replacing it by
    its new side (context and added lines), while copying the lines
    outside the hunks, produces the new lines. *)
Theorem computeDiffHunks_applies :
  forall (oldLines newLines : list string),
    applyHunks (computeDiffHunks oldLines newLines) 0 0 oldLines = Some newLines.
Proof.
  intros oldLines newLines.
  destruct (computeDiffHunks_Parts oldLines newLines) as (segs & -> & HP).
  destruct (editOps_sides oldLines newLines) as (Hn & HO & HN).
  rewrite <- HO at 1. rewrite <- HN at 2.
  apply applyHunks_Parts; assumption.
Qed.

Lemma computeDiffHunks_nil (oldLines newLines : list string) :
  computeDiffHunks oldLines newLines = [] <-> oldLines = newLines.
Proof.
  split.
  - intros H. pose proof (computeDiffHunks_apply oldLines newLines) as Ha.
    rewrite H in Ha. cbn [applyHunks] in Ha. congruence.
  - intros ->. apply computeDiffHunks_same.
Qed.

Lemma splitLines_inj (a b : string) : splitLines a = splitLines b -> a = b.
Proof.
  intros H.
  assert (J : forall s, strings.Join (splitLines s) nl = s).
  { intros s. unfold splitLines.
    destruct (String.eqb_spec s EmptyString) as [->|_];
      [reflexivity | apply SplitByte_join]. }
  rewrite <- (J a), <- (J b). now rewrite H.
Qed.

(** X10.  A diff is empty exactly when nothing changed: no hunk is
    computed if and only if the two sequences of lines are equal, and
    the rendered diff is the empty text if and only if the old and the
    new content are the same text. *)
Theorem createUnifiedDiff_empty_iff :
  (forall (oldLines newLines : list string),
      computeDiffHunks oldLines newLines = [] <-> oldLines = newLines) /\
  (forall (filename oldContent newContent : string),
      createUnifiedDiff filename oldContent newContent = EmptyString
      <-> oldContent = newContent).
Proof.
  split; [exact computeDiffHunks_nil|].
  intros filename oldContent newContent. unfold createUnifiedDiff. split.
  - destruct (computeDiffHunks (splitLines oldContent) (splitLines newContent))
      as [|h hs] eqn:Hh.
    + intros _. apply splitLines_inj. now apply computeDiffHunks_nil.
    + cbn [length Nat.eqb]. rewrite app_cons. discriminate.
  - intros ->. now rewrite computeDiffHunks_same.
Qed.

End ScriptFacts.

(** ** Reading a rendered diff back *)

Section DiffRoundTrip.

Import mcp_server.

Lemma of_uint_acc_ge (l : Decimal.uint) :
  forall acc, (acc <= Pos.of_uint_acc l acc)%positive.
Proof.
  induction l as [|l IH|l IH|l IH|l IH|l IH|l IH|l IH|l IH|l IH|l IH]; intros acc;
    cbn [Pos.of_uint_acc]; [lia| | | | | | | | | |];
    (etransitivity; [|apply IH]); lia.
Qed.

Lemma wrap64_small (z : Z) :
  (0 <= z < 2 ^ 63)%Z -> tools.wrap64 z = z.
Proof.
  intros H. unfold tools.wrap64.
  rewrite Z.mod_small by lia. lia.
Qed.

Lemma leadingNumber_acc (l : Decimal.uint) :
  forall acc,
    (Z.pos (Pos.of_uint_acc l acc) < 2 ^ 63)%Z ->
    tools.leadingNumber (Z.pos acc) (NilEmpty.string_of_uint l)
    = Z.pos (Pos.of_uint_acc l acc).
Proof.
  induction l as [|l IH|l IH|l IH|l IH|l IH|l IH|l IH|l IH|l IH|l IH]; intros acc H;
    cbn [Pos.of_uint_acc NilEmpty.string_of_uint tools.leadingNumber] in *;
    [reflexivity| | | | | | | | | |];
    match goal with
    | |- context [tools.isDigit ?c] => change (tools.isDigit c) with true; cbn iota
    end;
    match goal with
    | |- context [Z.of_nat (nat_of_ascii ?c)] =>
        let v := eval vm_compute in (Z.of_nat (nat_of_ascii c)) in
        change (Z.of_nat (nat_of_ascii c)) with v
    end;
    match goal with
    | H : (Z.pos (Pos.of_uint_acc l ?a) < _)%Z |- _ =>
        pose proof (of_uint_acc_ge l a) as Hge;
        rewrite wrap64_small by lia;
        rewrite <- (IH a H); f_equal; lia
    end.
Qed.

Lemma leadingNumber_uint (d : Decimal.uint) :
  (Z.of_N (Pos.of_uint d) < 2 ^ 63)%Z ->
  tools.leadingNumber 0 (NilEmpty.string_of_uint d) = Z.of_N (Pos.of_uint d).
Proof.
  induction d as [|l IH|l IH|l IH|l IH|l IH|l IH|l IH|l IH|l IH|l IH]; intros H;
    cbn [Pos.of_uint NilEmpty.string_of_uint tools.leadingNumber] in *;
    [reflexivity| | | | | | | | | |];
    match goal with
    | |- context [tools.isDigit ?c] => change (tools.isDigit c) with true; cbn iota
    end;
    match goal with
    | |- context [Z.of_nat (nat_of_ascii ?c)] =>
        let v := eval vm_compute in (Z.of_nat (nat_of_ascii c)) in
        change (Z.of_nat (nat_of_ascii c)) with v
    end;
    rewrite wrap64_small by lia; cbn [Z.mul Z.add Z.sub Z.opp Z.pos_sub];
    [apply IH; assumption | ..];
    cbn [Z.of_N] in *; now apply leadingNumber_acc.
Qed.

Lemma leadingNumber_dn (n : nat) :
  (Z.of_nat n < 2 ^ 63)%Z -> tools.leadingNumber 0 (fmt.dn n) = Z.of_nat n.
Proof.
  intros H. unfold fmt.dn, fmt.d.
  destruct (Z.of_nat n) as [|p|p] eqn:E; [reflexivity | | lia].
  cbn [Z.to_int NilEmpty.string_of_int].
  rewrite leadingNumber_uint; rewrite DecimalPos.Unsigned.of_to; [reflexivity | exact H].
Qed.

Lemma allDigits_uint (d : Decimal.uint) : allDigits (NilEmpty.string_of_uint d) = true.
Proof.
  induction d; cbn [NilEmpty.string_of_uint allDigits]; [reflexivity|..];
    rewrite IHd; reflexivity.
Qed.

Lemma allDigits_dn (n : nat) : allDigits (fmt.dn n) = true.
Proof.
  unfold fmt.dn, fmt.d.
  destruct (Z.of_nat n) as [|p|p] eqn:E; [reflexivity | apply allDigits_uint | lia].
Qed.

Lemma allDigits_noByte (c : ascii) (s : string) :
  tools.isDigit c = false -> allDigits s = true -> noByte c s = true.
Proof.
  intros Hc. induction s as [|x s IH]; [reflexivity|].
  cbn [allDigits noByte]. intros H. apply andb_prop in H as [Hx Hs].
  rewrite IH by assumption. rewrite Bool.andb_true_r.
  destruct (Ascii.eqb_spec x c) as [->|_]; [congruence | reflexivity].
Qed.

Lemma noByte_app (c : ascii) (a b : string) :
  noByte c (a ++ b) = noByte c a && noByte c b.
Proof.
  induction a as [|x a IH]; [reflexivity|].
  rewrite app_cons. cbn [noByte]. now rewrite IH, Bool.andb_assoc.
Qed.

Lemma Index_byte_first (c : ascii) (pre rest : string) :
  noByte c pre = true ->
  strings.Index (pre ++ String c rest) (String c EmptyString) = Some (String.length pre).
Proof.
  induction pre as [|x pre IH]; intros H.
  - rewrite app_nil_l. cbn [strings.Index strings.HasPrefix].
    now rewrite Ascii.eqb_refl.
  - cbn [noByte] in H. apply andb_prop in H as [Hx H].
    rewrite app_cons. cbn [strings.Index strings.HasPrefix].
    apply Bool.negb_true_iff in Hx. rewrite Hx. cbn [andb].
    now rewrite IH.
Qed.

Lemma Index_byte_none (c : ascii) (s : string) :
  noByte c s = true -> strings.Index s (String c EmptyString) = None.
Proof.
  induction s as [|x s IH]; intros H; [reflexivity|].
  cbn [noByte] in H. apply andb_prop in H as [Hx H].
  cbn [strings.Index strings.HasPrefix].
  apply Bool.negb_true_iff in Hx. rewrite Hx. cbn [andb].
  now rewrite IH.
Qed.

Lemma noByte_noLF (s : string) : noByte LF s = true -> noLF s.
Proof. intros H. unfold noLF, nl. now apply Index_byte_none. Qed.

Lemma noLF_noByte (s : string) : noLF s -> noByte LF s = true.
Proof.
  induction s as [|x s IH]; intros H; [reflexivity|].
  apply noLF_cons in H as [Hx H]. cbn [noByte]. now rewrite Hx, IH.
Qed.

Lemma parseHunkHeader_headerLine (h : diffHunk) :
  (Z.of_nat (newStart h) < 2 ^ 63 - 1)%Z ->
  tools.parseHunkHeader (headerLine h) = Z.of_nat (newStart h + 1).
Proof.
  intros Hb. unfold tools.parseHunkHeader, headerLine.
  set (d1 := fmt.dn (oldStart h + 1)). set (d2 := fmt.dn (oldCount h)).
  set (d3 := fmt.dn (newStart h + 1)). set (d4 := fmt.dn (newCount h)).
  assert (D1 : allDigits d1 = true) by apply allDigits_dn.
  assert (D2 : allDigits d2 = true) by apply allDigits_dn.
  assert (D3 : allDigits d3 = true) by apply allDigits_dn.
  replace ("@@ -" ++ d1 ++ "," ++ d2 ++ " +" ++ d3 ++ "," ++ d4 ++ " @@")
    with (("@@ -" ++ d1 ++ "," ++ d2 ++ " ") ++ String "+" (d3 ++ "," ++ d4 ++ " @@"))
    by (rewrite !app_assoc_s; reflexivity).
  rewrite Index_byte_first.
  2:{ rewrite !noByte_app.
      rewrite (allDigits_noByte "+" d1), (allDigits_noByte "+" d2) by (assumption || reflexivity).
      reflexivity. }
  replace (String.length ("@@ -" ++ d1 ++ "," ++ d2 ++ " ") + 1)
    with (String.length (("@@ -" ++ d1 ++ "," ++ d2 ++ " ") ++ "+"))
    by (rewrite (length_app _ "+"); reflexivity).
  replace (("@@ -" ++ d1 ++ "," ++ d2 ++ " ") ++ String "+" (d3 ++ "," ++ d4 ++ " @@"))
    with ((("@@ -" ++ d1 ++ "," ++ d2 ++ " ") ++ "+") ++ (d3 ++ "," ++ d4 ++ " @@"))
    by (rewrite (app_assoc_s _ "+"); reflexivity).
  rewrite from_app.
  assert (S1 : strings.SplitN2_first (d3 ++ "," ++ d4 ++ " @@") "," = d3).
  { unfold strings.SplitN2_first.
    change (d3 ++ "," ++ d4 ++ " @@") with (d3 ++ String "," (d4 ++ " @@")).
    rewrite Index_byte_first by (apply allDigits_noByte; [reflexivity | assumption]).
    apply upto_app. }
  assert (S2 : strings.SplitN2_first d3 " " = d3).
  { unfold strings.SplitN2_first.
    now rewrite Index_byte_none by (apply allDigits_noByte; [reflexivity | assumption]). }
  cbv zeta. rewrite S1, S2.
  subst d3. rewrite leadingNumber_dn by lia.
  destruct (Z.eqb_spec (Z.of_nat (newStart h + 1)) 0); [lia | reflexivity].
Qed.

Lemma linesText_fold (ls : list string) :
  fold_right (fun l acc => l ++ nl ++ acc) EmptyString ls = linesText ls.
Proof. induction ls as [|l ls IH]; [reflexivity|]. cbn [fold_right linesText]. now rewrite IH. Qed.

Lemma linesText_app (a b : list string) :
  linesText (a ++ b) = linesText a ++ linesText b.
Proof.
  induction a as [|l a IH]; [reflexivity|].
  rewrite <- List.app_comm_cons. cbn [linesText]. rewrite IH.
  now rewrite !app_assoc_s.
Qed.

Lemma hunkText_lines (h : diffHunk) : hunkText h = linesText (headerLine h :: lines h).
Proof.
  unfold hunkText, headerLine. cbn [linesText]. rewrite linesText_fold.
  now rewrite !app_assoc_s.
Qed.

Lemma hunks_text (hunks : list diffHunk) :
  fold_right (fun hunk acc => hunkText hunk ++ acc) EmptyString hunks
  = linesText (renderedLines hunks).
Proof.
  induction hunks as [|h hunks IH]; [reflexivity|].
  cbn [fold_right renderedLines flat_map]. rewrite IH, hunkText_lines.
  now rewrite linesText_app.
Qed.

Lemma SplitByte_linesText (ls : list string) :
  Forall noLF ls -> strings.SplitByte (linesText ls) LF = (ls ++ [EmptyString])%list.
Proof.
  induction 1 as [|l ls Hl Hls IH]; [reflexivity|].
  cbn [linesText]. rewrite SplitByte_line by assumption. now rewrite IH.
Qed.

Lemma parseLine_body (patches : list tools.toolsDiffPatch) (cur : tools.toolsDiffPatch)
    (h : tools.toolsDiffHunk) (l : string) :
  bodyOK l = true ->
  tools.parseLine (patches, Some cur, Some h) l
  = (patches, Some cur, Some (tools.mkHunk (tools.newStart h) (append1 (tools.lines h) l))).
Proof.
  unfold bodyOK, tools.parseLine. intros H.
  apply andb_prop in H as [H H3]. apply andb_prop in H as [H1 H2].
  apply Bool.negb_true_iff in H1, H2. rewrite H1, H2.
  assert (H4 : strings.HasPrefix l "@@" = false).
  { destruct l as [|c l]; [reflexivity|]. cbn [strings.HasPrefix] in *.
    destruct (Ascii.eqb_spec c "@") as [->|_]; [discriminate H3 | reflexivity]. }
  now rewrite H3, H4.
Qed.

Lemma parseLine_header (patches : list tools.toolsDiffPatch) (cur : tools.toolsDiffPatch)
    (ch : option tools.toolsDiffHunk) (h : diffHunk) :
  tools.parseLine (patches, Some cur, ch) (headerLine h)
  = (patches, Some (tools.closeHunk cur ch),
     Some (tools.mkHunk (tools.parseHunkHeader (headerLine h)) [])).
Proof.
  unfold tools.parseLine.
  change (strings.HasPrefix (headerLine h) "--- ") with false.
  change (strings.HasPrefix (headerLine h) "+++ ") with false.
  change (strings.HasPrefix (headerLine h) "@@") with true.
  reflexivity.
Qed.

Lemma parseLine_empty (patches : list tools.toolsDiffPatch) (cur : tools.toolsDiffPatch)
    (ch : option tools.toolsDiffHunk) :
  tools.parseLine (patches, Some cur, ch) EmptyString = (patches, Some cur, ch).
Proof. unfold tools.parseLine. cbn [strings.HasPrefix orb]. now destruct ch. Qed.

Lemma parse_body (patches : list tools.toolsDiffPatch) (cur : tools.toolsDiffPatch)
    (n : Z) :
  forall ls acc,
    Forall (fun l => bodyOK l = true) ls ->
    fold_left tools.parseLine ls (patches, Some cur, Some (tools.mkHunk n acc))
    = (patches, Some cur, Some (tools.mkHunk n (acc ++ ls)%list)).
Proof.
  induction ls as [|l ls IH]; intros acc H.
  - now rewrite List.app_nil_r.
  - inversion H as [|? ? Hl Hls]; subst. cbn [fold_left].
    rewrite parseLine_body by assumption. cbn [tools.newStart tools.lines].
    unfold append1. rewrite IH by assumption. now rewrite <- List.app_assoc.
Qed.

Lemma closeHunk_names (cur : tools.toolsDiffPatch) (ch : option tools.toolsDiffHunk) :
  tools.oldFileName (tools.closeHunk cur ch) = tools.oldFileName cur /\
  tools.newFileName (tools.closeHunk cur ch) = tools.newFileName cur.
Proof. destruct ch; split; reflexivity. Qed.

Lemma parse_hunks (patches : list tools.toolsDiffPatch) :
  forall hunks cur ch,
    Forall (fun h => (Z.of_nat (newStart h) < 2 ^ 63 - 1)%Z /\
                     Forall (fun l => bodyOK l = true) (lines h)) hunks ->
    exists cur' ch',
      fold_left tools.parseLine (renderedLines hunks) (patches, Some cur, ch)
      = (patches, Some cur', ch') /\
      tools.closeHunk cur' ch'
      = tools.mkPatch (tools.oldFileName cur) (tools.newFileName cur)
          (tools.hunks (tools.closeHunk cur ch) ++ map parsedHunk hunks)%list.
Proof.
  induction hunks as [|h hunks IH]; intros cur ch H.
  - exists cur, ch. split; [reflexivity|]. rewrite List.app_nil_r.
    destruct cur, ch; reflexivity.
  - inversion H as [|? ? [Hb Hl] Hrest]; subst.
    cbn [renderedLines flat_map]. rewrite <- List.app_comm_cons. cbn [fold_left].
    rewrite parseLine_header, parseHunkHeader_headerLine by assumption.
    rewrite List.fold_left_app, parse_body by assumption. cbn [app].
    destruct (IH (tools.closeHunk cur ch) (Some (parsedHunk h)) Hrest)
      as (cur' & ch' & Hf & Hc).
    exists cur', ch'. split; [exact Hf|]. rewrite Hc.
    destruct (closeHunk_names cur ch) as [-> ->].
    cbn [tools.closeHunk tools.hunks map]. unfold append1.
    now rewrite <- List.app_assoc.
Qed.

Lemma hunkSides_lines :
  forall ls accO accN,
    Forall (fun l => bodyOK l = true) ls ->
    fold_left
      (fun '(oldLines, newLines) line =>
         if strings.HasPrefix line "-"
         then (append1 oldLines (strings.from 1 line), newLines)
         else if strings.HasPrefix line "+"
              then (oldLines, append1 newLines (strings.from 1 line))
              else if (0 <? String.length line)%nat
                   then (append1 oldLines (strings.from 1 line),
                         append1 newLines (strings.from 1 line))
                   else (oldLines, newLines))
      ls (accO, accN)
    = ((accO ++ hunkOld ls)%list, (accN ++ hunkNew ls)%list).
Proof.
  induction ls as [|l ls IH]; intros accO accN H.
  - cbn [fold_left hunkOld hunkNew List.filter map]. now rewrite !List.app_nil_r.
  - inversion H as [|? ? Hl Hls]; subst. cbn [fold_left].
    destruct l as [|c l]; [discriminate Hl|].
    rewrite hunkOld_cons, hunkNew_cons.
    unfold bodyOK in Hl. apply andb_prop in Hl as [_ Hl].
    cbn [strings.HasPrefix strings.from String.length Nat.ltb Nat.leb] in *.
    rewrite !Bool.andb_true_r in *.
    destruct (Ascii.eqb_spec c "-") as [->|Hm].
    + rewrite IH by assumption. cbn. unfold append1. now rewrite <- List.app_assoc.
    + destruct (Ascii.eqb_spec c "+") as [->|Hp].
      * rewrite IH by assumption. cbn. unfold append1. now rewrite <- List.app_assoc.
      * cbn [orb] in Hl. rewrite Hl. cbn [orb].
        rewrite IH by assumption. unfold append1. now rewrite <- !List.app_assoc.
Qed.

Lemma Parts_In (ops : list diffOp) (segs : list (list diffOp)) :
  Parts ops segs ->
  forall s, In s segs -> s <> [] /\ forall o, In o s -> In o ops.
Proof.
  induction 1 as [g Hg|g s rest segs Hg Hs HP IH]; intros s0 Hin; [destruct Hin|].
  destruct Hin as [<-|Hin].
  - split; [assumption|]. intros o Ho.
    apply List.in_or_app. right. apply List.in_or_app. now left.
  - destruct (IH s0 Hin) as [Hne Hsub]. split; [assumption|]. intros o Ho.
    apply List.in_or_app. right. apply List.in_or_app. right. now apply Hsub.
Qed.

Lemma opsOld_In_cons (x : string) (o : diffOp) (ops : list diffOp) :
  In x (opsOld ops) -> In x (opsOld (o :: ops)).
Proof. rewrite opsOld_cons. destruct (countsOld o); [now right | trivial]. Qed.

Lemma opsNew_In_cons (x : string) (o : diffOp) (ops : list diffOp) :
  In x (opsNew ops) -> In x (opsNew (o :: ops)).
Proof. rewrite opsNew_cons. destruct (countsNew o); [now right | trivial]. Qed.

Lemma numbered_In (ops : list diffOp) :
  forall i j o,
    numbered i j ops -> In o ops ->
    newN o <= j + length (opsNew ops) /\
    ((op o = " "%char /\ In (line o) (opsOld ops)) \/
     (op o = "-"%char /\ In (line o) (opsOld ops)) \/
     (op o = "+"%char /\ In (line o) (opsNew ops))).
Proof.
  induction ops as [|x ops IH]; intros i j o Hn Hin; [destruct Hin|].
  apply numbered_cases in Hn as (Hi & Hj & Hn).
  destruct Hin as [->|Hin].
  - split; [lia|].
    rewrite opsOld_cons, opsNew_cons.
    destruct Hn as [(E & Hco & Hcn & _)|[(E & Hco & Hcn & _)|(E & Hco & Hcn & _)]];
      rewrite ?Hco, ?Hcn; [left | right; left | right; right];
      (split; [assumption | now left]).
  - assert (Hrec : forall i' j', numbered i' j' ops -> j' <= j + 1 ->
                   (j' = j + 1 -> countsNew x = true) ->
                   newN o <= j + length (opsNew (x :: ops)) /\
                   ((op o = " "%char /\ In (line o) (opsOld (x :: ops))) \/
                    (op o = "-"%char /\ In (line o) (opsOld (x :: ops))) \/
                    (op o = "+"%char /\ In (line o) (opsNew (x :: ops))))).
    { intros i' j' Hn' Hle Hc. destruct (IH i' j' o Hn' Hin) as [Hb Hcase]. split.
      - rewrite opsNew_cons. destruct (countsNew x) eqn:Hx; cbn [length]; [lia|].
        assert (j' <> j + 1) by (intros E; specialize (Hc E); discriminate). lia.
      - destruct Hcase as [[E H]|[[E H]|[E H]]];
          [left | right; left | right; right];
          (split; [assumption|]);
          [apply opsOld_In_cons | apply opsOld_In_cons | apply opsNew_In_cons];
          assumption. }
    destruct Hn as [(_ & _ & Hcn & Hn)|[(_ & _ & Hcn & Hn)|(_ & _ & Hcn & Hn)]].
    + apply (Hrec _ _ Hn); [lia | intros _; assumption].
    + apply (Hrec _ _ Hn); [lia | intros E; lia].
    + apply (Hrec _ _ Hn); [lia | intros _; assumption].
Qed.

Lemma HasPrefix_String (c d : ascii) (l p : string) :
  strings.HasPrefix (String c l) (String d p) = Ascii.eqb c d && strings.HasPrefix l p.
Proof. reflexivity. Qed.

Lemma bodyOK_opLine (c : ascii) (l : string) :
  c = " "%char \/ (c = "-"%char /\ strings.HasPrefix l "-- " = false) \/
  (c = "+"%char /\ strings.HasPrefix l "++ " = false) ->
  bodyOK (String c l) = true.
Proof.
  intros [->|[[-> H]|[-> H]]]; unfold bodyOK;
    rewrite (HasPrefix_String _ _ l "-- "), (HasPrefix_String _ _ l "++ "), ?H;
    reflexivity.
Qed.

Lemma hunk_lines_ok (oldLines newLines : list string) :
  Forall noLF oldLines -> Forall noLF newLines ->
  Forall (fun l => strings.HasPrefix l "-- " = false) oldLines ->
  Forall (fun l => strings.HasPrefix l "++ " = false) newLines ->
  (Z.of_nat (length newLines) < 2 ^ 63 - 1)%Z ->
  Forall (fun h => ((Z.of_nat (newStart h) < 2 ^ 63 - 1)%Z /\
                    Forall (fun l => bodyOK l = true) (lines h)) /\
                   Forall noLF (lines h))
         (computeDiffHunks oldLines newLines).
Proof.
  intros HlfO HlfN HpO HpN Hb.
  destruct (computeDiffHunks_Parts oldLines newLines) as (segs & -> & HP).
  destruct (editOps_sides oldLines newLines) as (Hn & HO & HN).
  apply List.Forall_map. apply List.Forall_forall. intros s Hs.
  destruct (Parts_In _ _ HP s Hs) as [Hne Hsub].
  assert (Hop : forall o, In o s ->
                  bodyOK (opLine o) = true /\ noLF (opLine o) /\
                  newN o <= length newLines).
  { intros o Ho. destruct (numbered_In _ 0 0 o Hn (Hsub o Ho)) as [Hbound Hcase].
    rewrite HO, HN in *. rewrite List.Forall_forall in HlfO, HlfN, HpO, HpN.
    unfold opLine. split; [|split; [|lia]].
    - apply bodyOK_opLine.
      destruct Hcase as [[E H]|[[E H]|[E H]]]; rewrite E;
        [now left | right; left | right; right]; split; auto.
    - apply noLF_cons.
      destruct Hcase as [[E H]|[[E H]|[E H]]]; rewrite E; split; auto. }
  split; [split|].
  - destruct s as [|o s]; [congruence|]. cbn [hunkOf newStart hd].
    destruct (Hop o (or_introl eq_refl)) as (_ & _ & Hle). lia.
  - cbn [hunkOf lines]. apply List.Forall_map. apply List.Forall_forall.
    intros o Ho. now apply Hop.
  - cbn [hunkOf lines]. apply List.Forall_map. apply List.Forall_forall.
    intros o Ho. now apply Hop.
Qed.

Lemma headerLine_noLF (h : diffHunk) : noLF (headerLine h).
Proof.
  apply noByte_noLF. unfold headerLine. rewrite !noByte_app.
  rewrite !(allDigits_noByte LF (fmt.dn _)) by (reflexivity || apply allDigits_dn).
  reflexivity.
Qed.

Lemma renderedLines_noLF (hunks : list diffHunk) :
  Forall (fun h => Forall noLF (lines h)) hunks -> Forall noLF (renderedLines hunks).
Proof.
  induction 1 as [|h hunks Hh Hrest IH]; [constructor|].
  cbn [renderedLines flat_map]. rewrite <- List.app_comm_cons.
  constructor; [apply headerLine_noLF|]. apply List.Forall_app. now split.
Qed.

Lemma parseUnifiedDiff_rendered (filename : string) (hunks : list diffHunk) :
  noLF filename ->
  Forall (fun h => ((Z.of_nat (newStart h) < 2 ^ 63 - 1)%Z /\
                    Forall (fun l => bodyOK l = true) (lines h)) /\
                   Forall noLF (lines h)) hunks ->
  tools.parseUnifiedDiff
    ("--- a/" ++ filename ++ nl ++ "+++ b/" ++ filename ++ nl ++
     fold_right (fun hunk acc => hunkText hunk ++ acc) EmptyString hunks)
  = [tools.mkPatch ("a/" ++ filename) ("b/" ++ filename) (map parsedHunk hunks)].
Proof.
  intros Hf Hok. rewrite hunks_text.
  replace ("--- a/" ++ filename ++ nl ++ "+++ b/" ++ filename ++ nl ++
           linesText (renderedLines hunks))
    with (linesText (("--- a/" ++ filename) :: ("+++ b/" ++ filename)
                       :: renderedLines hunks))
    by (cbn [linesText]; now rewrite !app_assoc_s).
  unfold tools.parseUnifiedDiff.
  rewrite SplitByte_linesText.
  2:{ constructor; [apply noLF_app; [reflexivity | assumption]|].
      constructor; [apply noLF_app; [reflexivity | assumption]|].
      apply renderedLines_noLF. eapply List.Forall_impl; [|exact Hok].
      intros h [_ H]. exact H. }
  rewrite <- !List.app_comm_cons. cbn [fold_left].
  assert (H1 : tools.parseLine ([], None, None) ("--- a/" ++ filename)
               = ([], Some (tools.mkPatch ("a/" ++ filename) EmptyString []), None))
    by reflexivity.
  rewrite H1.
  assert (H2 : tools.parseLine
                 ([], Some (tools.mkPatch ("a/" ++ filename) EmptyString []), None)
                 ("+++ b/" ++ filename)
               = ([], Some (tools.mkPatch ("a/" ++ filename) ("b/" ++ filename) []), None))
    by reflexivity.
  rewrite H2. rewrite List.fold_left_app.
  destruct (parse_hunks [] hunks
              (tools.mkPatch ("a/" ++ filename) ("b/" ++ filename) []) None)
    as (cur' & ch' & Hfold & Hclose).
  { eapply List.Forall_impl; [|exact Hok]. intros h [H _]. exact H. }
  rewrite Hfold. cbn [fold_left]. rewrite parseLine_empty.
  unfold append1. cbn [app]. now rewrite Hclose.
Qed.

Lemma parse_of_rendered_diff :
  forall (filename oldContent newContent : string),
    noLF filename ->
    Forall (fun l => strings.HasPrefix l "-- " = false) (splitLines oldContent) ->
    Forall (fun l => strings.HasPrefix l "++ " = false) (splitLines newContent) ->
    (Z.of_nat (length (splitLines newContent)) < 2 ^ 63 - 1)%Z ->
    let hunks := computeDiffHunks (splitLines oldContent) (splitLines newContent) in
    tools.parseUnifiedDiff (createUnifiedDiff filename oldContent newContent)
    = match hunks with
      | [] => []
      | _ => [tools.mkPatch ("a/" ++ filename) ("b/" ++ filename) (map parsedHunk hunks)]
      end /\
    Forall (fun h => tools.hunkSides (parsedHunk h)
                     = (hunkOld (lines h), hunkNew (lines h))) hunks.
Proof.
  intros filename oldContent newContent Hf HpO HpN Hb hunks.
  assert (Hlf : forall c, Forall noLF (splitLines c)).
  { intros c. unfold splitLines. destruct (String.eqb c EmptyString);
      [constructor | apply SplitByte_noLF]. }
  pose proof (hunk_lines_ok _ _ (Hlf oldContent) (Hlf newContent) HpO HpN Hb) as Hok.
  fold hunks in Hok. split.
  - unfold createUnifiedDiff. fold hunks.
    destruct hunks as [|h hs] eqn:E; [reflexivity|].
    cbn [length Nat.eqb]. now apply parseUnifiedDiff_rendered.
  - eapply List.Forall_impl; [|exact Hok]. intros h [[_ Hbody] _].
    unfold tools.hunkSides, parsedHunk. cbn [tools.lines].
    exact (hunkSides_lines (lines h) [] [] Hbody).
Qed.

(** X11.  Reading a diff back.  When the file name has no newline, no
    line of the old content starts with two dashes and a space, and no
    line of the new content starts with two plus signs and a space, the
    parser reads the rendered diff back as written: nothing for an empty
    diff, otherwise one patch with the file names [a/name] and
    [b/name] and, for every hunk computed, one hunk with the one-based
    new start and the same body lines.  The old and new side that the
    tool update takes from each parsed hunk are the context and removed
    lines and the context and added lines of the hunk. *)
Theorem parseUnifiedDiff_of_createUnifiedDiff :
  forall (filename oldContent newContent : string),
    noLF filename ->
    Forall (fun l => strings.HasPrefix l "-- " = false) (splitLines oldContent) ->
    Forall (fun l => strings.HasPrefix l "++ " = false) (splitLines newContent) ->
    (Z.of_nat (length (splitLines newContent)) < 2 ^ 63 - 1)%Z ->
    let hunks := computeDiffHunks (splitLines oldContent) (splitLines newContent) in
    tools.parseUnifiedDiff (createUnifiedDiff filename oldContent newContent)
    = match hunks with
      | [] => []
      | _ => [tools.mkPatch ("a/" ++ filename) ("b/" ++ filename) (map parsedHunk hunks)]
      end /\
    Forall (fun h => tools.hunkSides (parsedHunk h)
                     = (hunkOld (lines h), hunkNew (lines h))) hunks.
Proof.
  intros filename oldContent newContent Hf HpO HpN Hb hunks.
  assert (Hlf : forall c, Forall noLF (splitLines c)).
  { intros c. unfold splitLines. destruct (String.eqb c EmptyString);
      [constructor | apply SplitByte_noLF]. }
  pose proof (hunk_lines_ok _ _ (Hlf oldContent) (Hlf newContent) HpO HpN Hb) as Hok.
  fold hunks in Hok. split.
  - unfold createUnifiedDiff. fold hunks.
    destruct hunks as [|h hs] eqn:E; [reflexivity|].
    cbn [length Nat.eqb]. now apply parseUnifiedDiff_rendered.
  - eapply List.Forall_impl; [|exact Hok]. intros h [[_ Hbody] _].
    unfold tools.hunkSides, parsedHunk. cbn [tools.lines].
    exact (hunkSides_lines (lines h) [] [] Hbody).
Qed.

Lemma parseUnifiedDiff_of_createUnifiedDiff_witness :
  tools.parseUnifiedDiff
    (createUnifiedDiff "f" ("a" ++ nl ++ "- b") ("a" ++ nl ++ "+ c"))
  = match computeDiffHunks (splitLines ("a" ++ nl ++ "- b"))
                           (splitLines ("a" ++ nl ++ "+ c")) with
    | [] => []
    | _ => [tools.mkPatch ("a/" ++ "f") ("b/" ++ "f")
              (map parsedHunk
                 (computeDiffHunks (splitLines ("a" ++ nl ++ "- b"))
                                   (splitLines ("a" ++ nl ++ "+ c"))))]
    end.
Proof.
  apply (parseUnifiedDiff_of_createUnifiedDiff "f" ("a" ++ nl ++ "- b") ("a" ++ nl ++ "+ c")).
  - reflexivity.
  - repeat constructor.
  - repeat constructor.
  - reflexivity.
Defined.

End DiffRoundTrip.

(** ** Tool results: what the client is shown *)

Section ToolResultFacts.

Import mcp_server.

Variable json_Marshal : gmap string any -> option string.

Lemma replaceAllFrom_skip (old new : string) :
  forall s k, String.length s <= k -> tools.replaceAllFrom k s old new = EmptyString.
Proof.
  induction s as [|c s IH]; intros k H; [reflexivity|].
  destruct k as [|k]; [simpl in H; lia|].
  cbn [tools.replaceAllFrom]. apply IH. simpl in H. lia.
Qed.

Lemma ReplaceAll_suffix (old new : string) :
  old <> EmptyString ->
  forall body,
    strings.Index (body ++ old) old = Some (String.length body) ->
    tools.strings_ReplaceAll (body ++ old) old new = body ++ new.
Proof.
  intros Hne. unfold tools.strings_ReplaceAll.
  induction body as [|x body IH]; intros H.
  - rewrite !app_nil_l. destruct old as [|c r]; [congruence|].
    cbn [tools.replaceAllFrom]. rewrite HasPrefix_refl.
    rewrite replaceAllFrom_skip by (simpl; lia). apply app_empty_r.
  - rewrite !app_cons in *. cbn [tools.replaceAllFrom].
    cbn [strings.Index] in H.
    destruct (strings.HasPrefix (String x (body ++ old)) old) eqn:Hp;
      [simpl in H; discriminate|].
    f_equal. apply IH.
    destruct (strings.Index (body ++ old) old) as [i|]; [|discriminate].
    simpl in H. congruence.
Qed.

Lemma SystemReminder_stripped (body : string) :
  strings.Index (body ++ tools.SystemReminder) tools.SystemReminder
    = Some (String.length body) ->
  tools.shownRead (body ++ tools.SystemReminder)
  = tools.UpdateToolContent (tools.TextBlock (markdownEscape body)).
Proof.
  intros H. unfold tools.shownRead.
  rewrite ReplaceAll_suffix by (discriminate || assumption).
  now rewrite app_empty_r.
Qed.

(** X12.  The reminder that is appended to a file read is not shown.
    For the result of a Read tool call (either name) that is not an
    error and whose content is the text [body] followed by the system
    reminder, given as a string or as a single text block, the update
    shows one text block: [body] in a code fence, without the reminder;
    no title and no location.  The reminder must not occur earlier in
    the text. *)
Theorem toolUpdateFromToolResult_read_strips_reminder :
  forall (toolResult : gmap string any) (entry : tools.ToolUseEntry)
         (body : string) (m : gmap string any),
    tools.inputBool toolResult "is_error" = false ->
    entry.(tools.Name) = "Read" \/ entry.(tools.Name) = ACPToolNamePrefix ++ "Read" ->
    strings.Index (body ++ tools.SystemReminder) tools.SystemReminder
      = Some (String.length body) ->
    toolResult !! "content" = Some (Str (body ++ tools.SystemReminder)) \/
    (toolResult !! "content" = Some (Slice [Map m]) /\
     textBlockMap m (body ++ tools.SystemReminder)) ->
    tools.toolUpdateFromToolResult json_Marshal toolResult (Some entry)
    = tools.mkToolUpdate None
        [tools.UpdateToolContent (tools.TextBlock (markdownEscape body))] [].
Proof.
  intros toolResult entry body m Herr Hname Hidx Hcontent.
  unfold tools.toolUpdateFromToolResult. rewrite Herr. cbn [andb].
  assert (Hn : String.eqb (tools.Name entry) "Read"
               || String.eqb (tools.Name entry) (ACPToolNamePrefix ++ "Read") = true).
  { destruct Hname as [-> | ->]; reflexivity. }
  rewrite Hn.
  destruct Hcontent as [-> | [-> [Hty Htx]]].
  - assert (Hne : String.eqb (body ++ tools.SystemReminder) EmptyString = false).
    { apply String.eqb_neq. intros E. apply (f_equal String.length) in E.
      rewrite length_app in E. simpl in E. lia. }
    rewrite Hne. cbn [negb]. now rewrite SystemReminder_stripped.
  - cbn [flat_map]. rewrite Hty. unfold tools.inputStr. rewrite Htx.
    cbn [app length Nat.ltb Nat.leb]. now rewrite SystemReminder_stripped.
Qed.

Lemma hunk_lines_nonempty (oldLines newLines : list string) :
  Forall (fun h => lines h <> []) (computeDiffHunks oldLines newLines).
Proof.
  destruct (computeDiffHunks_Parts oldLines newLines) as (segs & -> & HP).
  apply List.Forall_map. apply List.Forall_forall. intros s Hs.
  destruct (Parts_In _ _ HP s Hs) as [Hne _].
  destruct s as [|o s]; [congruence | discriminate].
Qed.

Lemma body_sides_nonempty (ls : list string) :
  ls <> [] -> Forall (fun l => bodyOK l = true) ls ->
  ((0 <? length (hunkOld ls))%nat || (0 <? length (hunkNew ls))%nat) = true.
Proof.
  destruct ls as [|l ls]; [congruence|]. intros _ H.
  inversion H as [|? ? Hl _]; subst.
  destruct l as [|c l]; [discriminate Hl|].
  rewrite hunkOld_cons, hunkNew_cons.
  unfold bodyOK in Hl. apply andb_prop in Hl as [_ Hl].
  cbn [strings.HasPrefix] in Hl. rewrite !Bool.andb_true_r in Hl.
  destruct (Ascii.eqb c " "); [reflexivity|].
  destruct (Ascii.eqb c "-"); [reflexivity|].
  destruct (Ascii.eqb c "+"); [|discriminate Hl].
  cbn [orb]. apply Bool.orb_true_r.
Qed.

Lemma editHunkUpdate_parsed (p : tools.toolsDiffPatch) (path : string) (h : diffHunk) :
  tools.newFileName p = path -> path <> EmptyString ->
  tools.hunkSides (parsedHunk h) = (hunkOld (lines h), hunkNew (lines h)) ->
  lines h <> [] -> Forall (fun l => bodyOK l = true) (lines h) ->
  tools.editHunkUpdate p (parsedHunk h) = [(locationOf path h, diffBlockOf path h)].
Proof.
  intros Hp Hne Hs Hl Hb. unfold tools.editHunkUpdate. rewrite Hs.
  rewrite body_sides_nonempty by assumption. rewrite Hp.
  apply String.eqb_neq in Hne. rewrite Hne.
  unfold locationOf, diffBlockOf, parsedHunk. cbn [tools.newStart].
  now destruct (String.eqb (strings.Join (hunkOld (lines h)) nl) EmptyString).
Qed.

Lemma edit_pairs (p : tools.toolsDiffPatch) (path : string) (hunks : list diffHunk) :
  tools.newFileName p = path -> path <> EmptyString ->
  Forall (fun h => tools.hunkSides (parsedHunk h) = (hunkOld (lines h), hunkNew (lines h)))
         hunks ->
  Forall (fun h => lines h <> []) hunks ->
  Forall (fun h => Forall (fun l => bodyOK l = true) (lines h)) hunks ->
  flat_map (tools.editHunkUpdate p) (map parsedHunk hunks)
  = map (fun h => (locationOf path h, diffBlockOf path h)) hunks.
Proof.
  intros Hp Hne. induction hunks as [|h hunks IH]; intros Hs Hl Hb; [reflexivity|].
  apply List.Forall_cons_iff in Hs as [Hs1 Hs2].
  apply List.Forall_cons_iff in Hl as [Hl1 Hl2].
  apply List.Forall_cons_iff in Hb as [Hb1 Hb2].
  cbn [map flat_map]. rewrite (editHunkUpdate_parsed p path h) by assumption.
  cbn [app]. now rewrite IH.
Qed.

(** X13.  What an edit shows.  The Edit tool returns the diff of the
    file, and the update of the tool call is read back from it.  For a
    result that is not an error and whose first content block holds the
    diff from [oldContent] to [newContent] (no old line starting with
    two dashes and a space, no new line with two plus signs and a
    space), the update has, for every hunk of the diff and in order, one
    diff block with the new and the old side of the hunk joined by
    newlines, and one location at the one-based new start.  The path of
    both is the file name with [b/] in front; an old side whose joined
    text is empty is shown as no old text. *)
Theorem toolUpdateFromToolResult_edit_diff :
  forall (toolResult first : gmap string any) (rest : list any)
         (entry : tools.ToolUseEntry) (filename oldContent newContent : string),
    tools.inputBool toolResult "is_error" = false ->
    entry.(tools.Name) = ACPToolNamePrefix ++ "Edit" ->
    toolResult !! "content" = Some (Slice (Map first :: rest)) ->
    first !! "text" = Some (Str (createUnifiedDiff filename oldContent newContent)) ->
    noLF filename ->
    Forall (fun l => strings.HasPrefix l "-- " = false) (splitLines oldContent) ->
    Forall (fun l => strings.HasPrefix l "++ " = false) (splitLines newContent) ->
    (Z.of_nat (length (splitLines newContent)) < 2 ^ 63 - 1)%Z ->
    let hunks := computeDiffHunks (splitLines oldContent) (splitLines newContent) in
    tools.toolUpdateFromToolResult json_Marshal toolResult (Some entry)
    = tools.mkToolUpdate None
        (map (diffBlockOf ("b/" ++ filename)) hunks)
        (map (locationOf ("b/" ++ filename)) hunks).
Proof.
  intros toolResult first rest entry filename oldContent newContent
         Herr Hname Hcontent Htext Hf HpO HpN Hb hunks.
  assert (Hlf : forall c, Forall noLF (splitLines c)).
  { intros c. unfold splitLines. destruct (String.eqb c EmptyString);
      [constructor | apply SplitByte_noLF]. }
  pose proof (hunk_lines_ok _ _ (Hlf oldContent) (Hlf newContent) HpO HpN Hb) as Hok.
  pose proof (hunk_lines_nonempty (splitLines oldContent) (splitLines newContent)) as Hne.
  destruct (parse_of_rendered_diff filename oldContent newContent Hf HpO HpN Hb)
    as [Hparse Hsides].
  fold hunks in Hok, Hne, Hparse, Hsides.
  unfold tools.toolUpdateFromToolResult. rewrite Herr, Hcontent, Hname. cbn [andb].
  change (String.eqb (ACPToolNamePrefix ++ "Edit") "Read"
          || String.eqb (ACPToolNamePrefix ++ "Edit") (ACPToolNamePrefix ++ "Read"))
    with false.
  change (String.eqb (ACPToolNamePrefix ++ "Edit") (ACPToolNamePrefix ++ "Edit"))
    with true.
  cbv iota. rewrite Htext, Hparse.
  destruct hunks as [|h hs] eqn:E; [reflexivity|]. rewrite <- E in *.
  cbn [flat_map tools.hunks]. rewrite List.app_nil_r.
  rewrite (edit_pairs _ ("b/" ++ filename) hunks).
  - now rewrite !List.map_map.
  - reflexivity.
  - discriminate.
  - exact Hsides.
  - exact Hne.
  - eapply List.Forall_impl; [|exact Hok]. intros x [[_ H] _]. exact H.
Qed.

End ToolResultFacts.

Section ToolResultExamples.

Import mcp_server.

Lemma read_strips_reminder_witness :
  tools.toolUpdateFromToolResult (fun _ => None)
    {[ "content" := Str ("hello" ++ tools.SystemReminder) ]}
    (Some (tools.mkToolUseEntry "tool_use" "t1" "Read" None))
  = tools.mkToolUpdate None
      [tools.UpdateToolContent (tools.TextBlock (markdownEscape "hello"))] [].
Proof.
  apply (toolUpdateFromToolResult_read_strips_reminder (fun _ => None)
           {[ "content" := Str ("hello" ++ tools.SystemReminder) ]}
           (tools.mkToolUseEntry "tool_use" "t1" "Read" None) "hello" ∅).
  - vm_compute. reflexivity.
  - left. reflexivity.
  - vm_compute. reflexivity.
  - left. vm_compute. reflexivity.
Defined.

Lemma edit_diff_witness :
  tools.toolUpdateFromToolResult (fun _ => None)
    {[ "content" :=
         Slice [Map {[ "text" := Str (createUnifiedDiff "/x/f" ("a" ++ nl ++ "b")
                                                               ("a" ++ nl ++ "c")) ]}] ]}
    (Some (tools.mkToolUseEntry "tool_use" "t1" (ACPToolNamePrefix ++ "Edit") None))
  = tools.mkToolUpdate None
      (map (diffBlockOf ("b/" ++ "/x/f"))
           (computeDiffHunks (splitLines ("a" ++ nl ++ "b")) (splitLines ("a" ++ nl ++ "c"))))
      (map (locationOf ("b/" ++ "/x/f"))
           (computeDiffHunks (splitLines ("a" ++ nl ++ "b")) (splitLines ("a" ++ nl ++ "c")))).
Proof.
  apply (toolUpdateFromToolResult_edit_diff (fun _ => None) _
           {[ "text" := Str (createUnifiedDiff "/x/f" ("a" ++ nl ++ "b")
                                                        ("a" ++ nl ++ "c")) ]} []).
  - vm_compute. reflexivity.
  - reflexivity.
  - vm_compute. reflexivity.
  - vm_compute. reflexivity.
  - reflexivity.
  - repeat constructor.
  - repeat constructor.
  - reflexivity.
Defined.

End ToolResultExamples.

(** ** Session notifications: tool calls are announced before they are updated *)

Section NotificationFacts.

Variable json_MarshalIndent : gmap string any -> option string.
Variable json_Marshal : gmap string any -> option string.

Lemma messageUpdate_notToolCall (sid role : string) (b : tools.ContentBlock) :
  notToolCall (tools.mkNotification sid (tools.messageUpdate role b)).
Proof.
  unfold notToolCall, tools.messageUpdate. cbn [tools.Update].
  now destruct (String.eqb role "assistant").
Qed.

Lemma notToolCall_notUpdate (n : tools.SessionNotification) (id name : string) :
  notToolCall n -> ~ isUpdate id name n.
Proof.
  unfold notToolCall. intros Hn (status & raw & title & content & locs & parent & H).
  now rewrite H in Hn.
Qed.

Lemma notToolCall_notStart (n : tools.SessionNotification) (id name : string) :
  notToolCall n -> ~ isStart id name n.
Proof.
  unfold notToolCall. intros Hn (title & kind & content & locs & raw & parent & H).
  now rewrite H in Hn.
Qed.

(** The effect of one block: at most one notification is added, for
    this session; the cache is untouched or gains the tool use of the
    block; and an update is only added for a cached tool use other than
    TodoWrite. *)
Lemma notifyBlock_spec (role sid : string) (parent : option string)
    (out : list tools.SessionNotification) (cache : gmap string tools.ToolUseEntry)
    (block : any) :
  exists added cache',
    tools.notifyBlock json_MarshalIndent json_Marshal role sid parent (out, cache) block
    = ((out ++ added)%list, cache') /\
    Forall (fun n => n.(tools.SessionId) = sid) added /\
    (((added = [] \/ exists n, added = [n] /\ notToolCall n) /\ cache' = cache) \/
     (exists id e, cache' = <[id := e]> cache /\ e.(tools.Name) = "TodoWrite" /\
                   (added = [] \/ exists n, added = [n] /\ notToolCall n)) \/
     (exists id e n, cache' = <[id := e]> cache /\ e.(tools.Name) <> "TodoWrite" /\
                     added = [n] /\ isStart id e.(tools.Name) n) \/
     (exists id e n, cache' = cache /\ cache !! id = Some e /\
                     e.(tools.Name) <> "TodoWrite" /\
                     added = [n] /\ isUpdate id e.(tools.Name) n)).
Proof.
  assert (Hnone : exists added cache',
             (out, cache) = ((out ++ added)%list, cache') /\
             Forall (fun n => n.(tools.SessionId) = sid) added /\
             (((added = [] \/ exists n, added = [n] /\ notToolCall n) /\ cache' = cache) \/
              (exists id e, cache' = <[id := e]> cache /\ e.(tools.Name) = "TodoWrite" /\
                            (added = [] \/ exists n, added = [n] /\ notToolCall n)) \/
              (exists id e n, cache' = <[id := e]> cache /\ e.(tools.Name) <> "TodoWrite" /\
                              added = [n] /\ isStart id e.(tools.Name) n) \/
              (exists id e n, cache' = cache /\ cache !! id = Some e /\
                              e.(tools.Name) <> "TodoWrite" /\
                              added = [n] /\ isUpdate id e.(tools.Name) n))).
  { exists [], cache. rewrite List.app_nil_r. split; [reflexivity|].
    split; [constructor|]. left. split; [now left | reflexivity]. }
  assert (Hone : forall n, n.(tools.SessionId) = sid -> notToolCall n ->
             exists added cache',
             (append1 out n, cache) = ((out ++ added)%list, cache') /\
             Forall (fun n => n.(tools.SessionId) = sid) added /\
             (((added = [] \/ exists n, added = [n] /\ notToolCall n) /\ cache' = cache) \/
              (exists id e, cache' = <[id := e]> cache /\ e.(tools.Name) = "TodoWrite" /\
                            (added = [] \/ exists n, added = [n] /\ notToolCall n)) \/
              (exists id e n, cache' = <[id := e]> cache /\ e.(tools.Name) <> "TodoWrite" /\
                              added = [n] /\ isStart id e.(tools.Name) n) \/
              (exists id e n, cache' = cache /\ cache !! id = Some e /\
                              e.(tools.Name) <> "TodoWrite" /\
                              added = [n] /\ isUpdate id e.(tools.Name) n))).
  { intros n Hs Hn. exists [n], cache. split; [reflexivity|].
    split; [now constructor|]. left. split; [right; now exists n | reflexivity]. }
  unfold tools.notifyBlock.
  destruct block as [| | | | | | |chunk]; try exact Hnone.
  set (chunkType := tools.inputStr chunk "type").
  destruct (String.eqb chunkType "text" || String.eqb chunkType "text_delta").
  { apply Hone; [reflexivity | apply messageUpdate_notToolCall]. }
  destruct (String.eqb chunkType "image").
  { destruct (tools.inputMap chunk "source") as [source|]; [|exact Hnone].
    destruct (String.eqb (tools.inputStr source "type") "base64"); [|exact Hnone].
    apply Hone; [reflexivity | apply messageUpdate_notToolCall]. }
  destruct (String.eqb chunkType "thinking" || String.eqb chunkType "thinking_delta").
  { apply Hone; [reflexivity | exact I]. }
  destruct (tools.slices_mem chunkType tools.toolUseTypes).
  { set (id := tools.inputStr chunk "id"). set (name := tools.inputStr chunk "name").
    set (e := tools.mkToolUseEntry chunkType id name (tools.inputMap chunk "input")).
    destruct (String.eqb_spec name "TodoWrite") as [Hn|Hn].
    - assert (Hplain : exists added cache',
                 (out, <[id := e]> cache) = ((out ++ added)%list, cache') /\
                 Forall (fun n => n.(tools.SessionId) = sid) added /\
                 (((added = [] \/ exists n, added = [n] /\ notToolCall n) /\ cache' = cache) \/
                  (exists id e, cache' = <[id := e]> cache /\ e.(tools.Name) = "TodoWrite" /\
                                (added = [] \/ exists n, added = [n] /\ notToolCall n)) \/
                  (exists id e n, cache' = <[id := e]> cache /\
                                  e.(tools.Name) <> "TodoWrite" /\
                                  added = [n] /\ isStart id e.(tools.Name) n) \/
                  (exists id e n, cache' = cache /\ cache !! id = Some e /\
                                  e.(tools.Name) <> "TodoWrite" /\
                                  added = [n] /\ isUpdate id e.(tools.Name) n))).
      { exists [], (<[id := e]> cache). rewrite List.app_nil_r. split; [reflexivity|].
        split; [constructor|]. right; left. exists id, e.
        split; [reflexivity|]. split; [exact Hn | now left]. }
      destruct (tools.inputMap chunk "input") as [input|] eqn:Hi; [|exact Hplain].
      destruct (input !! "todos") as [[| | | | | |todosRaw|]|]; try exact Hplain.
      destruct (0 <? length (tools.todosOf todosRaw))%nat; [|exact Hplain].
      eexists [_], (<[id := e]> cache). split; [reflexivity|].
      split; [now constructor|]. right; left. exists id, e.
      split; [reflexivity|]. split; [exact Hn|]. right. eexists. split; [reflexivity|].
      exact I.
    - eexists [_], (<[id := e]> cache). split; [reflexivity|].
      split; [now constructor|]. right; right; left. exists id, e. eexists.
      split; [reflexivity|]. split; [exact Hn|]. split; [reflexivity|].
      cbn [tools.Name e]. unfold isStart. cbn [tools.Update]. repeat eexists. }
  destruct (tools.slices_mem chunkType tools.toolResultTypes); [|exact Hnone].
  set (id := tools.inputStr chunk "tool_use_id").
  destruct (cache !! id) as [e|] eqn:Hc; [|exact Hnone].
  destruct (String.eqb_spec (tools.Name e) "TodoWrite") as [Hn|Hn]; [exact Hnone|].
  eexists [_], cache. split; [reflexivity|].
  split; [now constructor|]. right; right; right. exists id, e. eexists.
  split; [reflexivity|]. split; [exact Hc|]. split; [exact Hn|]. split; [reflexivity|].
  unfold isUpdate. cbn [tools.Update]. repeat eexists.
Qed.

Lemma split_snoc {A : Type} (l before after : list A) (n n0 : A) :
  (l ++ [n])%list = (before ++ n0 :: after)%list ->
  (after = [] /\ before = l /\ n0 = n) \/
  (exists after', after = (after' ++ [n])%list /\ l = (before ++ n0 :: after')%list).
Proof.
  destruct after as [|x after] using List.rev_ind.
  - intros H. apply List.app_inj_tail in H as [-> ->]. now left.
  - intros H. right. exists after.
    rewrite List.app_comm_cons, List.app_assoc in H.
    apply List.app_inj_tail in H as [-> ->]. split; reflexivity.
Qed.

Lemma announced_step (pre out added : list tools.SessionNotification)
    (cache cache' : gmap string tools.ToolUseEntry) :
  announced (pre ++ out) cache ->
  (((added = [] \/ exists n, added = [n] /\ notToolCall n) /\ cache' = cache) \/
   (exists id e, cache' = <[id := e]> cache /\ e.(tools.Name) = "TodoWrite" /\
                 (added = [] \/ exists n, added = [n] /\ notToolCall n)) \/
   (exists id e n, cache' = <[id := e]> cache /\ e.(tools.Name) <> "TodoWrite" /\
                   added = [n] /\ isStart id e.(tools.Name) n) \/
   (exists id e n, cache' = cache /\ cache !! id = Some e /\
                   e.(tools.Name) <> "TodoWrite" /\
                   added = [n] /\ isUpdate id e.(tools.Name) n)) ->
  announced (pre ++ out ++ added) cache'.
Proof.
  intros [Hcache Hout] Hcase. rewrite List.app_assoc. set (L := (pre ++ out)%list) in *.
  assert (Hmono : forall id name, (exists s, In s L /\ isStart id name s) ->
                                  exists s, In s (L ++ added)%list /\ isStart id name s).
  { intros id name (s & Hin & Hs). exists s. split; [|assumption].
    apply List.in_or_app. now left. }
  assert (Hold : forall n, (forall i nm, ~ isUpdate i nm n) -> forall before n0 after id name,
               (L ++ [n])%list = (before ++ n0 :: after)%list -> isUpdate id name n0 ->
               name <> "TodoWrite" /\ exists s, In s before /\ isStart id name s).
  { intros n Hn before n0 after id name Hsplit Hu.
    apply split_snoc in Hsplit as [(_ & _ & ->)|(after' & _ & HL)].
    - destruct (Hn _ _ Hu).
    - exact (Hout _ _ _ _ _ HL Hu). }
  assert (Hsame : forall a, (a = [] \/ exists n, a = [n] /\ notToolCall n) ->
               forall before n0 after id name,
               (L ++ a)%list = (before ++ n0 :: after)%list -> isUpdate id name n0 ->
               name <> "TodoWrite" /\ exists s, In s before /\ isStart id name s).
  { intros a [->|(n & -> & Hn)] before n0 after id name Hsplit Hu.
    - rewrite List.app_nil_r in Hsplit. exact (Hout _ _ _ _ _ Hsplit Hu).
    - refine (Hold n _ _ _ _ _ _ Hsplit Hu).
      intros i nm. now apply notToolCall_notUpdate. }
  destruct Hcase as [[Ha ->]|[(id & e & -> & He & Ha)|[(id & e & n & -> & He & -> & Hs)
                    |(id & e & n & -> & Hc & He & -> & Hu)]]].
  - split; [|exact (Hsame added Ha)].
    intros i x Hx Hn. apply Hmono. now apply Hcache.
  - split; [|exact (Hsame added Ha)].
    intros i x Hx Hn. apply Hmono.
    destruct (decide (i = id)) as [->|Hne].
    + rewrite lookup_insert_eq in Hx. injection Hx as <-. congruence.
    + rewrite lookup_insert_ne in Hx by congruence. now apply Hcache.
  - split.
    + intros i x Hx Hn. destruct (decide (i = id)) as [->|Hne].
      * rewrite lookup_insert_eq in Hx. injection Hx as <-.
        exists n. split; [apply List.in_or_app; right; now left | assumption].
      * rewrite lookup_insert_ne in Hx by congruence. apply Hmono. now apply Hcache.
    + apply (Hold n).
      intros i nm (status & raw & title & content & locs & p & H).
      destruct Hs as (? & ? & ? & ? & ? & ? & Hs). congruence.
  - split.
    + intros i x Hx Hn. apply Hmono. now apply Hcache.
    + intros before n0 after i nm Hsplit Hu0.
      apply split_snoc in Hsplit as [(_ & -> & ->)|(after' & _ & HL)].
      * destruct Hu as (? & ? & ? & ? & ? & ? & Hu).
        destruct Hu0 as (? & ? & ? & ? & ? & ? & Hu0).
        rewrite Hu in Hu0. injection Hu0 as <- _ _ _ _ _ <- _.
        split; [assumption | now apply Hcache].
      * exact (Hout _ _ _ _ _ HL Hu0).
Qed.

Lemma notifyBlocks_announced (role sid : string) (parent : option string)
    (pre : list tools.SessionNotification) :
  forall blocks out cache,
    announced (pre ++ out) cache ->
    exists out' cache',
      fold_left (tools.notifyBlock json_MarshalIndent json_Marshal role sid parent)
                blocks (out, cache) = (out', cache') /\
      announced (pre ++ out') cache'.
Proof.
  induction blocks as [|block blocks IH]; intros out cache H.
  - exists out, cache. now split.
  - cbn [fold_left].
    destruct (notifyBlock_spec role sid parent out cache block)
      as (added & cache1 & -> & _ & Hcase).
    apply IH. eapply announced_step; eassumption.
Qed.

Lemma toAcpNotifications_announced (content : any) (role sid : string)
    (parent : option string) (pre : list tools.SessionNotification)
    (cache : gmap string tools.ToolUseEntry) :
  announced pre cache ->
  exists o c,
    tools.toAcpNotifications json_MarshalIndent json_Marshal content role sid cache parent
    = (o, c) /\
    announced (pre ++ o) c.
Proof.
  intros H. unfold tools.toAcpNotifications.
  assert (H0 : announced (pre ++ []) cache) by now rewrite List.app_nil_r.
  destruct content as [|text| | | | |blocks|];
    try (exists [], cache; now split).
  - eexists [_], cache. split; [reflexivity|].
    apply (announced_step pre [] _ cache cache H0).
    left. split; [|reflexivity]. right. eexists. split; [reflexivity|].
    apply messageUpdate_notToolCall.
  - apply notifyBlocks_announced. exact H0.
Qed.

Lemma streamEvent_announced (msg : gmap string any) (sid : string)
    (parent : option string) (pre : list tools.SessionNotification)
    (cache : gmap string tools.ToolUseEntry) :
  announced pre cache ->
  exists o c,
    tools.streamEventToAcpNotifications json_MarshalIndent json_Marshal msg sid cache parent
    = (o, c) /\
    announced (pre ++ o) c.
Proof.
  intros H. unfold tools.streamEventToAcpNotifications.
  assert (H0 : exists o c, (@nil tools.SessionNotification, cache) = (o, c) /\
                           announced (pre ++ o) c).
  { exists [], cache. split; [reflexivity|]. now rewrite List.app_nil_r. }
  destruct (tools.inputMap msg "event") as [event|]; [|exact H0].
  destruct (String.eqb (tools.inputStr event "type") "content_block_start").
  - destruct (tools.inputMap event "content_block") as [contentBlock|]; [|exact H0].
    now apply toAcpNotifications_announced.
  - destruct (String.eqb (tools.inputStr event "type") "content_block_delta");
      [|exact H0].
    destruct (tools.inputMap event "delta") as [delta|]; [|exact H0].
    now apply toAcpNotifications_announced.
Qed.

Lemma agentRun_announced (calls : list conversion) :
  announced (fst (agentRun json_MarshalIndent json_Marshal calls))
            (snd (agentRun json_MarshalIndent json_Marshal calls)).
Proof.
  unfold agentRun.
  assert (H0 : announced (fst (@nil tools.SessionNotification, (∅ : gmap string tools.ToolUseEntry)))
                         (snd (@nil tools.SessionNotification, (∅ : gmap string tools.ToolUseEntry)))).
  { cbn [fst snd]. split.
    - intros id e H. rewrite lookup_empty in H. discriminate.
    - intros before n after id name H. destruct before; discriminate. }
  revert H0. generalize (@nil tools.SessionNotification, (∅ : gmap string tools.ToolUseEntry)).
  induction calls as [|[sid msg parent|sid content role parent] calls IH];
    intros st H; [exact H| |]; cbn [fold_left]; apply IH.
  - destruct (streamEvent_announced msg sid parent (fst st) (snd st) H)
      as (o & c & -> & Ha).
    exact Ha.
  - destruct (toAcpNotifications_announced content role sid parent (fst st) (snd st) H)
      as (o & c & -> & Ha).
    exact Ha.
Qed.

(** X14.  A tool call is announced before it is updated.  Over the
    whole run of an agent (the stream events and messages of all its
    sessions converted one after the other with the one cache of the
    agent, empty at first), every tool-call update that is sent comes
    after a tool-call start with the same id and the same tool name,
    and is never for the tool TodoWrite.  So a result whose tool use
    was not seen, or was a TodoWrite, produces no update.  The start
    need not have been sent to the session of the update: the cache is
    shared by the sessions. *)
Theorem toAcpNotifications_update_follows_start :
  forall (calls : list conversion)
         (before after : list tools.SessionNotification) (n : tools.SessionNotification)
         (id name : string),
    fst (agentRun json_MarshalIndent json_Marshal calls)
      = (before ++ n :: after)%list ->
    isUpdate id name n ->
    name <> "TodoWrite" /\ exists s, In s before /\ isStart id name s.
Proof.
  intros calls before after n id name Hout Hu.
  exact (proj2 (agentRun_announced calls) _ _ _ _ _ Hout Hu).
Qed.

Lemma notifyBlocks_facts (role sid : string) (parent : option string) :
  forall blocks out cache,
    exists added cache',
      fold_left (tools.notifyBlock json_MarshalIndent json_Marshal role sid parent)
                blocks (out, cache) = ((out ++ added)%list, cache') /\
      Forall (fun n => n.(tools.SessionId) = sid) added /\
      length added <= length blocks /\
      (forall k, is_Some (cache !! k) -> is_Some (cache' !! k)) /\
      (forall n id name, In n added -> isStart id name n ->
                         name <> "TodoWrite" /\ is_Some (cache' !! id)).
Proof.
  induction blocks as [|block blocks IH]; intros out cache.
  - exists [], cache. rewrite List.app_nil_r. cbn [fold_left length].
    split; [reflexivity|]. split; [constructor|]. split; [lia|]. split; [auto|].
    intros n id name [].
  - cbn [fold_left].
    destruct (notifyBlock_spec role sid parent out cache block)
      as (a1 & c1 & -> & Hs1 & Hcase).
    destruct (IH (out ++ a1)%list c1) as (a2 & c2 & -> & Hs2 & Hlen & Hmono & Hstart).
    exists (a1 ++ a2)%list, c2. rewrite List.app_assoc.
    split; [reflexivity|]. split; [apply List.Forall_app; now split|].
    assert (Hfirst : length a1 <= 1 /\
                     (forall k, is_Some (cache !! k) -> is_Some (c1 !! k)) /\
                     (forall n id name, In n a1 -> isStart id name n ->
                                        name <> "TodoWrite" /\ is_Some (c1 !! id))).
    { assert (Hplain : forall a, (a = [] \/ exists n, a = [n] /\ notToolCall n) ->
                length a <= 1 /\
                forall n id name, In n a -> isStart id name n -> False).
      { intros a [->|(n & -> & Hn)]; (split; [simpl; lia|]).
        - intros n id name [].
        - intros n0 id name [<-|[]] Hst. exact (notToolCall_notStart _ _ _ Hn Hst). }
      assert (Hins : forall id e k, is_Some (cache !! k) -> is_Some (<[id := e]> cache !! k)).
      { intros id e k Hk. destruct (decide (k = id)) as [->|Hne].
        - rewrite lookup_insert_eq. eauto.
        - now rewrite lookup_insert_ne by congruence. }
      destruct Hcase as [[Ha ->]|[(id & e & -> & He & Ha)|[(id & e & n & -> & He & -> & Hst)
                        |(id & e & n & -> & Hc & He & -> & Hu)]]].
      - destruct (Hplain a1 Ha) as [Hl Hno]. split; [assumption|].
        split; [auto|]. intros n id name Hin Hst. destruct (Hno _ _ _ Hin Hst).
      - destruct (Hplain a1 Ha) as [Hl Hno]. split; [assumption|].
        split; [apply Hins|]. intros n id' name Hin Hst. destruct (Hno _ _ _ Hin Hst).
      - split; [simpl; lia|]. split; [apply Hins|].
        intros n0 id' name [<-|[]] Hst0.
        destruct Hst as (? & ? & ? & ? & ? & ? & Hst).
        destruct Hst0 as (? & ? & ? & ? & ? & ? & Hst0).
        rewrite Hst in Hst0. injection Hst0 as <- _ _ _ _ _ <- _.
        split; [assumption|]. rewrite lookup_insert_eq. eauto.
      - split; [simpl; lia|]. split; [auto|].
        intros n0 id' name [<-|[]] Hst0.
        destruct Hu as (? & ? & ? & ? & ? & ? & Hu).
        destruct Hst0 as (? & ? & ? & ? & ? & ? & Hst0).
        rewrite Hu in Hst0. discriminate. }
    destruct Hfirst as (Hl1 & Hm1 & Hst1).
    split; [rewrite List.length_app; cbn [length]; lia|].
    split; [auto|].
    intros n id name Hin Hst. apply List.in_app_or in Hin as [Hin|Hin].
    + destruct (Hst1 _ _ _ Hin Hst) as [Hne Hsome]. split; [assumption | auto].
    + eauto.
Qed.

(** X15.  What one conversion does.  Every notification carries the
    session id given; there is at most one notification per block (one
    for a plain text); the tool-use cache never loses an entry, so it
    grows with every tool use of the session; and a tool-call start is
    never sent for the tool TodoWrite, whose input becomes a plan, and
    is always for a tool use that is in the cache afterwards. *)
Theorem toAcpNotifications_invariants :
  forall (content : any) (role sessionID : string)
         (toolUseCache : gmap string tools.ToolUseEntry) (parent : option string),
    let result := tools.toAcpNotifications json_MarshalIndent json_Marshal
                    content role sessionID toolUseCache parent in
    Forall (fun n => n.(tools.SessionId) = sessionID) (fst result) /\
    length (fst result) <= match content with
                           | Slice blocks => length blocks
                           | Str _ => 1
                           | _ => 0
                           end /\
    (forall k, is_Some (toolUseCache !! k) -> is_Some (snd result !! k)) /\
    (forall n id name, In n (fst result) -> isStart id name n ->
                       name <> "TodoWrite" /\ is_Some (snd result !! id)).
Proof.
  intros content role sessionID toolUseCache parent result. subst result.
  unfold tools.toAcpNotifications.
  destruct content as [|text| | | | |blocks|]; cbn [fst snd length];
    try (split; [constructor|]; split; [lia|]; split; [auto|]; intros n id name []).
  - split; [now repeat constructor|]. split; [lia|]. split; [auto|].
    intros n id name [<-|[]] Hst.
    destruct (notToolCall_notStart _ _ _ (messageUpdate_notToolCall sessionID role _) Hst).
  - destruct (notifyBlocks_facts role sessionID parent blocks [] toolUseCache)
      as (added & cache' & -> & H).
    cbn [fst snd app]. exact H.
Qed.

End NotificationFacts.

Section NotificationExamples.

Lemma update_follows_start_witness :
  "Bash" <> "TodoWrite" /\
  exists s,
    In s (firstn 1 (fst (agentRun (fun _ => None) (fun _ => None) bashSessions))) /\
    isStart "t1" "Bash" s.
Proof.
  apply (toAcpNotifications_update_follows_start (fun _ => None) (fun _ => None)
           bashSessions
           (firstn 1 (fst (agentRun (fun _ => None) (fun _ => None) bashSessions)))
           (skipn 2 (fst (agentRun (fun _ => None) (fun _ => None) bashSessions)))
           (nth 1 (fst (agentRun (fun _ => None) (fun _ => None) bashSessions))
                (tools.mkNotification EmptyString (tools.PlanUpdate [])))
           "t1" "Bash").
  - vm_compute. reflexivity.
  - unfold isUpdate. vm_compute. repeat eexists.
Defined.

(** In the run of the two sessions the start goes to session A and the
    update to session B, which never got a start. *)
Example update_in_another_session :
  map tools.SessionId (fst (agentRun (fun _ => None) (fun _ => None) bashSessions))
  = ["A"; "B"].
Proof. vm_compute. reflexivity. Qed.

End NotificationExamples.

(** ** The Read and Edit handlers *)

Section HandlerFacts.

Import mcp_handlers.

Variable P : settings.Platform.
Variable os_Getenv : string -> string.
Variable os_ReadFile : string -> readResult.
Variable conn_ReadTextFile : string -> readResult.
Variable os_WriteFile : string -> string -> option string.
Variable conn_WriteTextFile : string -> string -> option string.
Variable strconv_Quote : string -> string.
Variable random : string.

Lemma Index_Some_bound (s sep : string) :
  forall i, strings.Index s sep = Some i -> i <= String.length s.
Proof.
  induction s as [|c s IH]; intros i H.
  - cbn [strings.Index] in H. destruct (strings.HasPrefix EmptyString sep);
      [injection H as <-; simpl; lia | discriminate].
  - cbn [strings.Index] in H.
    destruct (strings.HasPrefix (String c s) sep); [injection H as <-; simpl; lia|].
    destruct (strings.Index s sep) as [k|]; [|discriminate].
    simpl in H. injection H as <-. specialize (IH k eq_refl). simpl. lia.
Qed.

Lemma length_upto (s : string) :
  forall i, i <= String.length s -> String.length (strings.upto i s) = i.
Proof.
  induction s as [|c s IH]; intros i H.
  - simpl in H. assert (i = 0) by lia. now subst.
  - destruct i as [|i]; [reflexivity|]. simpl in *. rewrite IH; lia.
Qed.

Lemma single_marker (pre marker new post : string) :
  strings.Index (pre ++ marker ++ new ++ post) marker = Some (String.length pre) ->
  strings.upto (String.length pre) (pre ++ marker ++ new ++ post) = pre /\
  removeFirst (pre ++ marker ++ new ++ post) marker = pre ++ new ++ post.
Proof.
  intros H. split; [apply upto_app|].
  unfold removeFirst. rewrite H, upto_app. f_equal.
  rewrite Nat.add_comm, from_from, from_app. apply from_app.
Qed.

Lemma replaceAndCalculateLocation_first (content old new : string) (i : nat) :
  old <> EmptyString ->
  strings.Index content old = Some i ->
  strings.Index (strings.upto i content ++ ("__REPLACE_MARKER_" ++ random ++ "_" ++ "0__")
                 ++ new ++ strings.from (i + String.length old) content)
                ("__REPLACE_MARKER_" ++ random ++ "_" ++ "0__") = Some i ->
  replaceAndCalculateLocation random content [mkEditOperation old new false]
  = inr (strings.upto i content ++ new ++ strings.from (i + String.length old) content,
         [mcp_server.countLines (strings.upto i content)]).
Proof.
  intros Hne Hidx Hfresh.
  assert (Hlen : String.length (strings.upto i content) = i)
    by (apply length_upto; eapply Index_Some_bound; eassumption).
  unfold replaceAndCalculateLocation. cbn [fold_left]. unfold applyEdit.
  cbn [OldText NewText ReplaceAll].
  apply String.eqb_neq in Hne. rewrite Hne, Hidx.
  change (fmt.dn 0) with "0". unfold append1. cbn [app flat_map fold_left].
  replace (("__REPLACE_MARKER_" ++ random ++ "_") ++ "0" ++ "__")
    with ("__REPLACE_MARKER_" ++ random ++ "_" ++ "0__")
    by (now rewrite !app_assoc_s).
  set (marker := "__REPLACE_MARKER_" ++ random ++ "_" ++ "0__") in *.
  set (pre := strings.upto i content) in *.
  set (post := strings.from (i + String.length old) content) in *.
  rewrite Hfresh. rewrite <- Hlen in Hfresh.
  destruct (single_marker pre marker new post Hfresh) as [Hup Hrm].
  rewrite <- Hlen at 1. rewrite Hup, Hrm. reflexivity.
Qed.

Lemma replaceAndCalculateLocation_errors (content old new : string) (all : bool) :
  (old = EmptyString ->
   replaceAndCalculateLocation random content [mkEditOperation old new all]
   = inl errEmptyOldString) /\
  (old <> EmptyString -> strings.Index content old = None ->
   replaceAndCalculateLocation random content [mkEditOperation old new all]
   = inl (errOldStringNotFound old)).
Proof.
  split.
  - intros ->. reflexivity.
  - intros Hne Hidx. unfold replaceAndCalculateLocation. cbn [fold_left].
    unfold applyEdit. cbn [OldText NewText ReplaceAll].
    apply String.eqb_neq in Hne. rewrite Hne, Hidx. now destruct all.
Qed.

(** X16.  One edit.  An empty old text is refused, and so is an old
    text that does not occur in the content, for a single and for a
    replace-all edit alike.  A single edit whose old text occurs
    replaces its first occurrence only and reports one line number, the
    number of line breaks before that occurrence.  The marker that is
    put in front of the new text while the line is computed must first
    occur in the marked content where it was put. *)
Theorem replaceAndCalculateLocation_single_edit :
  forall (content old new : string),
    (forall all, old = EmptyString ->
       replaceAndCalculateLocation random content [mkEditOperation old new all]
       = inl errEmptyOldString) /\
    (forall all, old <> EmptyString -> strings.Index content old = None ->
       replaceAndCalculateLocation random content [mkEditOperation old new all]
       = inl (errOldStringNotFound old)) /\
    (forall i, old <> EmptyString -> strings.Index content old = Some i ->
       strings.Index (strings.upto i content
                      ++ ("__REPLACE_MARKER_" ++ random ++ "_" ++ "0__")
                      ++ new ++ strings.from (i + String.length old) content)
                     ("__REPLACE_MARKER_" ++ random ++ "_" ++ "0__") = Some i ->
       replaceAndCalculateLocation random content [mkEditOperation old new false]
       = inr (strings.upto i content ++ new
              ++ strings.from (i + String.length old) content,
              [mcp_server.countLines (strings.upto i content)])).
Proof.
  intros content old new. split; [|split].
  - intros all. apply replaceAndCalculateLocation_errors.
  - intros all. apply replaceAndCalculateLocation_errors.
  - intros i. apply replaceAndCalculateLocation_first.
Qed.

Lemma handleEdit_failure (input : gmap string any) :
  let path := tools.inputStr input "file_path" in
  let old := tools.inputStr input "old_string" in
  let read := if isInternalPath P os_Getenv path then os_ReadFile path
              else conn_ReadTextFile path in
  path = EmptyString \/ old = EmptyString \/
  (exists msg, read = readError msg) \/
  (exists c, read = readOk c /\ strings.Index c old = None) ->
  let r := handleEdit P os_Getenv os_ReadFile conn_ReadTextFile os_WriteFile
             conn_WriteTextFile strconv_Quote random input in
  isError r = true /\ writes r = [].
Proof.
  intros path old read H r. subst r. unfold handleEdit. fold path old read.
  destruct (String.eqb_spec path EmptyString) as [Hp|Hp]; [split; reflexivity|].
  destruct read as [msg|c] eqn:Hr; [split; reflexivity|].
  destruct (String.eqb_spec old EmptyString) as [Ho|Ho].
  - rewrite Ho.
    rewrite (proj1 (replaceAndCalculateLocation_errors c EmptyString _ _) eq_refl).
    split; reflexivity.
  - destruct H as [H|[H|[[msg H]|(c' & H & Hidx)]]]; try congruence.
    injection H as <-.
    rewrite (proj2 (replaceAndCalculateLocation_errors c old _ _) Ho Hidx).
    split; reflexivity.
Qed.

Lemma handleEdit_success (input : gmap string any) (c : string) (i : nat) :
  let path := tools.inputStr input "file_path" in
  let old := tools.inputStr input "old_string" in
  let new := tools.inputStr input "new_string" in
  let internal := isInternalPath P os_Getenv path in
  let c' := strings.upto i c ++ new ++ strings.from (i + String.length old) c in
  path <> EmptyString ->
  (if internal then os_ReadFile path else conn_ReadTextFile path) = readOk c ->
  tools.inputBool input "replace_all" = false ->
  old <> EmptyString -> strings.Index c old = Some i ->
  strings.Index (strings.upto i c ++ ("__REPLACE_MARKER_" ++ random ++ "_" ++ "0__")
                 ++ new ++ strings.from (i + String.length old) c)
                ("__REPLACE_MARKER_" ++ random ++ "_" ++ "0__") = Some i ->
  let r := handleEdit P os_Getenv os_ReadFile conn_ReadTextFile os_WriteFile
             conn_WriteTextFile strconv_Quote random input in
  writes r = [if internal then os_WriteFile_call path c'
              else conn_WriteTextFile_call path c'] /\
  ((if internal then os_WriteFile path c' else conn_WriteTextFile path c') = None ->
   isError r = false /\ text r = mcp_server.createUnifiedDiff path c c').
Proof.
  intros path old new internal c' Hp Hread Hall Ho Hidx Hfresh r. subst r.
  unfold handleEdit. fold path old new internal.
  apply String.eqb_neq in Hp. rewrite Hp, Hread, Hall.
  rewrite (replaceAndCalculateLocation_first c old new i Ho Hidx Hfresh). fold c'.
  destruct internal.
  - destruct (os_WriteFile path c'); (split; [reflexivity|]); [discriminate|].
    intros _. split; reflexivity.
  - destruct (conn_WriteTextFile path c'); (split; [reflexivity|]); [discriminate|].
    intros _. split; reflexivity.
Qed.

(** X17.  What an edit writes.  [handleEdit] reports an error and
    writes nothing when the path is empty, the old string is empty, the
    file cannot be read, or the old string does not occur in the file.
    When the old string occurs (single edit) and the marker that
    [replaceAndCalculateLocation] puts in front of the new text first
    occurs in the marked content where it was put, it makes exactly one
    write: the file content with the first occurrence replaced, to the
    path given, through the file system when [isInternalPath] holds for
    the path and through the client otherwise; when that write succeeds
    the text returned is the diff from the content read to the content
    written.  The file is read the same way: from the file system when
    [isInternalPath] holds, through the client otherwise. *)
Theorem handleEdit_writes :
  forall (input : gmap string any),
    let path := tools.inputStr input "file_path" in
    let old := tools.inputStr input "old_string" in
    let new := tools.inputStr input "new_string" in
    let internal := isInternalPath P os_Getenv path in
    let read := if internal then os_ReadFile path else conn_ReadTextFile path in
    let r := handleEdit P os_Getenv os_ReadFile conn_ReadTextFile os_WriteFile
               conn_WriteTextFile strconv_Quote random input in
    (path = EmptyString \/ old = EmptyString \/
     (exists msg, read = readError msg) \/
     (exists c, read = readOk c /\ strings.Index c old = None) ->
     isError r = true /\ writes r = []) /\
    (forall c i,
       let c' := strings.upto i c ++ new ++ strings.from (i + String.length old) c in
       path <> EmptyString -> read = readOk c ->
       tools.inputBool input "replace_all" = false ->
       old <> EmptyString -> strings.Index c old = Some i ->
       strings.Index (strings.upto i c ++ ("__REPLACE_MARKER_" ++ random ++ "_" ++ "0__")
                      ++ new ++ strings.from (i + String.length old) c)
                     ("__REPLACE_MARKER_" ++ random ++ "_" ++ "0__") = Some i ->
       writes r = [if internal then os_WriteFile_call path c'
                   else conn_WriteTextFile_call path c'] /\
       ((if internal then os_WriteFile path c' else conn_WriteTextFile path c') = None ->
        isError r = false /\ text r = mcp_server.createUnifiedDiff path c c')).
Proof.
  intros input path old new internal read r. split.
  - apply handleEdit_failure.
  - intros c i. apply handleEdit_success.
Qed.

Lemma wrap64_id (z : Z) : (- 2 ^ 63 <= z < 2 ^ 63)%Z -> tools.wrap64 z = z.
Proof.
  intros H. unfold tools.wrap64. rewrite Z.mod_small by lia. lia.
Qed.

Lemma extractLinesWithByteLimit_Some (content : string) (max : Z) :
  exists r, extractLinesWithByteLimit content max = Some r.
Proof.
  unfold extractLinesWithByteLimit.
  destruct (String.eqb content EmptyString); [eauto|].
  destruct (extractLoop_returns (S (String.length content)) content max 0 0 0)
    as (n' & cl' & lim & E & _); [lia | lia | lia|].
  rewrite E. eauto.
Qed.

Lemma readWindow_offset (content : string) (o : Z) :
  (- 2 ^ 63 <= o < 2 ^ 63)%Z ->
  (Z.of_nat (length (strings.SplitByte content LF)) < 2 ^ 63 - 1)%Z ->
  readWindow content (Some o) None = None
  <-> ((Z.of_nat (length (strings.SplitByte content LF)) < o - 1)%Z \/ o = (- 2 ^ 63)%Z).
Proof.
  intros Ho Hn. unfold readWindow.
  set (n := Z.of_nat (length (strings.SplitByte content LF))) in *.
  replace (n >? n)%Z with false by (symmetry; rewrite Z.gtb_ltb; apply Z.ltb_irrefl).
  unfold sliceLines.
  destruct (Z.eq_dec o (- 2 ^ 63)%Z) as [->|Hmin].
  - change (tools.wrap64 (- 2 ^ 63 - 1)%Z) with (2 ^ 63 - 1)%Z.
    destruct (Z.ltb_spec (2 ^ 63 - 1)%Z 0%Z) as [Hneg|_]; [lia|].
    destruct (Z.leb_spec (2 ^ 63 - 1)%Z n) as [Hle|_]; [lia|].
    split; [intros _; now right | reflexivity].
  - rewrite wrap64_id by lia.
    destruct (Z.ltb_spec (o - 1) 0) as [Hneg|Hpos].
    + destruct (Z.leb_spec 0 n) as [_|Hlt]; [|lia].
      split; [discriminate | lia].
    + destruct (Z.leb_spec (o - 1) n) as [Hle|Hgt].
      * split; [discriminate | lia].
      * split; [intros _; now left | reflexivity].
Qed.

Lemma readWindow_limit (content : string) (l : Z) :
  (- 2 ^ 63 <= l < 2 ^ 63)%Z ->
  readWindow content None (Some l) = None <-> (l < 0)%Z.
Proof.
  intros Hl. unfold readWindow. change (0 <? 0)%Z with false. cbn iota.
  rewrite wrap64_id by lia. unfold sliceLines.
  set (n := Z.of_nat (length (strings.SplitByte content LF))).
  assert (Hn : (0 <= n)%Z) by (subst n; lia).
  destruct (Z.gtb_spec (0 + l) n) as [Hgt|Hle].
  - destruct (Z.leb_spec 0 n) as [_|Hlt]; [|lia]. split; [discriminate | lia].
  - destruct (Z.leb_spec 0 (0 + l)) as [Hpos|Hneg].
    + split; [discriminate | lia].
    + split; [intros _; lia | reflexivity].
Qed.

(** X18.  Reading a window of an internal file.  [isInternalPath] is
    a test on the text of the path: it starts with the configuration
    directory and with neither the settings file nor the session
    environment of that directory.  For a readable file that passes
    the test, read with an offset and without a limit, [handleRead]
    panics exactly when the offset is more than one past the number of
    lines of the file (the slice of lines then starts after its end) or
    is the least integer, for which offset - 1 wraps around to the
    greatest; read with a limit and without an offset, it panics
    exactly when the limit is negative.  A file that does not pass the
    test is read through the client and never makes [handleRead]
    panic. *)
Theorem handleRead_window_bounds :
  forall (input : gmap string any),
    let path := tools.inputStr input "file_path" in
    let dir := getClaudeConfigDir P os_Getenv in
    let run := handleRead P os_Getenv os_ReadFile conn_ReadTextFile input in
    (isInternalPath P os_Getenv path = true <->
     strings.HasPrefix path dir = true /\
     strings.HasPrefix path (P.(settings.filepath_Join) dir "settings.json") = false /\
     strings.HasPrefix path (P.(settings.filepath_Join) dir "session-env") = false) /\
    (forall content o,
       path <> EmptyString -> isInternalPath P os_Getenv path = true ->
       os_ReadFile path = readOk content ->
       tools.inputInt input "offset" = Some o -> tools.inputInt input "limit" = None ->
       (- 2 ^ 63 <= o < 2 ^ 63)%Z ->
       (Z.of_nat (length (strings.SplitByte content LF)) < 2 ^ 63 - 1)%Z ->
       (run = None
        <-> ((Z.of_nat (length (strings.SplitByte content LF)) < o - 1)%Z \/
             o = (- 2 ^ 63)%Z))) /\
    (forall content l,
       path <> EmptyString -> isInternalPath P os_Getenv path = true ->
       os_ReadFile path = readOk content ->
       tools.inputInt input "offset" = None -> tools.inputInt input "limit" = Some l ->
       (- 2 ^ 63 <= l < 2 ^ 63)%Z ->
       (run = None <-> (l < 0)%Z)) /\
    (isInternalPath P os_Getenv path = false -> exists r, run = Some r).
Proof.
  intros input path dir run. subst run. unfold handleRead. fold path.
  split; [|split; [|split]].
  - unfold isInternalPath. fold dir.
    destruct (strings.HasPrefix path dir); cbn [negb];
      [|split; [discriminate | intros [H _]; discriminate H]].
    destruct (strings.HasPrefix path (settings.filepath_Join P dir "settings.json"));
      [split; [discriminate | intros (_ & H & _); discriminate H]|].
    destruct (strings.HasPrefix path (settings.filepath_Join P dir "session-env"));
      [split; [discriminate | intros (_ & _ & H); discriminate H]|].
    split; [intros _; repeat split | reflexivity].
  - intros content o Hp Hint Hread Hoff Hlim Ho Hn.
    apply String.eqb_neq in Hp. rewrite Hp, Hint, Hread, Hoff, Hlim.
    rewrite <- (readWindow_offset content o Ho Hn).
    destruct (readWindow content (Some o) None) as [raw|]; [|tauto].
    destruct (extractLinesWithByteLimit_Some raw MaxFileSize) as [r ->].
    split; [discriminate | discriminate].
  - intros content l Hp Hint Hread Hoff Hlim Hl.
    apply String.eqb_neq in Hp. rewrite Hp, Hint, Hread, Hoff, Hlim.
    rewrite <- (readWindow_limit content l Hl).
    destruct (readWindow content None (Some l)) as [raw|]; [|tauto].
    destruct (extractLinesWithByteLimit_Some raw MaxFileSize) as [r ->].
    split; [discriminate | discriminate].
  - intros Hint. rewrite Hint.
    destruct (String.eqb path EmptyString); [eauto|].
    destruct (conn_ReadTextFile path) as [msg|content]; [eauto|].
    destruct (extractLinesWithByteLimit_Some content MaxFileSize) as [r ->]. eauto.
Qed.

End HandlerFacts.

Section HandlerExamples.

Import mcp_handlers.

Lemma replaceAndCalculateLocation_witness :
  replaceAndCalculateLocation "abcdefghi" notesContent [mkEditOperation "two" "2" false]
  = inr (strings.upto 4 notesContent ++ "2"
         ++ strings.from (4 + String.length "two") notesContent,
         [mcp_server.countLines (strings.upto 4 notesContent)]).
Proof.
  apply (proj2 (proj2 (replaceAndCalculateLocation_single_edit "abcdefghi"
                         notesContent "two" "2")) 4).
  - discriminate.
  - vm_compute. reflexivity.
  - vm_compute. reflexivity.
Defined.

Lemma handleEdit_writes_witness :
  writes (handleEdit linux (fun _ => EmptyString) notesRead notesRead
            (fun _ _ => None) (fun _ _ => None) (fun s => s) "abcdefghi"
            {[ "file_path" := Str notesPath; "old_string" := Str "two";
               "new_string" := Str "2" ]})
  = [os_WriteFile_call notesPath ("one" ++ nl ++ "2" ++ nl ++ "three")].
Proof.
  pose proof (proj2 (handleEdit_writes linux (fun _ => EmptyString) notesRead notesRead
                       (fun _ _ => None) (fun _ _ => None) (fun s => s) "abcdefghi"
                       {[ "file_path" := Str notesPath; "old_string" := Str "two";
                          "new_string" := Str "2" ]}) notesContent 4) as H.
  destruct H as [H _].
  - discriminate.
  - vm_compute. reflexivity.
  - vm_compute. reflexivity.
  - discriminate.
  - vm_compute. reflexivity.
  - vm_compute. reflexivity.
  - vm_compute in H. vm_compute. exact H.
Defined.

Lemma handleRead_window_witness :
  handleRead linux (fun _ => EmptyString) notesRead notesRead
    {[ "file_path" := Str notesPath; "offset" := Int (- 2 ^ 63)%Z ]} = None.
Proof.
  apply (proj1 (proj2 (handleRead_window_bounds linux (fun _ => EmptyString)
                         notesRead notesRead
                         (fun _ _ => None) (fun _ _ => None) (fun s => s) EmptyString
                         {[ "file_path" := Str notesPath; "offset" := Int (- 2 ^ 63)%Z ]}))
           notesContent (- 2 ^ 63)%Z).
  - discriminate.
  - vm_compute. reflexivity.
  - vm_compute. reflexivity.
  - vm_compute. reflexivity.
  - vm_compute. reflexivity.
  - lia.
  - vm_compute. reflexivity.
  - right. reflexivity.
Defined.

(** The test is on the text of the path: a file in a directory whose
    name only starts like the configuration directory passes it, the
    settings file of the configuration directory does not. *)
Example isInternalPath_is_a_prefix_test :
  isInternalPath linux (fun _ => EmptyString) "/home/user/.claude-backup/notes.md" = true /\
  isInternalPath linux (fun _ => EmptyString) "/home/user/.claude/settings.json" = false /\
  isInternalPath linux (fun _ => EmptyString) "/home/user/.claude/notes.md" = true.
Proof. vm_compute. repeat split. Qed.

(** Reading an empty file: without an offset nothing is added but the
    reminder; with the offset 5 the range hint is added.  Neither text
    tells to continue at an offset. *)
Lemma empty_file_gets_no_continuation_hint :
  handleRead linux (fun _ => EmptyString) emptyRead emptyRead
    {[ "file_path" := Str "/work/empty.txt" ]}
  = Some (tools.SystemReminder, false) /\
  handleRead linux (fun _ => EmptyString) emptyRead emptyRead
    {[ "file_path" := Str "/work/empty.txt"; "offset" := Int 5 ]}
  = Some (nl ++ nl ++ "<file-read-info>Read lines 5-6.</file-read-info>"
          ++ tools.SystemReminder, false) /\
  strings.Contains tools.SystemReminder "Continue with offset" = false /\
  strings.Contains (nl ++ nl ++ "<file-read-info>Read lines 5-6.</file-read-info>"
                    ++ tools.SystemReminder) "Continue with offset" = false.
Proof. vm_compute. repeat split. Qed.

End HandlerExamples.

(** ** Sessions and their permission mode *)

Section SessionModes.

Import acp_session.

Lemma filterModes_ids (allow : bool) (modeID : string) :
  existsb (fun m => String.eqb m.(ModeId) modeID) (filterModes allow) = true <->
  In modeID ["default"; "acceptEdits"; "plan"; "dontAsk"] \/
  (modeID = "bypassPermissions" /\ allow = true).
Proof.
  destruct allow.
  - unfold filterModes, validModes. cbn [existsb ModeId In].
    rewrite !Bool.orb_true_iff, !String.eqb_eq. intuition congruence.
  - change (filterModes false)
      with [mkSessionMode "default" "Default"
              (Some "Normal operation with permission prompts");
            mkSessionMode "acceptEdits" "Accept Edits"
              (Some "Automatically accept file edits");
            mkSessionMode "plan" "Plan" (Some "Plan-only mode, no execution");
            mkSessionMode "dontAsk" "Don't Ask"
              (Some "Skip permission prompts for allowed tools")].
    cbn [existsb ModeId In]. rewrite !Bool.orb_true_iff, !String.eqb_eq.
    intuition congruence.
Qed.

Lemma serve_keeps_bypass_out (a : ClaudeAcpAgent) (r : sessionRequest) :
  allowBypass a = false ->
  (forall sid s, sessions a !! sid = Some s -> permissionMode s <> "bypassPermissions") ->
  allowBypass (serve a r) = false /\
  (forall sid s, sessions (serve a r) !! sid = Some s ->
                 permissionMode s <> "bypassPermissions").
Proof.
  intros Hallow Hinv. destruct r as [backup sid0 merged perr|sid0 mode|sid0];
    cbn [serve].
  - unfold NewSession. destruct backup; [now split|].
    destruct perr as [err|]; [now split|]. cbn [snd allowBypass sessions].
    split; [assumption|]. intros sid s Hs.
    destruct (decide (sid = sid0)) as [->|Hne].
    + rewrite lookup_insert_eq in Hs. injection Hs as <-. cbn [permissionMode].
      rewrite Hallow. cbn [negb]. rewrite Bool.andb_true_r.
      match goal with
      | |- (if String.eqb ?m _ then _ else _) <> _ =>
          destruct (String.eqb_spec m "bypassPermissions"); [discriminate | assumption]
      end.
    + rewrite lookup_insert_ne in Hs by congruence. eauto.
  - unfold SetSessionMode. destruct (sessions a !! sid0) as [s0|] eqn:H0; [|now split].
    destruct (existsb _ _) eqn:He; [|now split]. cbn [snd allowBypass sessions].
    split; [assumption|]. intros sid s Hs.
    destruct (decide (sid = sid0)) as [->|Hne].
    + rewrite lookup_insert_eq in Hs. injection Hs as <-. cbn [SetPermissionMode permissionMode].
      apply filterModes_ids in He. rewrite Hallow in He.
      destruct He as [He|[_ He]]; [|discriminate].
      cbn [In] in He. intuition (subst; discriminate).
    + rewrite lookup_insert_ne in Hs by congruence. eauto.
  - unfold CancelSession. destruct (sessions a !! sid0) as [s0|] eqn:H0; [|now split].
    cbn [snd allowBypass sessions]. split; [assumption|]. intros sid s Hs.
    destruct (decide (sid = sid0)) as [->|Hne].
    + rewrite lookup_insert_eq in Hs. injection Hs as <-. cbn [Cancel permissionMode].
      eauto.
    + rewrite lookup_insert_ne in Hs by congruence. eauto.
Qed.

(** X19.  An agent that runs as root outside a sandbox never has a
    session in the mode that bypasses permissions.  Whatever sessions
    are created (with whatever default mode the settings name), and
    whatever modes are requested afterwards, in any order, no session
    of the agent is in the mode bypassPermissions: a new session falls
    back to the default mode and a request for the mode is refused. *)
Theorem root_agent_never_bypasses :
  forall (requests : list sessionRequest) (sessionID : string) (s : Session),
    sessions (fold_left serve requests (NewClaudeAcpAgent true EmptyString)) !! sessionID
      = Some s ->
    permissionMode s <> "bypassPermissions".
Proof.
  intros requests.
  assert (H : allowBypass (fold_left serve requests (NewClaudeAcpAgent true EmptyString))
              = false /\
              forall sid s,
                sessions (fold_left serve requests (NewClaudeAcpAgent true EmptyString))
                  !! sid = Some s ->
                permissionMode s <> "bypassPermissions").
  { assert (H0 : allowBypass (NewClaudeAcpAgent true EmptyString) = false /\
                 forall sid s,
                   sessions (NewClaudeAcpAgent true EmptyString) !! sid = Some s ->
                   permissionMode s <> "bypassPermissions").
    { split; [reflexivity|]. intros sid s Hs. cbn [NewClaudeAcpAgent sessions] in Hs.
      rewrite lookup_empty in Hs. discriminate. }
    revert H0. generalize (NewClaudeAcpAgent true EmptyString).
    induction requests as [|r requests IH]; intros a Ha; [exact Ha|].
    cbn [fold_left]. apply IH. destruct Ha as [Ha1 Ha2].
    now apply serve_keeps_bypass_out. }
  exact (proj2 H).
Qed.

(** X20.  Which mode changes are accepted.  [SetSessionMode] succeeds
    exactly when the session exists and the mode is default,
    acceptEdits, plan or dontAsk, or is bypassPermissions and the agent
    allows it.  On success the session has the requested mode, keeps
    its flags, and no other session changes; on failure the agent is
    unchanged. *)
Theorem SetSessionMode_accepts :
  forall (a : ClaudeAcpAgent) (sessionID modeID : string),
    let result := SetSessionMode a sessionID modeID in
    (fst result = None <->
     is_Some (sessions a !! sessionID) /\
     (In modeID ["default"; "acceptEdits"; "plan"; "dontAsk"] \/
      (modeID = "bypassPermissions" /\ allowBypass a = true))) /\
    (fst result <> None -> snd result = a) /\
    (fst result = None ->
     allowBypass (snd result) = allowBypass a /\
     (exists s, sessions a !! sessionID = Some s /\
                sessions (snd result) !! sessionID
                = Some (mkSession (cancelled s) (streamEventsReceived s) modeID)) /\
     forall other, other <> sessionID ->
                   sessions (snd result) !! other = sessions a !! other).
Proof.
  intros a sessionID modeID result. subst result. unfold SetSessionMode.
  destruct (sessions a !! sessionID) as [s|] eqn:Hs.
  - pose proof (filterModes_ids (allowBypass a) modeID) as Hids.
    destruct (existsb _ (filterModes (allowBypass a))); cbn [fst snd].
    + split; [|split].
      * split; [intros _; split; [eauto | now apply Hids] | reflexivity].
      * congruence.
      * intros _. cbn [allowBypass sessions]. split; [reflexivity|]. split.
        -- exists s. split; [reflexivity|]. now rewrite lookup_insert_eq.
        -- intros other Hne. now rewrite lookup_insert_ne by congruence.
    + split; [|split].
      * split; [discriminate|]. intros [_ H]. apply Hids in H. discriminate.
      * reflexivity.
      * discriminate.
  - cbn [fst snd]. split; [|split].
    + split; [discriminate|]. intros [[x Hx] _]. discriminate.
    + reflexivity.
    + discriminate.
Qed.

End SessionModes.

Section SessionExamples.

Import acp_session.

Lemma root_agent_never_bypasses_witness :
  permissionMode (mkSession false false "default") <> "bypassPermissions".
Proof.
  apply (root_agent_never_bypasses
           [RequestNewSession false "s1"
              (settings.mkClaudeCodeSettings
                 (Some (settings.mkPermissionSettings [] [] [] [] "bypassPermissions"))
                 None EmptyString) None;
            RequestSetSessionMode "s1" "bypassPermissions"]
           "s1" (mkSession false false "default")).
  vm_compute. reflexivity.
Defined.

End SessionExamples.

(** ** Line extraction: when the result is limited *)

Section ExtractLinesMore.

Lemma newlines_app (a b : string) : newlines (a ++ b) = newlines a + newlines b.
Proof.
  induction a as [|c a IH]; [reflexivity|].
  rewrite app_cons. cbn [newlines]. destruct (Ascii.eqb c LF); lia.
Qed.

Lemma noLF_newlines (s : string) : noLF s <-> newlines s = 0.
Proof.
  induction s as [|c s IH]; [split; reflexivity|].
  rewrite noLF_cons. cbn [newlines].
  destruct (Ascii.eqb c LF); [split; [intros [? _] | intros ?]; discriminate|].
  rewrite IH. tauto.
Qed.

Lemma upto_add (s : string) :
  forall a b, strings.upto (a + b) s = strings.upto a s ++ strings.upto b (strings.from a s).
Proof.
  induction s as [|c s IH]; intros a b.
  - destruct a, b; reflexivity.
  - destruct a as [|a]; [reflexivity|].
    cbn [Nat.add strings.upto strings.from]. rewrite app_cons. now rewrite IH.
Qed.

Lemma Index_nl_first (s : string) :
  forall k, strings.Index s nl = Some k ->
            strings.upto (k + 1) s = strings.upto k s ++ nl /\
            newlines (strings.upto k s) = 0.
Proof.
  induction s as [|c s IH]; intros k H; [discriminate|].
  rewrite Index_nl_cons in H.
  destruct (Ascii.eqb c LF) eqn:Hc.
  - injection H as <-. apply Ascii.eqb_eq in Hc. subst c. split; reflexivity.
  - destruct (strings.Index s nl) as [j|]; [|discriminate].
    injection H as <-. destruct (IH j eq_refl) as [A B].
    cbn [Nat.add strings.upto newlines]. rewrite Hc, A. split; [now rewrite app_cons | exact B].
Qed.

Lemma extractLoop_inv (content : string) (max : Z) :
  forall fuel n idx,
    String.length content - idx < fuel ->
    idx <= String.length content ->
    n = newlines (strings.upto idx content) ->
    n = 0 \/ strings.HasSuffix (strings.upto idx content) nl = true ->
    exists n' cl' lim,
      extractLoop fuel content max n idx idx = Some (n', cl', lim) /\
      cl' <= String.length content /\
      (lim = false ->
       cl' = String.length content /\ n' = newlines content + 1 /\
       ((Z.of_nat (String.length content) <= max)%Z \/ noLF content)) /\
      (lim = true ->
       n' = newlines (strings.upto cl' content) /\ 1 <= n' /\
       strings.HasSuffix (strings.upto cl' content) nl = true /\
       (max < Z.of_nat (String.length content))%Z /\ ~ noLF content).
Proof.
  induction fuel as [|fuel IH]; intros n idx Hfuel Hidx Hn Hsuf; [lia|].
  assert (Hsplit : newlines content
                   = n + newlines (strings.from idx content)).
  { rewrite <- (upto_from idx content) at 1. rewrite newlines_app. lia. }
  assert (Hhas : 0 < n -> ~ noLF content).
  { intros Hpos Hno. apply noLF_newlines in Hno. lia. }
  cbn [extractLoop].
  destruct (strings.Index (strings.from idx content) nl) as [k|] eqn:Hi.
  - pose proof (Index_nl_bound _ _ Hi) as Hk. rewrite length_from in Hk.
    destruct (Index_nl_first _ _ Hi) as [Hup Hzero].
    destruct ((0 <? n)%nat && (Z.of_nat (k + idx + 1) >? max)%Z) eqn:Hc.
    + apply andb_prop in Hc as [Hpos Hgt]. apply Nat.ltb_lt in Hpos.
      rewrite Z.gtb_ltb in Hgt. apply Z.ltb_lt in Hgt.
      exists n, idx, true. split; [reflexivity|]. split; [assumption|].
      split; [discriminate|]. intros _.
      split; [assumption|]. split; [lia|].
      split; [destruct Hsuf; [lia | assumption]|].
      split; [lia | now apply Hhas].
    + assert (Hnew : strings.upto (k + idx + 1) content
                     = strings.upto idx content
                       ++ strings.upto k (strings.from idx content) ++ nl).
      { replace (k + idx + 1) with (idx + (k + 1)) by lia.
        now rewrite upto_add, Hup. }
      destruct (IH (S n) (k + idx + 1)) as (n' & cl' & lim & E & B & Hf & Ht).
      * lia.
      * lia.
      * rewrite Hnew, !newlines_app, Hzero, <- Hn. simpl. lia.
      * right. rewrite Hnew. apply HasSuffix_spec.
        exists (strings.upto idx content ++ strings.upto k (strings.from idx content)).
        now rewrite app_assoc_s.
      * exists n', cl', lim. split; [exact E|]. split; [exact B|]. now split.
  - assert (Hrest : newlines (strings.from idx content) = 0)
      by (now apply noLF_newlines).
    destruct ((0 <? n)%nat && (Z.of_nat (String.length content) >? max)%Z) eqn:Hc.
    + apply andb_prop in Hc as [Hpos Hgt]. apply Nat.ltb_lt in Hpos.
      rewrite Z.gtb_ltb in Hgt. apply Z.ltb_lt in Hgt.
      exists n, idx, true. split; [reflexivity|]. split; [assumption|].
      split; [discriminate|]. intros _.
      split; [assumption|]. split; [lia|].
      split; [destruct Hsuf; [lia | assumption]|].
      split; [lia | now apply Hhas].
    + exists (S n), (String.length content), false.
      split; [reflexivity|]. split; [lia|]. split; [|discriminate].
      intros _. split; [reflexivity|]. split; [lia|].
      apply Bool.andb_false_iff in Hc as [Hz|Hle].
      * right. apply Nat.ltb_ge in Hz. apply noLF_newlines. lia.
      * left. rewrite Z.gtb_ltb in Hle. apply Z.ltb_ge in Hle. exact Hle.
Qed.

(** X21.  When a read is limited.  The content returned is always a
    prefix of the file.  The result is marked as limited exactly when
    the file is longer than the limit and has a newline: so a file of a
    single line that ends with a newline and exceeds the limit is marked
    as limited although all of it is returned.  A result that is not
    limited is the whole file, and its line count is the number of
    newlines plus one; a limited result ends with a newline and its line
    count is the number of its newlines, at least one. *)
Theorem extractLinesWithByteLimit_limited :
  forall (fullContent : string) (maxContentLength : Z),
    exists r,
      extractLinesWithByteLimit fullContent maxContentLength = Some r /\
      r.(Content) = strings.upto (String.length r.(Content)) fullContent /\
      (r.(WasLimited) = true <->
       (maxContentLength < Z.of_nat (String.length fullContent))%Z /\ ~ noLF fullContent) /\
      (r.(WasLimited) = false ->
       r.(Content) = fullContent /\ r.(LinesRead) = newlines fullContent + 1) /\
      (r.(WasLimited) = true ->
       strings.HasSuffix r.(Content) nl = true /\
       r.(LinesRead) = newlines r.(Content) /\ 1 <= r.(LinesRead)).
Proof.
  intros content max. unfold extractLinesWithByteLimit.
  destruct (String.eqb_spec content EmptyString) as [->|Hne].
  - eexists. split; [reflexivity|]. cbn [Content WasLimited LinesRead].
    split; [reflexivity|]. split; [|split; [now split | discriminate]].
    split; [discriminate|]. intros [_ H]. now destruct H.
  - destruct (extractLoop_inv content max (S (String.length content)) 0 0)
      as (n' & cl' & lim & E & B & Hf & Ht); [lia | lia | reflexivity | now left|].
    rewrite E. eexists. split; [reflexivity|]. cbn [Content WasLimited LinesRead].
    split; [now rewrite length_upto by assumption|].
    split; [|split].
    + split.
      * intros ->. destruct (Ht eq_refl) as (_ & _ & _ & H1 & H2). now split.
      * intros [H1 H2]. destruct lim; [reflexivity|].
        destruct (Hf eq_refl) as (_ & _ & [H|H]); [lia | contradiction].
    + intros ->. destruct (Hf eq_refl) as (-> & -> & _).
      split; [apply upto_all | reflexivity].
    + intros ->. destruct (Ht eq_refl) as (-> & H1 & H2 & _). now split.
Qed.

End ExtractLinesMore.

(** * The context of a hunk *)

Section DiffContext.

Import mcp_server.

Lemma contextLine_opLine (o : diffOp) : contextLine (opLine o) = isEqualOp o.
Proof.
  unfold contextLine, opLine, isEqualOp. rewrite HasPrefix_String.
  destruct (line o); apply Bool.andb_true_r.
Qed.

Lemma last_map_opLine (body : list diffOp) :
  body <> [] ->
  List.last (map opLine body) EmptyString = opLine (List.last body noOp).
Proof.
  intros Hb. destruct (List.exists_last Hb) as (body' & x & ->).
  rewrite List.map_app. cbn [map]. now rewrite !List.last_last.
Qed.

(** X22.  The context of a hunk.  Every hunk that [computeDiffHunks]
    returns is made of at most [contextLines] context lines, then lines
    that start and end with a changed line, then at most
    [contextLines + 1] context lines: the loop that adds the trailing
    context starts at the first unchanged line and runs through
    [idx + contextLines]. *)
Theorem computeDiffHunks_context_bounds :
  forall (oldLines newLines : list string) (h : diffHunk),
    In h (computeDiffHunks oldLines newLines) ->
    exists lead body trail,
      lines h = (lead ++ body ++ trail)%list /\
      Forall (fun l => contextLine l = true) lead /\ length lead <= contextLines /\
      Forall (fun l => contextLine l = true) trail /\
      length trail <= contextLines + 1 /\
      body <> [] /\
      contextLine (hd EmptyString body) = false /\
      contextLine (List.last body EmptyString) = false.
Proof.
  intros oldLines newLines h Hin.
  destruct (computeDiffHunks_shaped oldLines newLines) as (segs & Heq & Hsh).
  rewrite Heq in Hin. apply List.in_map_iff in Hin as (s & <- & Hs).
  rewrite List.Forall_forall in Hsh.
  destruct (Hsh s Hs) as (lead & body & trail & -> & Hl & Hll & Ht & Hlt & Hhd & Hla).
  assert (Hb : body <> []) by (intros ->; discriminate Hhd).
  exists (map opLine lead), (map opLine body), (map opLine trail).
  unfold hunkOf. cbn [lines]. rewrite !List.map_app.
  split; [reflexivity|].
  split; [apply List.Forall_map; revert Hl; apply List.Forall_impl;
          intros o Ho; now rewrite contextLine_opLine|].
  split; [rewrite List.length_map; exact Hll|].
  split; [apply List.Forall_map; revert Ht; apply List.Forall_impl;
          intros o Ho; now rewrite contextLine_opLine|].
  split; [rewrite List.length_map; exact Hlt|].
  split; [destruct body; [contradiction | discriminate]|].
  split.
  - destruct body as [|o body]; [contradiction|].
    cbn [map hd] in *. now rewrite contextLine_opLine.
  - rewrite last_map_opLine by assumption. now rewrite contextLine_opLine.
Qed.

End DiffContext.

Section DiffContextExamples.

Import mcp_server.

(** Changing the first of eight lines: the hunk has no leading context
    and four lines of trailing context. *)
Lemma computeDiffHunks_context_bounds_witness :
  In (mkDiffHunk 0 5 0 5 ["-a"; "+A"; " b"; " c"; " d"; " e"])
     (computeDiffHunks ["a"; "b"; "c"; "d"; "e"; "f"; "g"; "h"]
                       ["A"; "b"; "c"; "d"; "e"; "f"; "g"; "h"]) /\
  exists lead body trail,
    ["-a"; "+A"; " b"; " c"; " d"; " e"] = (lead ++ body ++ trail)%list /\
    Forall (fun l => contextLine l = true) lead /\ length lead <= contextLines /\
    Forall (fun l => contextLine l = true) trail /\
    length trail <= contextLines + 1 /\
    body <> [] /\
    contextLine (hd EmptyString body) = false /\
    contextLine (List.last body EmptyString) = false.
Proof.
  split; [vm_compute; left; reflexivity|].
  apply (computeDiffHunks_context_bounds
           ["a"; "b"; "c"; "d"; "e"; "f"; "g"; "h"]
           ["A"; "b"; "c"; "d"; "e"; "f"; "g"; "h"]
           (mkDiffHunk 0 5 0 5 ["-a"; "+A"; " b"; " c"; " d"; " e"])).
  vm_compute. left. reflexivity.
Defined.

End DiffContextExamples.

(** * Identifiers and links *)

Section Identifiers.

Import acp_helpers.

Lemma byte_cases (P : Z -> bool) :
  forallb P (map Z.of_nat (seq 0 256)) = true ->
  forall c, (0 <= c < 256)%Z -> P c = true.
Proof.
  intros H c Hc. rewrite forallb_forall in H. apply H.
  apply List.in_map_iff. exists (Z.to_nat c). split; [lia|].
  apply List.in_seq. lia.
Qed.

Lemma hexByte_hex (c : Z) : (0 <= c < 256)%Z -> allLowerHex (hexByte c) = true.
Proof. apply (byte_cases (fun c => allLowerHex (hexByte c))). vm_compute. reflexivity. Qed.

Lemma hexByte_version (c : Z) :
  (0 <= c < 256)%Z ->
  hexByte (Z.lor (Z.land c 15) 64) = String "4" (String (hexDigit (Z.land c 15)) EmptyString).
Proof.
  intros Hc. apply String.eqb_eq. revert c Hc.
  apply (byte_cases (fun c => String.eqb (hexByte (Z.lor (Z.land c 15) 64))
                                (String "4" (String (hexDigit (Z.land c 15)) EmptyString)))).
  vm_compute. reflexivity.
Qed.

Lemma hexByte_variant (c : Z) :
  (0 <= c < 256)%Z ->
  exists y, In y ["8"; "9"; "a"; "b"]%char /\
            hexByte (Z.lor (Z.land c 63) 128)
            = String y (String (hexDigit (Z.land c 15)) EmptyString).
Proof.
  intros Hc.
  assert (H : existsb (fun y => String.eqb (hexByte (Z.lor (Z.land c 63) 128))
                                  (String y (String (hexDigit (Z.land c 15)) EmptyString)))
                      ["8"; "9"; "a"; "b"]%char = true).
  { revert c Hc.
    apply (byte_cases
             (fun c => existsb
                         (fun y => String.eqb (hexByte (Z.lor (Z.land c 63) 128))
                                     (String y (String (hexDigit (Z.land c 15)) EmptyString)))
                         ["8"; "9"; "a"; "b"]%char)).
    vm_compute. reflexivity. }
  apply existsb_exists in H as (y & Hy & He). exists y. split; [assumption|].
  now apply String.eqb_eq.
Qed.

Lemma hexDigit_low (c : Z) : (0 <= c < 256)%Z -> lowerHex (hexDigit (Z.land c 15)) = true.
Proof. apply (byte_cases (fun c => lowerHex (hexDigit (Z.land c 15)))). vm_compute. reflexivity. Qed.

Lemma allLowerHex_app (s t : string) :
  allLowerHex (s ++ t) = allLowerHex s && allLowerHex t.
Proof.
  induction s as [|c s IH]; [reflexivity|].
  rewrite app_cons. cbn [allLowerHex]. rewrite IH. apply Bool.andb_assoc.
Qed.

(** X23.  Session identifiers are version 4 UUIDs.  Whatever sixteen
    bytes the random source leaves in the buffer, [generateID] returns
    36 characters: groups of 8, 4, 4, 4 and 12 lower-case hexadecimal
    digits separated by dashes, the third group starting with 4 and the
    fourth with 8, 9, a or b. *)
Theorem generateID_uuid_v4 :
  forall b : list Z,
    length b = 16 ->
    Forall (fun c => (0 <= c < 256)%Z) b ->
    exists g1 g2 g3 y g4 g5,
      generateID b
      = g1 ++ "-" ++ g2 ++ "-" ++ String "4" g3 ++ "-" ++ String y g4 ++ "-" ++ g5 /\
      String.length g1 = 8 /\ String.length g2 = 4 /\ String.length g3 = 3 /\
      String.length g4 = 3 /\ String.length g5 = 12 /\
      allLowerHex (g1 ++ g2 ++ g3 ++ g4 ++ g5) = true /\
      In y ["8"; "9"; "a"; "b"]%char.
Proof.
  intros b Hlen Hb.
  do 16 (destruct b as [|? b]; [discriminate Hlen|]).
  destruct b; [|discriminate Hlen]. clear Hlen.
  repeat match goal with
         | H : Forall _ (_ :: _) |- _ => apply List.Forall_cons_iff in H as [? H]
         end.
  destruct (hexByte_variant z7) as (y & Hy & Hv); [assumption|].
  exists (hexBytes [z; z0; z1; z2]), (hexBytes [z3; z4]),
         (String (hexDigit (Z.land z5 15)) (hexByte z6)), y,
         (String (hexDigit (Z.land z7 15)) (hexByte z8)),
         (hexBytes [z9; z10; z11; z12; z13; z14]).
  split.
  - unfold generateID.
    cbn [nth list_insert insert slice firstn skipn Nat.sub hexBytes].
    rewrite hexByte_version, Hv by assumption. reflexivity.
  - repeat (split; [reflexivity|]).
    split; [|assumption].
    cbn [hexBytes]. rewrite !allLowerHex_app. cbn [allLowerHex].
    rewrite !hexByte_hex, !hexDigit_low by assumption. reflexivity.
Qed.

Lemma generateID_uuid_v4_witness :
  exists g1 g2 g3 y g4 g5,
    generateID [0; 17; 34; 51; 68; 85; 102; 119; 136; 153; 170; 187; 204; 221; 238; 255]%Z
    = g1 ++ "-" ++ g2 ++ "-" ++ String "4" g3 ++ "-" ++ String y g4 ++ "-" ++ g5 /\
    String.length g1 = 8 /\ String.length g2 = 4 /\ String.length g3 = 3 /\
    String.length g4 = 3 /\ String.length g5 = 12 /\
    allLowerHex (g1 ++ g2 ++ g3 ++ g4 ++ g5) = true /\
    In y ["8"; "9"; "a"; "b"]%char.
Proof.
  apply (generateID_uuid_v4
           [0; 17; 34; 51; 68; 85; 102; 119; 136; 153; 170; 187; 204; 221; 238; 255]%Z).
  - reflexivity.
  - repeat constructor; lia.
Defined.

End Identifiers.

Section Links.

Import acp_helpers.

Lemma SplitByte_last (sep : ascii) (s : string) :
  forall f fs,
    strings.SplitByte s sep = f :: fs ->
    (fs = [] -> s = f /\ noByte sep f = true) /\
    (fs <> [] ->
     noByte sep (List.last fs EmptyString) = true /\
     exists dir, s = dir ++ String sep (List.last fs EmptyString)).
Proof.
  induction s as [|c s IH]; intros f fs Hs.
  - cbn [strings.SplitByte] in Hs. injection Hs as <- <-.
    split; [intros _; split; reflexivity | intros H; contradiction].
  - cbn [strings.SplitByte] in Hs.
    destruct (strings.SplitByte s sep) as [|f' fs'] eqn:Hs';
      [now apply SplitByte_nonempty in Hs'|].
    destruct (IH f' fs' eq_refl) as [IH1 IH2].
    destruct (Ascii.eqb c sep) eqn:Hc.
    + apply Ascii.eqb_eq in Hc. subst c. injection Hs as <- <-.
      split; [discriminate|]. intros _.
      destruct fs' as [|g fs'].
      * destruct (IH1 eq_refl) as [-> Hn]. cbn [List.last].
        split; [assumption|]. exists EmptyString. reflexivity.
      * destruct IH2 as [Hn (dir & Hd)]; [discriminate|].
        change (List.last (f' :: g :: fs') EmptyString)
          with (List.last (g :: fs') EmptyString).
        split; [assumption|]. exists (String sep dir). rewrite app_cons. now f_equal.
    + injection Hs as <- <-. split.
      * intros ->. destruct (IH1 eq_refl) as [-> Hn].
        split; [reflexivity|]. cbn [noByte]. now rewrite Hc.
      * intros Hne. destruct (IH2 Hne) as [Hn (dir & Hd)].
        split; [assumption|]. exists (String c dir). rewrite app_cons. now f_equal.
Qed.

Lemma label_of_last (s : string) :
  labelOf s (let name := List.last (strings.SplitByte s "/") EmptyString in
             if String.eqb name EmptyString then s else name).
Proof.
  destruct (strings.SplitByte s "/") as [|f fs] eqn:Hs;
    [now apply SplitByte_nonempty in Hs|].
  destruct (SplitByte_last "/" s f fs Hs) as [H1 H2]. cbv zeta.
  destruct fs as [|g fs].
  - destruct (H1 eq_refl) as [-> Hn]. cbn [List.last].
    destruct (String.eqb f EmptyString) eqn:He.
    + apply String.eqb_eq in He. left. split; [reflexivity | now left].
    + apply String.eqb_neq in He. right. split; [assumption|].
      split; [assumption | now left].
  - destruct H2 as [Hn (dir & Hd)]; [discriminate|].
    change (List.last (f :: g :: fs) EmptyString) with (List.last (g :: fs) EmptyString).
    destruct (String.eqb (List.last (g :: fs) EmptyString) EmptyString) eqn:He.
    + apply String.eqb_eq in He. left. split; [reflexivity|]. right.
      exists dir. now rewrite He in Hd.
    + apply String.eqb_neq in He. right. split; [assumption|].
      split; [assumption|]. right. exists dir. exact Hd.
Qed.

(** X24.  The label of a mention.  A URI that starts with neither
    [file://] nor [zed://] is returned as it is.  Otherwise the result
    is the Markdown link [[@label](uri)]: the label is what follows the
    last slash of the path (for [file://], the URI without the scheme)
    or of the whole URI (for [zed://]), and the whole path or URI when
    that is empty, so when the path is empty or ends with a slash. *)
Theorem formatUriAsLink_label :
  forall uri : string,
    (strings.HasPrefix uri "file://" = false ->
     strings.HasPrefix uri "zed://" = false ->
     formatUriAsLink uri = uri) /\
    (forall path, uri = "file://" ++ path ->
                  exists name, formatUriAsLink uri = link name uri /\ labelOf path name) /\
    (strings.HasPrefix uri "zed://" = true ->
     exists name, formatUriAsLink uri = link name uri /\ labelOf uri name).
Proof.
  intros uri. split; [|split].
  - intros Hf Hz. unfold formatUriAsLink. now rewrite Hf, Hz.
  - intros path ->. eexists. split; [|apply (label_of_last path)].
    reflexivity.
  - intros Hz.
    assert (Hf : strings.HasPrefix uri "file://" = false).
    { destruct uri as [|c s]; [discriminate Hz|].
      cbn [strings.HasPrefix] in Hz. apply andb_prop in Hz as [Hc _].
      apply Ascii.eqb_eq in Hc. subst c. reflexivity. }
    eexists. split; [|apply (label_of_last uri)].
    unfold formatUriAsLink. rewrite Hf, Hz. reflexivity.
Qed.

Lemma formatUriAsLink_label_witness :
  exists name,
    formatUriAsLink "file:///home/u/notes.txt" = link name "file:///home/u/notes.txt" /\
    labelOf "/home/u/notes.txt" name.
Proof.
  apply (proj1 (proj2 (formatUriAsLink_label "file:///home/u/notes.txt"))
               "/home/u/notes.txt").
  reflexivity.
Defined.

End Links.

(** * MCP servers *)

Section McpServers.

Import acp_helpers.

Lemma addServer_other (m : gmap string McpServerConfig) (s : McpServer) (name : string) :
  serverName s <> Some name -> addServer m s !! name = m !! name.
Proof.
  unfold serverName, addServer. intros H.
  destruct (Http s) as [h|]; [|destruct (Sse s) as [e|]; [|destruct (Stdio s) as [d|]]];
    try reflexivity; cbv zeta; apply lookup_insert_ne; congruence.
Qed.

Lemma addServer_named (m : gmap string McpServerConfig) (s : McpServer) (name : string) :
  serverName s = Some name ->
  addServer m s !! name = addServer ∅ s !! name /\
  exists cfg, addServer ∅ s = {[ name := cfg ]} /\
              (Http s <> None -> Type_ cfg = "http") /\
              (Http s = None -> Sse s <> None -> Type_ cfg = "sse") /\
              (Http s = None -> Sse s = None -> Type_ cfg = "stdio").
Proof.
  unfold serverName, addServer. intros H.
  destruct (Http s) as [h|]; [|destruct (Sse s) as [e|]; [|destruct (Stdio s) as [d|]]];
    try discriminate; injection H as <-; cbv zeta;
    (split; [now rewrite !lookup_insert_eq|]);
    eexists; (split; [reflexivity|]);
    match goal with
    | |- context [(0 <? ?n)%nat] => destruct (0 <? n)%nat
    end; cbn [Type_]; repeat split; congruence.
Qed.

Lemma fold_addServer_other (name : string) (l : list McpServer) :
  forall m, Forall (fun s => serverName s <> Some name) l ->
            fold_left addServer l m !! name = m !! name.
Proof.
  induction l as [|s l IH]; intros m Hl; [reflexivity|].
  apply List.Forall_cons_iff in Hl as [Hs Hl]. cbn [fold_left].
  rewrite IH by assumption. now apply addServer_other.
Qed.

Lemma fold_addServer_None (name : string) (l : list McpServer) :
  fold_left addServer l ∅ !! name = None <->
  Forall (fun s => serverName s <> Some name) l.
Proof.
  induction l as [|s l IH] using List.rev_ind.
  - cbn [fold_left]. rewrite lookup_empty. split; [constructor | reflexivity].
  - rewrite List.fold_left_app, List.Forall_app. cbn [fold_left].
    destruct (decide (serverName s = Some name)) as [Hs|Hs].
    + destruct (addServer_named (fold_left addServer l ∅) s name Hs)
        as [Heq (cfg & Hcfg & _)].
      rewrite Heq, Hcfg, lookup_singleton_eq. split; [discriminate|].
      intros [_ H]. apply List.Forall_cons_iff in H as [H _]. contradiction.
    + rewrite addServer_other by assumption. rewrite IH.
      split; [intros H; split; [assumption | now constructor] | now intros [H _]].
Qed.

Lemma fold_addServer_empty (l : list McpServer) :
  fold_left addServer l ∅ = ∅ <-> Forall (fun s => serverName s = None) l.
Proof.
  split.
  - intros H. apply List.Forall_forall. intros s Hs.
    destruct (serverName s) as [name|] eqn:Hn; [|reflexivity].
    assert (Hl : fold_left addServer l ∅ !! name = None)
      by (rewrite H; apply lookup_empty).
    apply fold_addServer_None in Hl. rewrite List.Forall_forall in Hl.
    now specialize (Hl s Hs).
  - intros H. apply map_eq. intros name. rewrite lookup_empty.
    apply fold_addServer_None. revert H. apply List.Forall_impl.
    intros s Hs. congruence.
Qed.

Lemma mapMcpServers_Some (servers : list McpServer) (configs : gmap string McpServerConfig) :
  mapMcpServers servers = Some configs -> configs = fold_left addServer servers ∅.
Proof.
  unfold mapMcpServers. destruct servers as [|s l]; [discriminate|].
  destruct (size (fold_left addServer (s :: l) ∅) =? 0)%nat; [discriminate|].
  now intros [= <-].
Qed.

(** X25.  Servers with the same name: the last one wins.  The result
    of [mapMcpServers] is nil exactly when no server has a variant set.
    Otherwise a name is absent exactly when no server carries it, and
    the entry of a name is the one that the last server with that name
    gives on its own; its type is http when the HTTP variant is set,
    else sse when the SSE variant is set, else stdio. *)
Theorem mapMcpServers_last_wins :
  forall servers : list McpServer,
    (mapMcpServers servers = None <-> Forall (fun s => serverName s = None) servers) /\
    (forall configs,
        mapMcpServers servers = Some configs ->
        (forall name,
            configs !! name = None <->
            Forall (fun s => serverName s <> Some name) servers) /\
        (forall before server after name,
            servers = (before ++ server :: after)%list ->
            serverName server = Some name ->
            Forall (fun s => serverName s <> Some name) after ->
            exists cfg,
              configs !! name = Some cfg /\
              mapMcpServers [server] = Some {[ name := cfg ]} /\
              (Http server <> None -> Type_ cfg = "http") /\
              (Http server = None -> Sse server <> None -> Type_ cfg = "sse") /\
              (Http server = None -> Sse server = None -> Type_ cfg = "stdio"))).
Proof.
  intros servers. split.
  - rewrite <- fold_addServer_empty. unfold mapMcpServers.
    destruct servers as [|s l]; [split; reflexivity|].
    destruct (Nat.eqb_spec (size (fold_left addServer (s :: l) ∅)) 0) as [Hz|Hz].
    + split; [intros _; now apply map_size_empty_iff | reflexivity].
    + split; [discriminate|]. intros H. apply map_size_empty_iff in H. contradiction.
  - intros configs Hc. apply mapMcpServers_Some in Hc. subst configs. split.
    + intros name. apply fold_addServer_None.
    + intros before server after name -> Hn Hafter.
      rewrite List.fold_left_app. cbn [fold_left].
      rewrite fold_addServer_other by assumption.
      destruct (addServer_named (fold_left addServer before ∅) server name Hn)
        as [Heq (cfg & Hcfg & Ht)].
      exists cfg. rewrite Heq, Hcfg, lookup_singleton_eq.
      split; [reflexivity|]. split; [|exact Ht].
      unfold mapMcpServers. cbn [fold_left]. rewrite Hcfg.
      now rewrite map_size_singleton.
Qed.

Lemma mapMcpServers_last_wins_witness :
  exists cfg,
    fold_left addServer [fsStdio; fsHttp] ∅ !! "fs" = Some cfg /\
    mapMcpServers [fsHttp] = Some {[ "fs" := cfg ]} /\
    (Http fsHttp <> None -> Type_ cfg = "http") /\
    (Http fsHttp = None -> Sse fsHttp <> None -> Type_ cfg = "sse") /\
    (Http fsHttp = None -> Sse fsHttp = None -> Type_ cfg = "stdio").
Proof.
  apply (proj2 (proj2 (mapMcpServers_last_wins [fsStdio; fsHttp])
                      (fold_left addServer [fsStdio; fsHttp] ∅) eq_refl)
               [fsStdio] fsHttp [] "fs").
  - reflexivity.
  - reflexivity.
  - constructor.
Defined.

Lemma lastValue_snoc (name : string) (l : list NameValue) (e : NameValue) :
  lastValue name (l ++ [e])
  = if String.eqb e.(Name) name then Some e.(Value) else lastValue name l.
Proof.
  unfold lastValue. rewrite List.rev_app_distr. cbn [rev app find].
  now destruct (String.eqb (Name e) name).
Qed.

Lemma fold_insert_lastValue (name : string) (l : list NameValue) :
  forall m : gmap string string,
    fold_left (fun out e => <[e.(Name) := e.(Value)]> out) l m !! name
    = match lastValue name l with
      | Some v => Some v
      | None => m !! name
      end.
Proof.
  induction l as [|e l IH] using List.rev_ind; intros m; [reflexivity|].
  rewrite List.fold_left_app, lastValue_snoc. cbn [fold_left].
  destruct (String.eqb_spec (Name e) name) as [<-|Hne].
  - apply lookup_insert_eq.
  - rewrite lookup_insert_ne by assumption. apply IH.
Qed.

(** X26.  Headers and environment variables with the same name: the
    last one wins.  [headersToMap] gives nil exactly for no entries;
    otherwise a name maps to the value of the last entry with that
    name, and only the names of entries are present.  [envToMap] does
    the same. *)
Theorem headersToMap_last_value :
  forall entries : list NameValue,
    (headersToMap entries = None <-> entries = []) /\
    (forall m, headersToMap entries = Some m ->
               forall name, m !! name = lastValue name entries) /\
    envToMap entries = headersToMap entries.
Proof.
  intros entries. split; [|split].
  - destruct entries; [split; reflexivity | split; discriminate].
  - intros m Hm name. destruct entries as [|e l]; [discriminate|].
    change (Some (fold_left (fun out header => <[Name header := Value header]> out)
                            (e :: l) ∅) = Some m) in Hm.
    injection Hm as <-.
    pose proof (fold_insert_lastValue name (e :: l) ∅) as H.
    cbn [fold_left] in H. rewrite H.
    destruct (lastValue name (e :: l)); [reflexivity | apply lookup_empty].
  - reflexivity.
Qed.

End McpServers.

(** * Prompts *)

Section PromptFacts.

Import acp_helpers.

Variable FindStringSubmatch : string -> option (list string).
Variable strconv_Quote : string -> string.

Let step := promptStep FindStringSubmatch strconv_Quote.
Let main := mainOf FindStringSubmatch strconv_Quote.
Let context := contextOf FindStringSubmatch strconv_Quote.

Lemma promptStep_appends (content contextBlocks : list any) (block : ContentBlock) :
  step (content, contextBlocks) block
  = ((content ++ main block)%list, (contextBlocks ++ context block)%list).
Proof.
  unfold step, main, context, mainOf, contextOf, promptStep, append1.
  destruct (Text block); [now rewrite List.app_nil_r|].
  destruct (ResourceLink block); [now rewrite List.app_nil_r|].
  destruct (Resource block) as [[contents|]|];
    [reflexivity | now rewrite !List.app_nil_r |].
  destruct (Image block) as [image|]; [|now rewrite !List.app_nil_r].
  destruct (negb (String.eqb (Data image) EmptyString)); [now rewrite List.app_nil_r|].
  destruct (ImageUri image) as [uri|]; [|now rewrite !List.app_nil_r].
  destruct (strings.HasPrefix uri "http"); now rewrite !List.app_nil_r.
Qed.

Lemma promptLoop (prompt : list ContentBlock) :
  forall content contextBlocks,
    fold_left step prompt (content, contextBlocks)
    = ((content ++ flat_map main prompt)%list,
       (contextBlocks ++ flat_map context prompt)%list).
Proof.
  induction prompt as [|block prompt IH]; intros content contextBlocks.
  - cbn [fold_left flat_map]. now rewrite !List.app_nil_r.
  - cbn [fold_left flat_map]. rewrite promptStep_appends, IH.
    now rewrite <- !List.app_assoc.
Qed.

(** X27.  The context of embedded resources comes last.  The content
    of the message is what the blocks of the prompt contribute, in the
    order of the prompt, followed by the context blocks, in the order
    of the prompt.  A block contributes at most one content block; it
    contributes a context block, holding the text of the resource
    between context tags, exactly when it embeds a text resource.  The
    session id is passed on. *)
Theorem promptToClaude_context_last :
  forall req : PromptRequest,
    let message := promptToClaude FindStringSubmatch strconv_Quote req in
    Content message
    = (flat_map (mainOf FindStringSubmatch strconv_Quote) (Prompt req) ++
       flat_map (contextOf FindStringSubmatch strconv_Quote) (Prompt req))%list /\
    SessionID message = SessionId req /\
    forall block,
      length (mainOf FindStringSubmatch strconv_Quote block) <= 1 /\
      contextOf FindStringSubmatch strconv_Quote block
      = match embeddedText block with
        | Some contents =>
            [textBlock (contextText strconv_Quote (ResourceUri contents)
                          (ResourceText contents))]
        | None => []
        end.
Proof.
  intros req. cbv zeta. unfold promptToClaude.
  fold step. rewrite promptLoop. cbn [app Content SessionID].
  split; [reflexivity|]. split; [reflexivity|].
  intros block. unfold mainOf, contextOf, embeddedText, promptStep, append1.
  destruct (Text block); [split; [cbn; lia | reflexivity]|].
  destruct (ResourceLink block); [split; [cbn; lia | reflexivity]|].
  destruct (Resource block) as [[contents|]|];
    [split; [cbn; lia | reflexivity] | split; [cbn; lia | reflexivity] |].
  destruct (Image block) as [image|]; [|split; [cbn; lia | reflexivity]].
  destruct (negb (String.eqb (Data image) EmptyString));
    [split; [cbn; lia | reflexivity]|].
  destruct (ImageUri image) as [uri|]; [|split; [cbn; lia | reflexivity]].
  destruct (strings.HasPrefix uri "http"); split; (cbn; lia) || reflexivity.
Qed.

End PromptFacts.
